(** * ERD editor: graph store, history, interaction handlers and connector routing

    A shallow embedding of the diagram editor.  Two editors of the repository
    are embedded:

    - the history-based editor ([src/unnamed/part_000], first document): the
      graph lives in [history[historyIndex]], every mutation goes through
      [updateState];
    - the map-based editor ([src/plus_page.tsx]): entities are a JS object
      keyed by id, there is no history; it is embedded in [Module PlusPage].

    Besides the two editors the development embeds the SQL forms of both
    files ([SqlCreateTable], [SqlAlterTable], [CreateTableForm]), the memoized
    [EntityShape] of the map-based editor and the script that copies the
    static files to [dist].  [PlusPageApp] is the map-based editor with the
    handlers of earlier renders that its memoized components keep;
    [PlusPagePointer] adds what a pointer event delivers to them.

    JavaScript numbers are IEEE-754 binary64 values, embedded as Rocq's
    primitive [float]s.  Identifiers and names are [string]s.

    React semantics.  A handler is a closure created by one render: it reads
    the state of that render and queues writes.  Accordingly a handler is
    embedded as a function of what the render saw (the world [w0] and the
    snapshot [cur] destructured from [history[historyIndex]]) that returns a
    transformer of the pending world; an event applies the transformer to
    [w0] itself.  A setter called with a value overwrites what an earlier
    call in the same handler queued, exactly as in React; a setter called
    with a function reads the pending value. *)

From Stdlib Require Import String Ascii List ZArith Lia Bool Floats DecimalString.
From stdpp Require Import gmap strings.
Import ListNotations.
Open Scope string_scope.
Open Scope list_scope.
Open Scope nat_scope.

(** ** Type definitions *)

(** [type EntityType = 'Entity' | 'Action' | 'Attribute'] *)
Inductive EntityType := EntityT | ActionT | AttributeT.

Definition EntityType_string (t : EntityType) : string :=
  match t with
  | EntityT => "Entity"
  | ActionT => "Action"
  | AttributeT => "Attribute"
  end.

(** [a === b] on [EntityType]. *)
Definition EntityType_eqb (a b : EntityType) : bool :=
  match a, b with
  | EntityT, EntityT | ActionT, ActionT | AttributeT, AttributeT => true
  | _, _ => false
  end.

(** [type Cardinality = 'ONE_AND_ONLY_ONE' | ... | 'MANY'] *)
Inductive Cardinality :=
| ONE_AND_ONLY_ONE | ZERO_OR_ONE | ONE_OR_MANY | ZERO_OR_MANY | ONE | MANY.

Definition Cardinality_eqb (a b : Cardinality) : bool :=
  match a, b with
  | ONE_AND_ONLY_ONE, ONE_AND_ONLY_ONE | ZERO_OR_ONE, ZERO_OR_ONE
  | ONE_OR_MANY, ONE_OR_MANY | ZERO_OR_MANY, ZERO_OR_MANY
  | ONE, ONE | MANY, MANY => true
  | _, _ => false
  end.

Definition CARDINALITIES : list Cardinality :=
  [ONE_AND_ONLY_ONE; ZERO_OR_ONE; ONE_OR_MANY; ZERO_OR_MANY; ONE; MANY].

(** [interface Entity { id; x; y; width; height; name; type }] *)
Record Entity := mkEntity {
  e_id : string;
  e_x : float;
  e_y : float;
  e_width : float;
  e_height : float;
  e_name : string;
  e_type : EntityType
}.

(** [interface Relationship { id; fromId; toId; startCardinality; endCardinality }] *)
Record Relationship := mkRelationship {
  r_id : string;
  r_fromId : string;
  r_toId : string;
  r_startCardinality : Cardinality;
  r_endCardinality : Cardinality
}.

(** One element of [history]: [{ entities, relationships }]. *)
Record Snapshot := mkSnapshot {
  entities : list Entity;
  relationships : list Relationship
}.

(** [relationshipCreation: { active: boolean; fromId: string | null }] *)
Record RelationshipCreation := mkRelationshipCreation {
  active : bool;
  fromId : option string
}.

(** JavaScript truthiness of a [string | null]: [null] and [''] are falsy. *)
Definition truthy (o : option string) : bool :=
  match o with
  | None => false
  | Some s => negb (String.eqb s "")
  end.

(** The string a truthy [string | null] holds. *)
Definition whenTruthy (o : option string) : option string :=
  match o with
  | Some s => if String.eqb s "" then None else Some s
  | None => None
  end.

(** Template-literal rendering of a non-negative integer. *)
Definition numberToString (n : N) : string := NilZero.string_of_uint (N.to_uint n).

(** [String.prototype.toLowerCase] on ASCII text. *)
Definition lowerAscii (c : ascii) : ascii :=
  let n := nat_of_ascii c in
  if (65 <=? n)%nat && (n <=? 90)%nat then ascii_of_nat (n + 32) else c.
Fixpoint toLowerCase (s : string) : string :=
  match s with
  | EmptyString => EmptyString
  | String c s' => String (lowerAscii c) (toLowerCase s')
  end.

(** ** The history-based editor: [App] state *)

Record AppState := mkAppState {
  history : list Snapshot;
  historyIndex : nat;
  editingEntityId : option string;
  selectedEntityId : option string;
  relationshipCreation : RelationshipCreation;
  selectedRelationshipId : option string;
  showCardinality : bool
}.

(** [useState] initial values of [App]. *)
Definition initialState : AppState :=
  {| history := [ {| entities := []; relationships := [] |} ];
     historyIndex := 0;
     editingEntityId := None;
     selectedEntityId := None;
     relationshipCreation := {| active := false; fromId := None |};
     selectedRelationshipId := None;
     showCardinality := true |}.

(** The state setters returned by [useState]. *)
Definition setHistory (h : list Snapshot) (p : AppState) : AppState :=
  mkAppState h (historyIndex p) (editingEntityId p) (selectedEntityId p)
    (relationshipCreation p) (selectedRelationshipId p) (showCardinality p).
Definition setHistoryIndex (i : nat) (p : AppState) : AppState :=
  mkAppState (history p) i (editingEntityId p) (selectedEntityId p)
    (relationshipCreation p) (selectedRelationshipId p) (showCardinality p).
Definition setEditingEntityId (v : option string) (p : AppState) : AppState :=
  mkAppState (history p) (historyIndex p) v (selectedEntityId p)
    (relationshipCreation p) (selectedRelationshipId p) (showCardinality p).
Definition setSelectedEntityId (v : option string) (p : AppState) : AppState :=
  mkAppState (history p) (historyIndex p) (editingEntityId p) v
    (relationshipCreation p) (selectedRelationshipId p) (showCardinality p).
Definition setRelationshipCreation (v : RelationshipCreation) (p : AppState) : AppState :=
  mkAppState (history p) (historyIndex p) (editingEntityId p) (selectedEntityId p)
    v (selectedRelationshipId p) (showCardinality p).
Definition setSelectedRelationshipId (v : option string) (p : AppState) : AppState :=
  mkAppState (history p) (historyIndex p) (editingEntityId p) (selectedEntityId p)
    (relationshipCreation p) v (showCardinality p).
Definition setShowCardinality (v : bool) (p : AppState) : AppState :=
  mkAppState (history p) (historyIndex p) (editingEntityId p) (selectedEntityId p)
    (relationshipCreation p) (selectedRelationshipId p) v.

(** [const { entities, relationships } = history[historyIndex]]: the render
    throws when the index is out of range, hence the [option]. *)
Definition currentSnapshot (st : AppState) : option Snapshot :=
  nth_error (history st) (historyIndex st).

(** An updater argument is either a function of the previous value or a
    plain value ([typeof updater === 'function' ? updater(prev) : updater]). *)
Inductive Updater (A : Type) :=
| Fn (f : A -> A)
| Val (v : A).
Arguments Fn {A} f.
Arguments Val {A} v.

Definition applyUpdater {A : Type} (u : Updater A) (prev : A) : A :=
  match u with
  | Fn f => f prev
  | Val v => v
  end.

(** [updateState]: [history.slice(0, historyIndex + 1)] is [firstn]. *)
Definition updateState (st : AppState) (cur : Snapshot)
    (entitiesUpdater : Updater (list Entity))
    (relationshipsUpdater : Updater (list Relationship)) (p : AppState) : AppState :=
  let newEntities := applyUpdater entitiesUpdater (entities cur) in
  let newRelationships := applyUpdater relationshipsUpdater (relationships cur) in
  let newHistory := firstn (historyIndex st + 1) (history st) in
  setHistoryIndex (length newHistory)
    (setHistory (newHistory ++ [ {| entities := newEntities; relationships := newRelationships |} ]) p).

(** What one commit does to the history of [st]: the snapshots after the
    cursor are dropped, [new] is appended, and the cursor moves to it. *)
Definition committed (st : AppState) (new : Snapshot) (st' : AppState) : Prop :=
  history st' = firstn (historyIndex st + 1) (history st) ++ [new]
  /\ historyIndex st' = historyIndex st + 1
  /\ currentSnapshot st' = Some new.

(** [handleUndo] and [handleRedo].  On [nat], [length - 1] truncates at 0,
    where JavaScript yields [-1]; [historyIndex < _] is false in both. *)
Definition handleUndo (st : AppState) (p : AppState) : AppState :=
  if (0 <? historyIndex st)%nat then setHistoryIndex (historyIndex st - 1) p else p.

Definition handleRedo (st : AppState) (p : AppState) : AppState :=
  if (historyIndex st <? length (history st) - 1)%nat
  then setHistoryIndex (historyIndex st + 1) p else p.


(** ** Connector routing: [calculateRelationshipRenderProps] *)

Record Point := mkPoint { p_x : float; p_y : float }.

(** [{ x, y, rotation }] of a cardinality symbol. *)
Record SymbolProps := mkSymbolProps {
  s_x : float;
  s_y : float;
  s_rotation : float
}.

Record RenderProps := mkRenderProps {
  points : list float;
  startSymbolProps : SymbolProps;
  endSymbolProps : SymbolProps
}.

(** The functions of the JavaScript [Math] object that the routing calls.
    ECMAScript leaves their results implementation-approximated, so they are
    parameters of the embedding. *)
Record MathObject := mkMath {
  Math_hypot : float -> float -> float;
  Math_atan2 : float -> float -> float;
  Math_cos : float -> float;
  Math_sin : float -> float
}.

(** [Math.PI], the binary64 value nearest to pi. *)
Definition Math_PI : float := 0x1.921fb54442d18p+1%float.

Definition topAnchor (e : Entity) : Point :=
  mkPoint (e_x e + e_width e / 2)%float (e_y e).
Definition rightAnchor (e : Entity) : Point :=
  mkPoint (e_x e + e_width e)%float (e_y e + e_height e / 2)%float.
Definition bottomAnchor (e : Entity) : Point :=
  mkPoint (e_x e + e_width e / 2)%float (e_y e + e_height e)%float.
Definition leftAnchor (e : Entity) : Point :=
  mkPoint (e_x e) (e_y e + e_height e / 2)%float.

Definition getAnchors (e : Entity) : list Point :=
  [topAnchor e; rightAnchor e; bottomAnchor e; leftAnchor e].

(** [Math.hypot(fromPoint.x - toPoint.x, fromPoint.y - toPoint.y)] *)
Definition distance (hypot : float -> float -> float) (fromPoint toPoint : Point) : float :=
  hypot (p_x fromPoint - p_x toPoint)%float (p_y fromPoint - p_y toPoint)%float.

(** The loop state is [(minDistance, bestPoints)]; one iteration of the inner
    loop body. *)
Definition scanStep (hypot : float -> float -> float) (fromPoint : Point)
    (acc : float * (Point * Point)) (toPoint : Point) : float * (Point * Point) :=
  let d := distance hypot fromPoint toPoint in
  if (d <? fst acc)%float then (d, (fromPoint, toPoint)) else acc.

(** The two nested [for ... of] loops. *)
Definition scanAnchors (hypot : float -> float -> float) (fromAnchors toAnchors : list Point)
    (init : float * (Point * Point)) : float * (Point * Point) :=
  fold_left (fun acc fromPoint => fold_left (scanStep hypot fromPoint) toAnchors acc)
    fromAnchors init.

(** [bestPoints] after the loops; it starts as
    [{ from: fromAnchors[0], to: toAnchors[0] }] with [minDistance = Infinity]. *)
Definition bestPoints (hypot : float -> float -> float) (fromEntity toEntity : Entity)
    : Point * Point :=
  snd (scanAnchors hypot (getAnchors fromEntity) (getAnchors toEntity)
         (infinity, (topAnchor fromEntity, topAnchor toEntity))).

(** [points] of the connector line. *)
Definition linePoints (b : Point * Point) : list float :=
  [p_x (fst b); p_y (fst b); p_x (snd b); p_y (snd b)].

Definition angleRadOf (M : MathObject) (b : Point * Point) : float :=
  Math_atan2 M (p_y (snd b) - p_y (fst b))%float (p_x (snd b) - p_x (fst b))%float.

Definition offset : float := 20%float.

(** [startSymbolProps] and [endSymbolProps] as functions of [bestPoints]. *)
Definition startSymbolOf (M : MathObject) (b : Point * Point) : SymbolProps :=
  let angleRad := angleRadOf M b in
  let angleDeg := (angleRad * (180 / Math_PI))%float in
  mkSymbolProps (p_x (fst b) + offset * Math_cos M angleRad)%float
                (p_y (fst b) + offset * Math_sin M angleRad)%float
                (angleDeg + 180)%float.

Definition endSymbolOf (M : MathObject) (b : Point * Point) : SymbolProps :=
  let angleRad := angleRadOf M b in
  let angleDeg := (angleRad * (180 / Math_PI))%float in
  mkSymbolProps (p_x (snd b) - offset * Math_cos M angleRad)%float
                (p_y (snd b) - offset * Math_sin M angleRad)%float
                angleDeg.

Definition calculateRelationshipRenderProps (M : MathObject) (fromEntity toEntity : Entity)
    : RenderProps :=
  let b := bestPoints (Math_hypot M) fromEntity toEntity in
  mkRenderProps (linePoints b) (startSymbolOf M b) (endSymbolOf M b).

(** A line [x1, y1, x2, y2] traversed from its other end. *)
Definition reverseLine (l : list float) : list float :=
  match l with
  | [x1; y1; x2; y2] => [x2; y2; x1; y1]
  | _ => l
  end.

(** A [Math.hypot] built from the IEEE operations, used to evaluate the
    routing on concrete shapes. *)
Definition hypot_ieee (x y : float) : float := PrimFloat.sqrt (x * x + y * y)%float.

(** A binary64 value with its sign bit replaced. *)
Definition withSign (s : bool) (r : spec_float) : spec_float :=
  match r with
  | S754_zero _ => S754_zero s
  | S754_infinity _ => S754_infinity s
  | S754_nan => S754_nan
  | S754_finite _ m e => S754_finite s m e
  end.

(** [best] is strictly closer than every other pair of [l]. *)
Definition strictlyClosest (hypot : float -> float -> float) (best : Point * Point)
    (l : list (Point * Point)) : Prop :=
  forall pq, In pq l ->
    pq = best
    \/ (distance hypot (fst best) (snd best) <? distance hypot (fst pq) (snd pq))%float = true.

(** The 16 anchor pairs in the order the loops visit them. *)
Definition anchorPairs (fromEntity toEntity : Entity) : list (Point * Point) :=
  list_prod (getAnchors fromEntity) (getAnchors toEntity).

(** ** The world a handler of the history-based editor runs in *)

(** The Konva nodes of one rendered relationship: the group [#rel.id] with
    its children [.relationship-line], [.start-cardinality] and
    [.end-cardinality] (the symbols exist only while cardinalities are shown). *)
Record LineGroup := mkLineGroup {
  lg_line : option (list float);
  lg_start : option SymbolProps;
  lg_end : option SymbolProps
}.

(** Messages shown with [alert]. *)
Inductive Alert := RelationshipAlreadyExists.

(** React state, the relationship groups of the Konva stage keyed by node id,
    the value of the rename textarea when it is mounted
    ([textareaRef.current]), and the alerts shown so far.  The stage is taken
    as it is found: how react-konva creates and updates nodes after a state
    change is outside the embedding, which records the writes of
    [handleDragMove] only. *)
Record World := mkWorld {
  app : AppState;
  stage : gmap string LineGroup;
  textarea : option string;
  alerts : list Alert
}.

Definition onApp (f : AppState -> AppState) (w : World) : World :=
  mkWorld (f (app w)) (stage w) (textarea w) (alerts w).
Definition onStage (f : gmap string LineGroup -> gmap string LineGroup) (w : World) : World :=
  mkWorld (app w) (f (stage w)) (textarea w) (alerts w).
Definition alert (a : Alert) (w : World) : World :=
  mkWorld (app w) (stage w) (textarea w) (alerts w ++ [a]).

(** A handler that returns without queuing anything. *)
Definition skip {A : Type} (p : A) : A := p.

(** Statements of a handler run in order. *)
Notation "f >>> g" := (fun p => g (f p)) (at level 50, left associativity).

(** [entities.find(e => e.id === id)] *)
Definition findEntity (id : string) (es : list Entity) : option Entity :=
  find (fun e => String.eqb (e_id e) id) es.

(** ** [ErdView] handlers of the history-based editor *)

Section ErdView.
(** The render that created the handlers: the world [w0] it saw and the
    snapshot [cur] it destructured. *)
Variable M : MathObject.
Variable w0 : World.
Variable cur : Snapshot.

(** [setEntities] and [setRelationships] go through [onStateChange], which
    is [updateState]. *)
Definition setEntities (updater : Updater (list Entity)) : World -> World :=
  onApp (updateState (app w0) cur updater (Fn (fun prevRels => prevRels))).
Definition setRelationships (updater : Updater (list Relationship)) : World -> World :=
  onApp (updateState (app w0) cur (Fn (fun prevEnts => prevEnts)) updater).

(** The imperative update of one relationship group in [handleDragMove]. *)
Definition redrawGroup (props : RenderProps) (lg : LineGroup) : LineGroup :=
  mkLineGroup
    (match lg_line lg with Some _ => Some (points props) | None => None end)
    (match lg_start lg with Some _ => Some (startSymbolProps props) | None => None end)
    (match lg_end lg with Some _ => Some (endSymbolProps props) | None => None end).

Definition handleDragMove (entityId : string) (x y : float) : World -> World :=
  match findEntity entityId (entities cur) with
  | None => skip
  | Some draggedEntityData =>
    let tempDraggedEntity :=
      mkEntity (e_id draggedEntityData) x y (e_width draggedEntityData)
        (e_height draggedEntityData) (e_name draggedEntityData) (e_type draggedEntityData) in
    onStage (fun sc0 =>
      fold_left (fun sc rel =>
        if String.eqb (r_fromId rel) entityId || String.eqb (r_toId rel) entityId then
          let fromEntity := if String.eqb (r_fromId rel) entityId then Some tempDraggedEntity
                            else findEntity (r_fromId rel) (entities cur) in
          let toEntity := if String.eqb (r_toId rel) entityId then Some tempDraggedEntity
                          else findEntity (r_toId rel) (entities cur) in
          match fromEntity, toEntity with
          | Some f, Some t =>
            match sc !! r_id rel with
            | Some lineGroup =>
              <[r_id rel := redrawGroup (calculateRelationshipRenderProps M f t) lineGroup]> sc
            | None => sc
            end
          | _, _ => sc
          end
        else sc) (relationships cur) sc0)
  end.

Definition moveEntity (id : string) (x y : float) (en : Entity) : Entity :=
  if String.eqb (e_id en) id
  then mkEntity (e_id en) x y (e_width en) (e_height en) (e_name en) (e_type en)
  else en.

Definition handleDragEnd (id : string) (x y : float) : World -> World :=
  setEntities (Fn (List.map (moveEntity id x y))).

Definition handleEntityDblClick (id : string) : World -> World :=
  onApp (setRelationshipCreation (mkRelationshipCreation false None))
  >>> onApp (setSelectedRelationshipId None)
  >>> onApp (setSelectedEntityId None)
  >>> onApp (setEditingEntityId (Some id)).

Definition renameEntity (id : string) (newName : string) (e : Entity) : Entity :=
  if String.eqb (e_id e) id
  then mkEntity (e_id e) (e_x e) (e_y e) (e_width e) (e_height e) newName (e_type e)
  else e.

Definition handleFinishEditing : World -> World :=
  match whenTruthy (editingEntityId (app w0)), textarea w0 with
  | Some editing, Some newName =>
    setEntities (Fn (List.map (renameEntity editing newName)))
    >>> onApp (setEditingEntityId None)
  | _, _ => skip
  end.

Definition handleTextareaKeyDown (key : string) (shiftKey : bool) : World -> World :=
  (if String.eqb key "Enter" && negb shiftKey then handleFinishEditing else skip)
  >>> (if String.eqb key "Escape" then onApp (setEditingEntityId None) else skip).

(** [relationships.some(rel => ...)] of [handleEntityClick]. *)
Definition alreadyExists (fromId toId : string) (rels : list Relationship) : bool :=
  existsb (fun rel =>
    (String.eqb (r_fromId rel) fromId && String.eqb (r_toId rel) toId)
    || (String.eqb (r_fromId rel) toId && String.eqb (r_toId rel) fromId)) rels.

(** [newId] is the result of [crypto.randomUUID()]. *)
Definition handleEntityClick (id : string) (newId : string) : World -> World :=
  (if truthy (editingEntityId (app w0))
   then handleFinishEditing >>> onApp (setEditingEntityId None) else skip)
  >>>
  (if negb (active (relationshipCreation (app w0))) then
     onApp (setSelectedRelationshipId None) >>> onApp (setSelectedEntityId (Some id))
   else
     match whenTruthy (fromId (relationshipCreation (app w0))) with
     | Some source =>
       if String.eqb source id then skip
       else if alreadyExists source id (relationships cur) then
         alert RelationshipAlreadyExists
         >>> onApp (setRelationshipCreation (mkRelationshipCreation false None))
       else
         let newRelationship := mkRelationship newId source id ONE_AND_ONLY_ONE ONE_AND_ONLY_ONE in
         setRelationships (Fn (fun prev => prev ++ [newRelationship]))
         >>> onApp (setRelationshipCreation (mkRelationshipCreation false None))
     | None =>
       onApp (setSelectedEntityId None)
       >>> onApp (setRelationshipCreation (mkRelationshipCreation true (Some id)))
     end).

(** [id] is [relationshipGroup?.id()]. *)
Definition handleRelationshipSelect (id : option string) : World -> World :=
  if negb (truthy id) then skip
  else
    (if truthy (editingEntityId (app w0)) then handleFinishEditing else skip)
    >>> onApp (setEditingEntityId None)
    >>> onApp (setRelationshipCreation (mkRelationshipCreation false None))
    >>> onApp (setSelectedEntityId None)
    >>> onApp (setSelectedRelationshipId id).

(** [targetProp]: ['startCardinality'] or ['endCardinality']. *)
Inductive TargetProp := startCardinality | endCardinality.

(** [rel[targetProp]] and [{ ...rel, [targetProp]: c }]. *)
Definition getCardinality (targetProp : TargetProp) (rel : Relationship) : Cardinality :=
  match targetProp with
  | startCardinality => r_startCardinality rel
  | endCardinality => r_endCardinality rel
  end.
Definition withCardinality (targetProp : TargetProp) (c : Cardinality)
    (rel : Relationship) : Relationship :=
  match targetProp with
  | startCardinality =>
    mkRelationship (r_id rel) (r_fromId rel) (r_toId rel) c (r_endCardinality rel)
  | endCardinality =>
    mkRelationship (r_id rel) (r_fromId rel) (r_toId rel) (r_startCardinality rel) c
  end.

(** [CARDINALITIES.indexOf(c)], [-1] when absent. *)
Fixpoint indexOfFrom (c : Cardinality) (l : list Cardinality) (i : Z) : Z :=
  match l with
  | [] => (-1)%Z
  | x :: l' => if Cardinality_eqb x c then i else indexOfFrom c l' (i + 1)%Z
  end.
Definition indexOf (c : Cardinality) (l : list Cardinality) : Z := indexOfFrom c l 0%Z.

(** [CARDINALITIES[(currentIndex + 1) % CARDINALITIES.length]]; [None] is
    JavaScript's [undefined] for an index out of range. *)
Definition nextCardinality (currentCardinality : Cardinality) : option Cardinality :=
  let currentIndex := indexOf currentCardinality CARDINALITIES in
  let nextIndex := Z.rem (currentIndex + 1) (Z.of_nat (length CARDINALITIES)) in
  if (nextIndex <? 0)%Z then None else nth_error CARDINALITIES (Z.to_nat nextIndex).

(** The [map] callback of [handleCardinalityChange].  The lookup never
    yields [undefined] (first part of [cycleCardinality_cycles]), so the
    [None] branch is dead. *)
Definition cycleCardinality (relationshipId : string) (targetProp : TargetProp)
    (rel : Relationship) : Relationship :=
  if String.eqb (r_id rel) relationshipId then
    match nextCardinality (getCardinality targetProp rel) with
    | Some c => withCardinality targetProp c rel
    | None => rel
    end
  else rel.

(** [relationshipId] is [relationshipGroup?.id()], [symbolName] is
    [symbolGroup.name()]. *)
Definition handleCardinalityChange (relationshipId : option string) (symbolName : string)
    : World -> World :=
  let point := if String.prefix "start" symbolName then startCardinality else endCardinality in
  match whenTruthy relationshipId with
  | Some rid => setRelationships (Fn (List.map (cycleCardinality rid point)))
  | None => skip
  end.

(** [targetIsStage] is [e.target === e.target.getStage()]. *)
Definition handleStageClick (targetIsStage : bool) : World -> World :=
  if targetIsStage then
    (if truthy (editingEntityId (app w0)) then handleFinishEditing else skip)
    >>> onApp (setRelationshipCreation (mkRelationshipCreation false None))
    >>> onApp (setSelectedRelationshipId None)
    >>> onApp (setSelectedEntityId None)
  else skip.
End ErdView.

(** ** [App] handlers of the history-based editor *)

(** [erdContainerRef.current], as far as [handleAddEntity] reads it. *)
Record Container := mkContainer {
  scrollLeft : float;
  scrollTop : float;
  clientWidth : float;
  clientHeight : float
}.

Section App.
Variable w0 : World.
Variable cur : Snapshot.

Definition handleDeleteSelected : World -> World :=
  match whenTruthy (selectedEntityId (app w0)) with
  | Some sel =>
    onApp (updateState (app w0) cur
             (Fn (List.filter (fun e => negb (String.eqb (e_id e) sel))))
             (Fn (List.filter (fun r => negb (String.eqb (r_fromId r) sel)
                                        && negb (String.eqb (r_toId r) sel)))))
    >>> onApp (setSelectedEntityId None)
  | None =>
    match whenTruthy (selectedRelationshipId (app w0)) with
    | Some sel =>
      onApp (updateState (app w0) cur (Val (entities cur))
               (Fn (List.filter (fun rel => negb (String.eqb (r_id rel) sel)))))
      >>> onApp (setSelectedRelationshipId None)
    | None => skip
    end
  end.

(** [newId] is the result of [crypto.randomUUID()]. *)
Definition handleAddEntity (type : EntityType) (newId : string)
    (container : option Container) : World -> World :=
  let spawnX := match container with
                | Some c => (scrollLeft c + clientWidth c / 2 - 75)%float
                | None => 50%float
                end in
  let spawnY := match container with
                | Some c => (scrollTop c + clientHeight c / 2 - 40)%float
                | None => 50%float
                end in
  let count :=
    length (List.filter (fun e => EntityType_eqb (e_type e) type) (entities cur)) + 1 in
  let newEntity :=
    mkEntity newId spawnX spawnY
      (match type with ActionT => 120%float | _ => 150%float end)
      (match type with ActionT => 120%float | _ => 75%float end)
      (EntityType_string type ++ " " ++ numberToString (N.of_nat count))%string
      type in
  onApp (updateState (app w0) cur (Fn (fun prev => prev ++ [newEntity]))
           (Val (relationships cur))).

(** [handleExportImage]; the layout effect that follows it only reads the
    stage. *)
Definition handleExportImage : World -> World :=
  onApp (setSelectedRelationshipId None)
  >>> onApp (setSelectedEntityId None)
  >>> onApp (setEditingEntityId None).

(** The [onClick] of the toolbar's relationship button. *)
Definition handleRelationshipButton : World -> World :=
  onApp (setEditingEntityId None)
  >>> onApp (setSelectedRelationshipId None)
  >>> onApp (setSelectedEntityId None)
  >>> onApp (fun p => setRelationshipCreation
               (mkRelationshipCreation (negb (active (relationshipCreation p))) None) p).

Definition handleCardinalityButton : World -> World :=
  onApp (fun p => setShowCardinality (negb (showCardinality p)) p).

(** The body of the window-level [keydown] listener, which runs under
    [if (mode === 'ERD')]; the listener with its test of the mode is
    [windowKeyDown]. *)
Definition handleKeyDown (ctrlKey metaKey shiftKey : bool) (key : string) : World -> World :=
  if truthy (editingEntityId (app w0)) then skip
  else
    (if (ctrlKey || metaKey) && String.eqb key "z"
     then onApp (handleUndo (app w0)) else skip)
    >>> (if (ctrlKey || metaKey) && shiftKey && String.eqb key "z"
         then onApp (handleRedo (app w0)) else skip)
    >>> (if (ctrlKey || metaKey) && String.eqb key "y"
         then onApp (handleRedo (app w0)) else skip)
    >>> (if (String.eqb key "Delete" || String.eqb key "Backspace")
            && (truthy (selectedRelationshipId (app w0)) || truthy (selectedEntityId (app w0)))
         then handleDeleteSelected else skip).
End App.

(** ** Events of the history-based editor *)

(** The events of ERD mode, the mode in which the canvas and its toolbar are
    mounted.  [EvKeyDown] is a key press in that mode. *)
Inductive Event :=
| EvDragMove (id : string) (x y : float)
| EvDragEnd (id : string) (x y : float)
| EvEntityClick (id : string) (newId : string)
| EvEntityDblClick (id : string)
| EvTextareaInput (value : string)
| EvTextareaBlur
| EvTextareaKeyDown (key : string) (shiftKey : bool)
| EvRelationshipClick (groupId : option string)
| EvCardinalityClick (groupId : option string) (symbolName : string)
| EvStageClick (targetIsStage : bool)
| EvKeyDown (ctrlKey metaKey shiftKey : bool) (key : string)
| EvUndoButton
| EvRedoButton
| EvDeleteButton
| EvAddEntity (type : EntityType) (newId : string) (container : option Container)
| EvRelationshipButton
| EvCardinalityButton
| EvExportImage.

Definition handle (M : MathObject) (w0 : World) (cur : Snapshot) (ev : Event) : World -> World :=
  match ev with
  | EvDragMove id x y => handleDragMove M cur id x y
  | EvDragEnd id x y => handleDragEnd w0 cur id x y
  | EvEntityClick id newId => handleEntityClick w0 cur id newId
  | EvEntityDblClick id => handleEntityDblClick id
  | EvTextareaInput value =>
    fun w => match textarea w with
             | Some _ => mkWorld (app w) (stage w) (Some value) (alerts w)
             | None => w
             end
  | EvTextareaBlur => handleFinishEditing w0 cur
  | EvTextareaKeyDown key shiftKey => handleTextareaKeyDown w0 cur key shiftKey
  | EvRelationshipClick groupId => handleRelationshipSelect w0 cur groupId
  | EvCardinalityClick groupId symbolName => handleCardinalityChange w0 cur groupId symbolName
  | EvStageClick targetIsStage => handleStageClick w0 cur targetIsStage
  | EvKeyDown ctrlKey metaKey shiftKey key => handleKeyDown w0 cur ctrlKey metaKey shiftKey key
  | EvUndoButton => onApp (handleUndo (app w0))
  | EvRedoButton => onApp (handleRedo (app w0))
  | EvDeleteButton => handleDeleteSelected w0 cur
  | EvAddEntity type newId container => handleAddEntity w0 cur type newId container
  | EvRelationshipButton => handleRelationshipButton
  | EvCardinalityButton => handleCardinalityButton
  | EvExportImage => handleExportImage
  end.

(** The textarea after the render that follows an event:
    [{editingEntityId && <textarea defaultValue={editingEntity?.name} ... />}].
    A textarea that stays mounted keeps its value. *)
Definition rerender (w : World) : World :=
  let ta :=
    if truthy (editingEntityId (app w)) then
      match textarea w with
      | Some v => Some v
      | None =>
        match whenTruthy (editingEntityId (app w)), currentSnapshot (app w) with
        | Some editing, Some c =>
          match findEntity editing (entities c) with
          | Some editingEntity => Some (e_name editingEntity)
          | None => Some ""
          end
        | _, _ => Some ""
        end
      end
    else None in
  mkWorld (app w) (stage w) ta (alerts w).

(** One event: the handler created by the current render runs, its queued
    writes are applied, and the component renders again.  [None]: the render
    threw on [history[historyIndex]]. *)
Definition step (M : MathObject) (w : World) (ev : Event) : option World :=
  match currentSnapshot (app w) with
  | Some cur => Some (rerender (handle M w cur ev w))
  | None => None
  end.

Fixpoint run (M : MathObject) (w : World) (evs : list Event) : option World :=
  match evs with
  | [] => Some w
  | ev :: evs' =>
    match step M w ev with
    | Some w' => run M w' evs'
    | None => None
    end
  end.

Definition initialWorld : World := mkWorld initialState ∅ None [].

(** ** The map-based editor of [plus_page.tsx] *)

Module PlusPage.

Record State := mkState {
  entities : gmap string Entity;
  relationships : list Relationship;
  selectedEntityId : option string;
  selectedRelationshipId : option string;
  relationshipCreation : RelationshipCreation;
  editingEntityId : option string
}.

Definition initialState : State :=
  mkState ∅ [] None None (mkRelationshipCreation false None) None.

(** Setters; [setEntities] and [setRelationships] are always called with a
    function of the previous value. *)
Definition setEntities (f : gmap string Entity -> gmap string Entity) (p : State) : State :=
  mkState (f (entities p)) (relationships p) (selectedEntityId p)
    (selectedRelationshipId p) (relationshipCreation p) (editingEntityId p).
Definition setRelationships (f : list Relationship -> list Relationship) (p : State) : State :=
  mkState (entities p) (f (relationships p)) (selectedEntityId p)
    (selectedRelationshipId p) (relationshipCreation p) (editingEntityId p).
Definition setSelectedEntityId (v : option string) (p : State) : State :=
  mkState (entities p) (relationships p) v
    (selectedRelationshipId p) (relationshipCreation p) (editingEntityId p).
Definition setSelectedRelationshipId (v : option string) (p : State) : State :=
  mkState (entities p) (relationships p) (selectedEntityId p)
    v (relationshipCreation p) (editingEntityId p).
Definition setRelationshipCreation (v : RelationshipCreation) (p : State) : State :=
  mkState (entities p) (relationships p) (selectedEntityId p)
    (selectedRelationshipId p) v (editingEntityId p).

(** [now] is the result of [Date.now()]. *)
Definition addEntity (type : EntityType) (now : N) : State -> State :=
  let id := (toLowerCase (EntityType_string type) ++ "_" ++ numberToString now)%string in
  let newEntity :=
    mkEntity id 100%float 100%float 150%float 75%float (EntityType_string type) type in
  setEntities (fun prev => <[id := newEntity]> prev).

Definition deleteSelected (st : State) : State -> State :=
  (match whenTruthy (selectedEntityId st) with
   | Some sel =>
     setEntities (fun prev => delete sel prev)
     >>> setRelationships (List.filter (fun rel =>
           negb (String.eqb (r_fromId rel) sel) && negb (String.eqb (r_toId rel) sel)))
     >>> setSelectedEntityId None
   | None => skip
   end)
  >>>
  (match whenTruthy (selectedRelationshipId st) with
   | Some sel =>
     setRelationships (List.filter (fun rel => negb (String.eqb (r_id rel) sel)))
     >>> setSelectedRelationshipId None
   | None => skip
   end).

(** [entityId] is [e.target.id()], [now] the result of [Date.now()]. *)
Definition handleEntityClick (st : State) (entityId : string) (now : N) : State -> State :=
  match (if active (relationshipCreation st)
         then whenTruthy (fromId (relationshipCreation st)) else None) with
  | Some source =>
    if negb (String.eqb source entityId) then
      let newRelationship :=
        mkRelationship ("rel_" ++ numberToString now)%string source entityId ONE ONE in
      setRelationships (fun prev => prev ++ [newRelationship])
      >>> setRelationshipCreation (mkRelationshipCreation false None)
    else
      setSelectedEntityId (Some entityId) >>> setSelectedRelationshipId None
  | None =>
    setSelectedEntityId (Some entityId) >>> setSelectedRelationshipId None
  end.

End PlusPage.

(** What holds of every world the editor can reach: the cursor is inside the
    history, a rename in progress excludes connection mode, and the textarea
    is mounted only during a rename. *)
Definition wellFormed (w : World) : Prop :=
  historyIndex (app w) < length (history (app w))
  /\ (truthy (editingEntityId (app w)) = true -> active (relationshipCreation (app w)) = false)
  /\ (truthy (editingEntityId (app w)) = false -> textarea w = None).

(** Two connections join the same unordered pair of shapes. *)
Definition samePair (r1 r2 : Relationship) : Prop :=
  (r_fromId r1 = r_fromId r2 /\ r_toId r1 = r_toId r2)
  \/ (r_fromId r1 = r_toId r2 /\ r_toId r1 = r_fromId r2).

(** No self-loop, and no two connections on the same unordered pair. *)
Fixpoint distinctPairs (rels : list Relationship) : Prop :=
  match rels with
  | [] => True
  | r :: rs =>
    r_fromId r <> r_toId r
    /\ (forall r', In r' rs -> ~ samePair r r')
    /\ distinctPairs rs
  end.


From Stdlib Require DecimalN DecimalPos.

(** ** Strings and regular expressions of the SQL forms *)

(** A JavaScript string is embedded as the Rocq string of its UTF-8 bytes:
    concatenation, [===], [replace] of an ASCII character and a match against
    an ASCII pattern read the same on both.  The two [String.prototype]
    methods of the SQL forms whose result depends on the Unicode tables are
    parameters of the embedding. *)
Record StringObject := mkStringObject {
  String_trim : string -> string;
  String_toUpperCase : string -> string
}.

(** The two methods on ASCII text, used to evaluate the forms on concrete
    input: white space is TAB, LF, VT, FF, CR and SPACE. *)
Definition isWhiteSpace (c : ascii) : bool :=
  let n := nat_of_ascii c in
  ((9 <=? n)%nat && (n <=? 13)%nat) || (n =? 32)%nat.

Fixpoint trimStart (s : string) : string :=
  match s with
  | EmptyString => EmptyString
  | String c s' => if isWhiteSpace c then trimStart s' else s
  end.

Fixpoint trimEnd (s : string) : string :=
  match s with
  | EmptyString => EmptyString
  | String c s' =>
    match trimEnd s' with
    | EmptyString => if isWhiteSpace c then EmptyString else String c EmptyString
    | t => String c t
    end
  end.

Definition upperAscii (c : ascii) : ascii :=
  let n := nat_of_ascii c in
  if (97 <=? n)%nat && (n <=? 122)%nat then ascii_of_nat (n - 32) else c.

Fixpoint toUpperCase (s : string) : string :=
  match s with
  | EmptyString => EmptyString
  | String c s' => String (upperAscii c) (toUpperCase s')
  end.

Definition asciiStrings : StringObject :=
  mkStringObject (fun s => trimEnd (trimStart s)) toUpperCase.

(** [a-z] *)
Definition isLowerAscii (c : ascii) : bool :=
  let n := nat_of_ascii c in (97 <=? n)%nat && (n <=? 122)%nat.

(** Truthiness of a JavaScript string: only [''] is falsy. *)
Definition nonEmpty (s : string) : bool := negb (String.eqb s "").

(** The line terminator written [\n] in the template literals. *)
Definition LF : string := String "010"%char EmptyString.

(** [s.replace(/'/g, "''")] *)
Fixpoint doubleQuotes (s : string) : string :=
  match s with
  | EmptyString => EmptyString
  | String c s' =>
    if Ascii.eqb c "'"%char then String "'"%char (String "'"%char (doubleQuotes s'))
    else String c (doubleQuotes s')
  end.

(** The body of an SQL string literal reads to its end: every quote in it is
    followed by a second one, which the pair escapes. *)
Fixpoint quotesPaired (s : string) : bool :=
  match s with
  | EmptyString => true
  | String c s' =>
    if Ascii.eqb c "'"%char then
      match s' with
      | String c' s'' => Ascii.eqb c' "'"%char && quotesPaired s''
      | EmptyString => false
      end
    else quotesPaired s'
  end.

(** Regular expressions as far as the forms use them; [Digit] is [\d]. *)
Inductive RegExp :=
| Void
| Eps
| Chr (c : ascii)
| Digit
| Seq (r1 r2 : RegExp)
| Alt (r1 r2 : RegExp)
| Star (r : RegExp).

(** [r?] and [r+] *)
Definition Opt (r : RegExp) : RegExp := Alt r Eps.
Definition Plus (r : RegExp) : RegExp := Seq r (Star r).

Definition isDigit (c : ascii) : bool :=
  let n := nat_of_ascii c in (48 <=? n)%nat && (n <=? 57)%nat.

Fixpoint nullable (r : RegExp) : bool :=
  match r with
  | Void => false
  | Eps => true
  | Chr _ => false
  | Digit => false
  | Seq r1 r2 => nullable r1 && nullable r2
  | Alt r1 r2 => nullable r1 || nullable r2
  | Star _ => true
  end.

(** The expression for what may follow [c]. *)
Fixpoint deriv (r : RegExp) (c : ascii) : RegExp :=
  match r with
  | Void => Void
  | Eps => Void
  | Chr a => if Ascii.eqb a c then Eps else Void
  | Digit => if isDigit c then Eps else Void
  | Seq r1 r2 =>
    Alt (Seq (deriv r1 c) r2) (if nullable r1 then deriv r2 c else Void)
  | Alt r1 r2 => Alt (deriv r1 c) (deriv r2 c)
  | Star r1 => Seq (deriv r1 c) (Star r1)
  end.

(** [/^r$/.test(s)]: the whole of [s] matches [r]. *)
Fixpoint RegExp_test (r : RegExp) (s : string) : bool :=
  match s with
  | EmptyString => nullable r
  | String c s' => RegExp_test (deriv r c) s'
  end.

(** Some atom of [r] accepts [c]. *)
Fixpoint accepts (r : RegExp) (c : ascii) : bool :=
  match r with
  | Void => false
  | Eps => false
  | Chr a => Ascii.eqb a c
  | Digit => isDigit c
  | Seq r1 r2 => accepts r1 c || accepts r2 c
  | Alt r1 r2 => accepts r1 c || accepts r2 c
  | Star r1 => accepts r1 c
  end.

(** No string matches [r], by the shape of [r]. *)
Fixpoint void (r : RegExp) : bool :=
  match r with
  | Void => true
  | Eps => false
  | Chr _ => false
  | Digit => false
  | Seq r1 r2 => void r1 || void r2
  | Alt r1 r2 => void r1 && void r2
  | Star _ => false
  end.

(** [/^-?\d+(\.\d+)?$/] *)
Definition numericPattern : RegExp :=
  Seq (Opt (Chr "-"%char))
    (Seq (Plus Digit) (Opt (Seq (Chr "."%char) (Plus Digit)))).

(** [/^\d+$/] *)
Definition digitsPattern : RegExp := Plus Digit.

(** ** The SQL forms of the history-based editor *)

Module SqlCreateTable.

(** One row of the column table. *)
Record Column := mkColumn {
  c_id : string;
  c_name : string;
  c_dataType : string;
  c_isPk : bool;
  c_allowNull : bool;
  c_defaultValue : string
}.

(** [createTableState] of [App]. *)
Record TableState := mkTableState {
  tableName : string;
  columns : list Column;
  generatedSql : string
}.

(** [uuid] is the result of [crypto.randomUUID()]. *)
Definition newColumn (uuid : string) : Column :=
  mkColumn uuid "" "VARCHAR(255)" false true "".

Definition initialState (uuid : string) : TableState :=
  mkTableState "" [newColumn uuid] "".

Inductive Alert := TableNameRequired | ColumnNamesRequired | PrimaryKeyRequired.

(** The state of the form and the alerts shown so far. *)
Record World := mkWorld {
  tableState : TableState;
  alerts : list Alert
}.

Definition setTableState (f : TableState -> TableState) (w : World) : World :=
  mkWorld (f (tableState w)) (alerts w).
Definition alert (a : Alert) (w : World) : World :=
  mkWorld (tableState w) (alerts w ++ [a]).

(** The [field] and [value] of the five [handleColumnChange] call sites. *)
Inductive FieldValue :=
| name (value : string)
| dataType (value : string)
| isPk (value : bool)
| allowNull (value : bool)
| defaultValue (value : string).

(** [{ ...c, [field]: value }] *)
Definition withField (fv : FieldValue) (c : Column) : Column :=
  match fv with
  | name v => mkColumn (c_id c) v (c_dataType c) (c_isPk c) (c_allowNull c) (c_defaultValue c)
  | dataType v => mkColumn (c_id c) (c_name c) v (c_isPk c) (c_allowNull c) (c_defaultValue c)
  | isPk v => mkColumn (c_id c) (c_name c) (c_dataType c) v (c_allowNull c) (c_defaultValue c)
  | allowNull v => mkColumn (c_id c) (c_name c) (c_dataType c) (c_isPk c) v (c_defaultValue c)
  | defaultValue v => mkColumn (c_id c) (c_name c) (c_dataType c) (c_isPk c) (c_allowNull c) v
  end.

(** [['CURRENT_TIMESTAMP', 'true', 'false', 'null'].includes(v.toUpperCase())] *)
Definition isKeyword (Str : StringObject) (v : string) : bool :=
  existsb (String.eqb (String_toUpperCase Str v)) ["CURRENT_TIMESTAMP"; "true"; "false"; "null"].

Definition isNumeric (v : string) : bool := RegExp_test numericPattern v.

(** The [DEFAULT] clause of one column, [''] when there is none. *)
Definition defaultClause (Str : StringObject) (v : string) : string :=
  if nonEmpty (String_trim Str v) then
    if isNumeric v || isKeyword Str v then (" DEFAULT " ++ v)%string
    else (" DEFAULT '" ++ doubleQuotes v ++ "'")%string
  else "".

(** The [map] callback of [columnDefs]. *)
Definition columnDef (Str : StringObject) (c : Column) : string :=
  ("  `" ++ c_name c ++ "` " ++ c_dataType c
   ++ (if negb (c_allowNull c) then " NOT NULL" else "")
   ++ defaultClause Str (c_defaultValue c))%string.

Definition pkColumns (cols : list Column) : string :=
  String.concat ", " (List.map (fun c => ("`" ++ c_name c ++ "`")%string) (List.filter c_isPk cols)).

Definition columnDefs (Str : StringObject) (cols : list Column) : string :=
  String.concat ("," ++ LF) (List.map (columnDef Str) cols).

(** The statement built by [handleGenerateSql]. *)
Definition createTableSql (Str : StringObject) (tn : string) (cols : list Column) : string :=
  ("CREATE TABLE `" ++ tn ++ "` (" ++ LF ++ columnDefs Str cols ++ "," ++ LF
   ++ "  PRIMARY KEY (" ++ pkColumns cols ++ ")" ++ LF ++ ");")%string.

Section Handlers.
(** The engine's string methods and the state the render destructured. *)
Variable Str : StringObject.
Variable st0 : TableState.

Definition setTableName (v : string) : World -> World :=
  setTableState (fun prev => mkTableState v (columns prev) "").
Definition setColumns (cols : list Column) : World -> World :=
  setTableState (fun prev => mkTableState (tableName prev) cols "").
Definition setGeneratedSql (sql : string) : World -> World :=
  setTableState (fun prev => mkTableState (tableName prev) (columns prev) sql).

Definition handleAddColumn (uuid : string) : World -> World :=
  setColumns (columns st0 ++ [newColumn uuid]).

Definition handleRemoveColumn (id : string) : World -> World :=
  setColumns (List.filter (fun c => negb (String.eqb (c_id c) id)) (columns st0)).

Definition handleColumnChange (id : string) (fv : FieldValue) : World -> World :=
  setColumns (List.map (fun c => if String.eqb (c_id c) id then withField fv c else c)
                (columns st0)).

Definition handleGenerateSql : World -> World :=
  if negb (nonEmpty (String_trim Str (tableName st0))) then alert TableNameRequired
  else if existsb (fun c => negb (nonEmpty (String_trim Str (c_name c)))) (columns st0)
  then alert ColumnNamesRequired
  else if negb (existsb c_isPk (columns st0)) then alert PrimaryKeyRequired
  else setGeneratedSql (createTableSql Str (tableName st0) (columns st0)).
End Handlers.

(** What the user can do with the form. *)
Inductive Event :=
| EvTableName (value : string)
| EvColumnChange (id : string) (fv : FieldValue)
| EvRemoveColumn (id : string)
| EvAddColumn (uuid : string)
| EvGenerateSql.

Definition handle (Str : StringObject) (st0 : TableState) (ev : Event) : World -> World :=
  match ev with
  | EvTableName value => setTableName value
  | EvColumnChange id fv => handleColumnChange st0 id fv
  | EvRemoveColumn id => handleRemoveColumn st0 id
  | EvAddColumn uuid => handleAddColumn st0 uuid
  | EvGenerateSql => handleGenerateSql Str st0
  end.

(** One event: the handler of the current render runs on the state it saw. *)
Definition step (Str : StringObject) (w : World) (ev : Event) : World :=
  handle Str (tableState w) ev w.

Definition run (Str : StringObject) (w : World) (evs : list Event) : World :=
  fold_left (step Str) evs w.

Definition initialWorld (uuid : string) : World := mkWorld (initialState uuid) [].

(** The three checks that [handleGenerateSql] makes before it builds a
    statement. *)
Definition valid (Str : StringObject) (st : TableState) : bool :=
  nonEmpty (String_trim Str (tableName st))
  && forallb (fun c => nonEmpty (String_trim Str (c_name c))) (columns st)
  && existsb c_isPk (columns st).

End SqlCreateTable.

Module SqlAlterTable.

Inductive AlterType := ADD | MODIFY | DROP.

(** [alterTableState] of [App]. *)
Record AlterState := mkAlterState {
  alterType : AlterType;
  tableName : string;
  columnName : string;
  dataType : string;
  generatedSql : string
}.

Definition initialState : AlterState := mkAlterState ADD "" "" "VARCHAR(255)" "".

Inductive Alert := TableNameRequired | ColumnNameRequired.

Record World := mkWorld {
  alterState : AlterState;
  alerts : list Alert
}.

Definition setAlterState (f : AlterState -> AlterState) (w : World) : World :=
  mkWorld (f (alterState w)) (alerts w).
Definition alert (a : Alert) (w : World) : World :=
  mkWorld (alterState w) (alerts w ++ [a]).

(** The [field] and [value] of the [updateState] call sites. *)
Inductive FieldValue :=
| f_alterType (value : AlterType)
| f_tableName (value : string)
| f_columnName (value : string)
| f_dataType (value : string).

(** [prev => ({ ...prev, [field]: value, generatedSql: '' })] *)
Definition updateField (fv : FieldValue) (prev : AlterState) : AlterState :=
  match fv with
  | f_alterType v => mkAlterState v (tableName prev) (columnName prev) (dataType prev) ""
  | f_tableName v => mkAlterState (alterType prev) v (columnName prev) (dataType prev) ""
  | f_columnName v => mkAlterState (alterType prev) (tableName prev) v (dataType prev) ""
  | f_dataType v => mkAlterState (alterType prev) (tableName prev) (columnName prev) v ""
  end.

Definition updateState (fv : FieldValue) : World -> World :=
  setAlterState (updateField fv).

(** The statement built by [handleGenerateSql]. *)
Definition alterTableSql (st : AlterState) : string :=
  let sql := ("ALTER TABLE `" ++ tableName st ++ "`")%string in
  match alterType st with
  | ADD => (sql ++ " ADD COLUMN `" ++ columnName st ++ "` " ++ dataType st ++ ";")%string
  | MODIFY => (sql ++ " MODIFY COLUMN `" ++ columnName st ++ "` " ++ dataType st ++ ";")%string
  | DROP => (sql ++ " DROP COLUMN `" ++ columnName st ++ "`;")%string
  end.

Definition handleGenerateSql (Str : StringObject) (st0 : AlterState) : World -> World :=
  if negb (nonEmpty (String_trim Str (tableName st0))) then alert TableNameRequired
  else if negb (nonEmpty (String_trim Str (columnName st0))) then alert ColumnNameRequired
  else
    let sql := alterTableSql st0 in
    setAlterState (fun prev =>
      mkAlterState (alterType prev) (tableName prev) (columnName prev) (dataType prev) sql).

Inductive Event :=
| EvUpdate (fv : FieldValue)
| EvGenerateSql.

Definition handle (Str : StringObject) (st0 : AlterState) (ev : Event) : World -> World :=
  match ev with
  | EvUpdate fv => updateState fv
  | EvGenerateSql => handleGenerateSql Str st0
  end.

Definition step (Str : StringObject) (w : World) (ev : Event) : World :=
  handle Str (alterState w) ev w.

Definition run (Str : StringObject) (w : World) (evs : list Event) : World :=
  fold_left (step Str) evs w.

Definition initialWorld : World := mkWorld initialState [].

Definition valid (Str : StringObject) (st : AlterState) : bool :=
  nonEmpty (String_trim Str (tableName st)) && nonEmpty (String_trim Str (columnName st)).

End SqlAlterTable.

(** ** The SQL forms of the map-based editor *)

Module CreateTableForm.

(** One column object of the form. *)
Record Column := mkColumn {
  c_name : string;
  c_type : string;
  c_isPk : bool;
  c_isFk : bool;
  c_isNotNull : bool;
  c_isUnique : bool;
  c_defaultValue : string
}.

(** [{ name: '', type: 'INT', isPk: false, ... }] *)
Definition emptyColumn : Column := mkColumn "" "INT" false false false false "".

(** The [field] and [value] of the [updateColumn] call sites of [ColumnRow]. *)
Inductive FieldValue :=
| name (value : string)
| type (value : string)
| isPk (value : bool)
| isFk (value : bool)
| isNotNull (value : bool)
| isUnique (value : bool)
| defaultValue (value : string).

(** [c[field] = value] *)
Definition withField (fv : FieldValue) (c : Column) : Column :=
  match fv with
  | name v => mkColumn v (c_type c) (c_isPk c) (c_isFk c) (c_isNotNull c) (c_isUnique c)
                (c_defaultValue c)
  | type v => mkColumn (c_name c) v (c_isPk c) (c_isFk c) (c_isNotNull c) (c_isUnique c)
                (c_defaultValue c)
  | isPk v => mkColumn (c_name c) (c_type c) v (c_isFk c) (c_isNotNull c) (c_isUnique c)
                (c_defaultValue c)
  | isFk v => mkColumn (c_name c) (c_type c) (c_isPk c) v (c_isNotNull c) (c_isUnique c)
                (c_defaultValue c)
  | isNotNull v => mkColumn (c_name c) (c_type c) (c_isPk c) (c_isFk c) v (c_isUnique c)
                     (c_defaultValue c)
  | isUnique v => mkColumn (c_name c) (c_type c) (c_isPk c) (c_isFk c) (c_isNotNull c) v
                    (c_defaultValue c)
  | defaultValue v => mkColumn (c_name c) (c_type c) (c_isPk c) (c_isFk c) (c_isNotNull c)
                        (c_isUnique c) v
  end.

(** The callback of [columns.map] in [generateSQL]; [None] is [null]. *)
Definition colDef (c : Column) : option string :=
  if negb (nonEmpty (c_name c)) then None
  else Some
    ("  `" ++ c_name c ++ "` " ++ c_type c
     ++ (if c_isNotNull c then " NOT NULL" else "")
     ++ (if c_isUnique c then " UNIQUE" else "")
     ++ (if nonEmpty (c_defaultValue c)
         then " DEFAULT " ++ (if RegExp_test digitsPattern (c_defaultValue c)
                              then c_defaultValue c
                              else "'" ++ c_defaultValue c ++ "'")
         else ""))%string.

(** [.filter(Boolean)]: [null] and [''] are dropped. *)
Fixpoint filterBoolean (l : list (option string)) : list string :=
  match l with
  | [] => []
  | Some s :: l' => if nonEmpty s then s :: filterBoolean l' else filterBoolean l'
  | None :: l' => filterBoolean l'
  end.

(** The statement built by [generateSQL] from the values of the form. *)
Definition createTableSql (tableName : string) (cols : list Column) : string :=
  let sql := ("CREATE TABLE `" ++ (if nonEmpty tableName then tableName else "your_table")
              ++ "` (" ++ LF)%string in
  let colDefs := filterBoolean (List.map colDef cols) in
  let pkCols := List.map (fun c => ("`" ++ c_name c ++ "`")%string) (List.filter c_isPk cols) in
  let colDefs :=
    if (0 <? length pkCols)%nat
    then colDefs ++ [("  PRIMARY KEY (" ++ String.concat ", " pkCols ++ ")")%string]
    else colDefs in
  (sql ++ String.concat ("," ++ LF) colDefs ++ LF ++ ");")%string.

(** The column objects live in a heap: [updateColumn] writes into the
    object that the array of the rendered state and the new array share.
    A reference is an index into [heap]; objects are never freed. *)
Record World := mkWorld {
  heap : list Column;
  tableName : string;
  columns : list nat;
  generatedSql : string
}.

(** The columns of an array as values; [None] when a reference dangles. *)
Fixpoint deref (h : list Column) (refs : list nat) : option (list Column) :=
  match refs with
  | [] => Some []
  | r :: refs' =>
    match h !! r, deref h refs' with
    | Some c, Some cs => Some (c :: cs)
    | _, _ => None
    end
  end.

(** [useState] initial values: one empty column. *)
Definition initialWorld : World := mkWorld [emptyColumn] "" [0] "".

Section Handlers.
(** The state the render saw. *)
Variable w0 : World.

Definition setTableName (v : string) (p : World) : option World :=
  Some (mkWorld (heap p) v (columns p) (generatedSql p)).

Definition setColumns (refs : list nat) (p : World) : World :=
  mkWorld (heap p) (tableName p) refs (generatedSql p).

(** The literal allocates a new object. *)
Definition addColumn (p : World) : option World :=
  let r := length (heap p) in
  Some (setColumns (columns w0 ++ [r])
          (mkWorld (heap p ++ [emptyColumn]) (tableName p) (columns p) (generatedSql p))).

(** [columns.filter((_, i) => i !== index)] *)
Definition removeAt (index : nat) (refs : list nat) : list nat :=
  List.map snd (List.filter (fun ir => negb (fst ir =? index)%nat)
                  (combine (seq 0 (length refs)) refs)).

Definition removeColumn (index : nat) (p : World) : option World :=
  Some (setColumns (removeAt index (columns w0)) p).

(** [newColumns[index][field] = value] throws a [TypeError] when the array
    has no element at [index]; nothing has been written then. *)
Definition updateColumn (index : nat) (fv : FieldValue) (p : World) : option World :=
  let newColumns := columns w0 in
  match newColumns !! index with
  | Some r =>
    match heap p !! r with
    | Some c =>
      Some (setColumns newColumns
              (mkWorld (<[r := withField fv c]> (heap p)) (tableName p) (columns p)
                 (generatedSql p)))
    | None => None
    end
  | None => None
  end.

(** [onGenerate] is the [setGeneratedSql] of [SqlView]. *)
Definition generateSQL (p : World) : option World :=
  match deref (heap p) (columns w0) with
  | Some cols =>
    Some (mkWorld (heap p) (tableName p) (columns p) (createTableSql (tableName w0) cols))
  | None => None
  end.
End Handlers.

Inductive Event :=
| EvTableName (value : string)
| EvUpdateColumn (index : nat) (fv : FieldValue)
| EvRemoveColumn (index : nat)
| EvAddColumn
| EvGenerateSQL.

Definition handle (w0 : World) (ev : Event) : World -> option World :=
  match ev with
  | EvTableName value => setTableName value
  | EvUpdateColumn index fv => updateColumn w0 index fv
  | EvRemoveColumn index => removeColumn w0 index
  | EvAddColumn => addColumn w0
  | EvGenerateSQL => generateSQL w0
  end.

(** One event; a handler that throws leaves the form as it was. *)
Definition step (w : World) (ev : Event) : World :=
  match handle w ev w with
  | Some w' => w'
  | None => w
  end.

Definition run (w : World) (evs : list Event) : World := fold_left step evs w.

(** Every reference of the array points into the heap, and no two slots of
    the array share an object. *)
Definition wellFormed (w : World) : Prop :=
  NoDup (columns w) /\ Forall (fun r => r < length (heap w)) (columns w).

End CreateTableForm.

(** ** What a drag move may change on the stage *)

(** Two states of a relationship group with the same children. *)
Definition sameChildren (lg lg' : LineGroup) : Prop :=
  (is_Some (lg_line lg') <-> is_Some (lg_line lg))
  /\ (is_Some (lg_start lg') <-> is_Some (lg_start lg))
  /\ (is_Some (lg_end lg') <-> is_Some (lg_end lg)).

(** Two stages with the same nodes, each with the same children. *)
Definition sameNodes (sc sc' : gmap string LineGroup) : Prop :=
  forall k, match sc !! k, sc' !! k with
            | Some lg, Some lg' => sameChildren lg lg'
            | None, None => True
            | _, _ => False
            end.


(** ** Identifiers drawn during a run of the history-based editor *)

(** The results of [crypto.randomUUID()] that the events of a run hand to
    [handleAddEntity] and to [handleEntityClick]. *)
Definition entityUuids (evs : list Event) : list string :=
  flat_map (fun ev => match ev with EvAddEntity _ newId _ => [newId] | _ => [] end) evs.
Definition relationshipUuids (evs : list Event) : list string :=
  flat_map (fun ev => match ev with EvEntityClick _ newId => [newId] | _ => [] end) evs.

(** The ids of the shapes and of the connections of a snapshot are pairwise
    distinct and come from [eids] and [rids]. *)
Definition uniqueIds (eids rids : list string) (s : Snapshot) : Prop :=
  List.NoDup (List.map e_id (entities s))
  /\ incl (List.map e_id (entities s)) eids
  /\ List.NoDup (List.map r_id (relationships s))
  /\ incl (List.map r_id (relationships s)) rids.

(** ** The map-based editor: selection and connection mode *)

Module PlusPageApp.

Inductive Alert := SelectAnEntityFirst | ExportBeingRebuilt.

(** The React state of [App] and the alerts shown so far. *)
Record World := mkWorld {
  state : PlusPage.State;
  alerts : list Alert
}.

Definition onState (f : PlusPage.State -> PlusPage.State) (w : World) : World :=
  mkWorld (f (state w)) (alerts w).
Definition alert (a : Alert) (w : World) : World :=
  mkWorld (state w) (alerts w ++ [a]).

Definition setEditingEntityId (v : option string) (p : PlusPage.State) : PlusPage.State :=
  PlusPage.mkState (PlusPage.entities p) (PlusPage.relationships p)
    (PlusPage.selectedEntityId p) (PlusPage.selectedRelationshipId p)
    (PlusPage.relationshipCreation p) v.

Definition handleRelationshipClick (id : string) : World -> World :=
  onState (PlusPage.setSelectedRelationshipId (Some id))
  >>> onState (PlusPage.setSelectedEntityId None).

(** [targetIsStage] is [e.target === stageRef.current]; [seen] is the state
    of the render that created the handler. *)
Definition handleStageClick (seen : PlusPage.State) (targetIsStage : bool) : World -> World :=
  if targetIsStage then
    onState (PlusPage.setSelectedEntityId None)
    >>> onState (PlusPage.setSelectedRelationshipId None)
    >>> onState (setEditingEntityId None)
    >>> (if active (PlusPage.relationshipCreation seen)
         then onState (PlusPage.setRelationshipCreation (mkRelationshipCreation false None))
         else skip)
  else skip.

(** [id] is [e.target.id()]. *)
Definition handleEntityDblClick (id : string) : World -> World :=
  onState (setEditingEntityId (Some id)).

Definition toggleRelationshipCreation (seen : PlusPage.State) : World -> World :=
  if negb (truthy (PlusPage.selectedEntityId seen))
     && negb (active (PlusPage.relationshipCreation seen))
  then alert SelectAnEntityFirst
  else
    onState (fun prev =>
      PlusPage.setRelationshipCreation
        (mkRelationshipCreation
           (negb (active (PlusPage.relationshipCreation prev)))
           (if negb (active (PlusPage.relationshipCreation prev))
            then PlusPage.selectedEntityId seen else None))
        prev).

Definition exportToPNG : World -> World := alert ExportBeingRebuilt.

(** The window-level [keydown] listener; [tagName] is
    [document.activeElement.tagName]. *)
Definition handleKeyDown (seen : PlusPage.State) (key tagName : string) : World -> World :=
  let onEscape :=
    if String.eqb key "Escape" then
      onState (PlusPage.setRelationshipCreation (mkRelationshipCreation false None))
      >>> onState (PlusPage.setSelectedEntityId None)
      >>> onState (PlusPage.setSelectedRelationshipId None)
    else skip in
  if String.eqb key "Delete" || String.eqb key "Backspace" then
    if String.eqb tagName "INPUT" || String.eqb tagName "TEXTAREA" then skip
    else onState (PlusPage.deleteSelected seen) >>> onEscape
  else onEscape.

(** The events that write the selection or the connection mode.
    [EntityComponent] is memoized by [areEntitiesEqual], which does not
    compare the handlers, so a shape may still hold the [handleEntityClick]
    of an earlier render: the click carries the state [seen] that its
    closure saw, which may be any state.  The other handlers are those of
    the current render. *)
Inductive Event :=
| EvEntityClick (seen : PlusPage.State) (entityId : string) (now : N)
| EvRelationshipClick (id : string)
| EvStageClick (targetIsStage : bool)
| EvEntityDblClick (id : string)
| EvToggleRelationshipCreation
| EvKeyDown (key tagName : string)
| EvAddEntity (type : EntityType) (now : N)
| EvDeleteButton
| EvExportToPNG.

Definition handle (w0 : World) (ev : Event) : World -> World :=
  match ev with
  | EvEntityClick seen entityId now => onState (PlusPage.handleEntityClick seen entityId now)
  | EvRelationshipClick id => handleRelationshipClick id
  | EvStageClick targetIsStage => handleStageClick (state w0) targetIsStage
  | EvEntityDblClick id => handleEntityDblClick id
  | EvToggleRelationshipCreation => toggleRelationshipCreation (state w0)
  | EvKeyDown key tagName => handleKeyDown (state w0) key tagName
  | EvAddEntity type now => onState (PlusPage.addEntity type now)
  | EvDeleteButton => onState (PlusPage.deleteSelected (state w0))
  | EvExportToPNG => exportToPNG
  end.

Definition step (w : World) (ev : Event) : World := handle w ev w.

Definition run (w : World) (evs : list Event) : World := fold_left step evs w.

Definition initialWorld : World := mkWorld PlusPage.initialState [].

End PlusPageApp.

(** ** The memoized [EntityShape] of the map-based editor *)

Module EntityShapeMemo.

(** [ENTITY_STYLES[type]] *)
Record Style := mkStyle { s_fill : string; s_stroke : string; s_textColor : string }.

Definition ENTITY_STYLES (t : EntityType) : Style :=
  match t with
  | EntityT => mkStyle "#1abc9c" "#16a085" "#ffffff"
  | ActionT => mkStyle "#3498db" "#2980b9" "#ffffff"
  | AttributeT => mkStyle "#e74c3c" "#c0392b" "#ffffff"
  end.

Record CommonProps := mkCommonProps {
  fill : string;
  stroke : string;
  strokeWidth : float;
  shadowColor : string;
  shadowBlur : float;
  shadowOpacity : float;
  shadowOffsetX : float;
  shadowOffsetY : float
}.

(** The element that [EntityShape] returns. *)
Inductive Element :=
| Rect (common : CommonProps) (width height cornerRadius : float)
| Line (common : CommonProps) (points : list float) (closed : bool)
| Ellipse (common : CommonProps) (x y radiusX radiusY : float).

(** The props of the component. *)
Record Props := mkProps { entity : Entity; isSelected : bool }.

(** [shadowOpacity: 0.2] is the binary64 value [0x1.999999999999ap-3]. *)
Definition EntityShape (p : Props) : Element :=
  let entity := entity p in
  let styles := ENTITY_STYLES (e_type entity) in
  let commonProps :=
    mkCommonProps (s_fill styles)
      (if isSelected p then "#007bff" else s_stroke styles)
      (if isSelected p then 3%float else 2%float)
      "#000000" 5%float 0x1.999999999999ap-3%float 2%float 2%float in
  match e_type entity with
  | EntityT => Rect commonProps (e_width entity) (e_height entity) 8%float
  | ActionT =>
    Line commonProps
      [(e_width entity / 2)%float; 0%float; e_width entity; (e_height entity / 2)%float;
       (e_width entity / 2)%float; e_height entity; 0%float; (e_height entity / 2)%float]
      true
  | AttributeT =>
    Ellipse commonProps (e_width entity / 2)%float (e_height entity / 2)%float
      (e_width entity / 2)%float (e_height entity / 2)%float
  end.

(** The comparison given to [React.memo]; [===] on numbers is [=?]. *)
Definition areEntityShapesEqual (prevProps nextProps : Props) : bool :=
  Bool.eqb (isSelected prevProps) (isSelected nextProps)
  && EntityType_eqb (e_type (entity prevProps)) (e_type (entity nextProps))
  && (e_width (entity prevProps) =? e_width (entity nextProps))%float
  && (e_height (entity prevProps) =? e_height (entity nextProps))%float.

(** Two elements are the same drawing: the same kind of node, the same
    strings and flags, and numbers that are identical or [===] (which
    identifies the two zeros). *)
Definition sameNumbers (l l' : list float) : Prop :=
  Forall2 (fun a b => a = b \/ (a =? b)%float = true) l l'.

Definition sameCommon (c c' : CommonProps) : Prop :=
  fill c = fill c' /\ stroke c = stroke c' /\ shadowColor c = shadowColor c'
  /\ sameNumbers
       [strokeWidth c; shadowBlur c; shadowOpacity c; shadowOffsetX c; shadowOffsetY c]
       [strokeWidth c'; shadowBlur c'; shadowOpacity c'; shadowOffsetX c'; shadowOffsetY c'].

Definition sameElement (a b : Element) : Prop :=
  match a, b with
  | Rect c w h r, Rect c' w' h' r' => sameCommon c c' /\ sameNumbers [w; h; r] [w'; h'; r']
  | Line c ps cl, Line c' ps' cl' => sameCommon c c' /\ sameNumbers ps ps' /\ cl = cl'
  | Ellipse c x y rx ry, Ellipse c' x' y' rx' ry' =>
    sameCommon c c' /\ sameNumbers [x; y; rx; ry] [x'; y'; rx'; ry']
  | _, _ => False
  end.

End EntityShapeMemo.

(** ** The script that copies static files to [dist] *)

Module CopyScript.

(** The file system as the script sees it, a map from paths to what they
    name. *)
Inductive Node := File (content : string) | Directory.

(** [path.join(dir, name)] for a directory path without trailing separator
    and a plain name. *)
Definition join (dir name : string) : string := (dir ++ "/" ++ name)%string.

Definition filesToCopy : list string :=
  ["robots.txt"; "ads.txt"; "googleef03e757e46e8c03.html"; "erd_icon.png"].

(** A line written with [console.log] or [console.warn]. *)
Inductive Output := Log (line : string) | Warn (line : string).

Definition existsSync (fs : gmap string Node) (p : string) : bool :=
  match fs !! p with Some _ => true | None => false end.

(** [fs.mkdirSync(join(parent, name))]: [None] when it throws, because the
    parent is not a directory or the path exists. *)
Definition mkdirSync (parent name : string) (fs : gmap string Node)
    : option (gmap string Node) :=
  match fs !! parent, fs !! join parent name with
  | Some Directory, None => Some (<[join parent name := Directory]> fs)
  | _, _ => None
  end.

(** [fs.copyFileSync(join(srcDir, name), join(destDir, name))]: [None] when
    it throws, because the source is not a regular file, the destination
    directory is not a directory, or the destination is a directory.  An
    existing destination file is overwritten. *)
Definition copyFileSync (srcDir destDir name : string) (fs : gmap string Node)
    : option (gmap string Node) :=
  match fs !! join srcDir name, fs !! destDir, fs !! join destDir name with
  | Some (File c), Some Directory, (None | Some (File _)) =>
    Some (<[join destDir name := File c]> fs)
  | _, _, _ => None
  end.

(** The state of a run: the file system, the console, and whether an
    exception has ended the script. *)
Record Run := mkRun {
  fs : gmap string Node;
  console : list Output;
  threw : bool
}.

(** The callback of [filesToCopy.forEach]. *)
Definition copyOne (dirname distDir : string) (r : Run) (file : string) : Run :=
  if threw r then r
  else
    if existsSync (fs r) (join dirname file) then
      match copyFileSync dirname distDir file (fs r) with
      | Some fs' =>
        mkRun fs' (console r ++ [Log ("Copied " ++ file ++ " to dist/")%string]) false
      | None => mkRun (fs r) (console r) true
      end
    else
      mkRun (fs r)
        (console r ++ [Warn ("Warning: Source file not found - " ++ join dirname file)%string])
        false.

(** The whole script, run in [dirname] on the file system [fs0]. *)
Definition main (dirname : string) (fs0 : gmap string Node) : Run :=
  let distDir := join dirname "dist" in
  let r :=
    if negb (existsSync fs0 distDir) then
      match mkdirSync dirname "dist" fs0 with
      | Some fs' => mkRun fs' [] false
      | None => mkRun fs0 [] true
      end
    else mkRun fs0 [] false in
  fold_left (copyOne dirname distDir) filesToCopy r.

(** What the console shows for one file on the initial file system. *)
Definition report (dirname : string) (fs0 : gmap string Node) (file : string) : Output :=
  if existsSync fs0 (join dirname file)
  then Log ("Copied " ++ file ++ " to dist/")%string
  else Warn ("Warning: Source file not found - " ++ join dirname file)%string.

End CopyScript.

(** ** The keydown listener of the history-based editor and the mode *)

(** [mode], the tab of [App]: the canvas or the SQL forms. *)
Inductive Mode := ERD | SQL.

(** The listener that the effect of [App] registers on [window]: all of its
    body sits under [if (mode === 'ERD')]. *)
Definition windowKeyDown (mode : Mode) (w0 : World) (cur : Snapshot)
    (ctrlKey metaKey shiftKey : bool) (key : string) : World -> World :=
  match mode with
  | ERD => handleKeyDown w0 cur ctrlKey metaKey shiftKey key
  | SQL => skip
  end.

(** ** A [Math] object to evaluate the routing with

    ECMAScript fixes [atan2(+0, x)] to [+0] for [x > 0] and to an
    approximation of pi for [x < 0], [cos(+0)] to [1] and [sin(+0)] to [+0];
    at [Math.PI] an engine that rounds correctly returns [-1] for the cosine
    and [0x1.1a62633145c07p-53] (1.2246467991473532e-16) for the sine.
    [approxMath] has these values at these arguments.  Elsewhere it uses
    short polynomial approximations, which stand for the engine's functions
    where a concrete shape is routed. *)

(** An approximation of the arc tangent on [-1, 1]. *)
Definition approxAtan (z : float) : float := (z / (1 + 0.28125 * z * z))%float.

Definition approxAtan2 (y x : float) : float :=
  if (y =? 0)%float then
    if (x <? 0)%float
    then (if (1 / y <? 0)%float then - Math_PI else Math_PI)%float
    else y
  else if (abs y <=? abs x)%float then
    if (0 <? x)%float then approxAtan (y / x)
    else if (0 <? y)%float then (approxAtan (y / x) + Math_PI)%float
         else (approxAtan (y / x) - Math_PI)%float
  else
    ((if (0 <? y)%float then Math_PI / 2 else - (Math_PI / 2)) - approxAtan (x / y))%float.

(** The cosine series up to the power 12. *)
Definition approxCos (a : float) : float :=
  if (a =? 0)%float then 1%float
  else if (abs a =? Math_PI)%float then (-1)%float
  else
    let s := (a * a)%float in
    (1 - s / 2 * (1 - s / 12 * (1 - s / 30 * (1 - s / 56 * (1 - s / 90 * (1 - s / 132))))))%float.

(** The sine series up to the power 13. *)
Definition approxSin (a : float) : float :=
  if (a =? 0)%float then a
  else if (a =? Math_PI)%float then 0x1.1a62633145c07p-53%float
  else if (a =? - Math_PI)%float then (- 0x1.1a62633145c07p-53)%float
  else
    let s := (a * a)%float in
    (a * (1 - s / 6 * (1 - s / 20 * (1 - s / 42 * (1 - s / 72 * (1 - s / 110 * (1 - s / 156)))))))%float.

Definition approxMath : MathObject := mkMath hypot_ieee approxAtan2 approxCos approxSin.

(** ** What the pointer delivers to the map-based editor *)

Module PlusPagePointer.

(** [handleEntityClick] and [handleEntityDblClick] of [plus_page.tsx] read
    [e.target.id()].  They are the [onClick], [onTap], [onDblClick] and
    [onDblTap] of the [Group] of [EntityComponent], the node that carries
    [id={entity.id}].  [e.target] of a Konva pointer event is the shape that
    was hit, here a child of that group: the [Rect], [Line] or [Ellipse] of
    [EntityShape], which is given no [id] (the [Text] above it has
    [listening={false}] and is never hit).  [id()] of a node without an id
    is the empty string.  The history-based editor reads
    [e.currentTarget.id()] instead, the id of the group. *)
Definition hitShapeId : string := "".

(** [onSelect] of the cardinality menu, the third place that writes the
    connections:
    [prev.map(r => r.id === relId ? { ...r, [key]: cardinality } : r)]. *)
Definition setCardinality (relId : string) (atStart : bool) (cardinality : Cardinality)
    (r : Relationship) : Relationship :=
  if String.eqb (r_id r) relId then
    if atStart
    then mkRelationship (r_id r) (r_fromId r) (r_toId r) cardinality (r_endCardinality r)
    else mkRelationship (r_id r) (r_fromId r) (r_toId r) (r_startCardinality r) cardinality
  else r.

(** The events of [PlusPageApp] and the choice in the cardinality menu.  The
    handlers left out write neither the connections nor the selection nor
    the connection mode: [handleDragEnd] and [handleTextareaBlur] write
    [entities] and [editingEntityId], the others state of their own (the
    open menu, the visibility of the markers, the view mode, the size of
    the stage). *)
Inductive Input :=
| FromApp (ev : PlusPageApp.Event)
| CardinalitySelect (relId : string) (atStart : bool) (cardinality : Cardinality).

Definition step (w : PlusPageApp.World) (i : Input) : PlusPageApp.World :=
  match i with
  | FromApp ev => PlusPageApp.step w ev
  | CardinalitySelect relId atStart cardinality =>
    PlusPageApp.onState
      (PlusPage.setRelationships (List.map (setCardinality relId atStart cardinality))) w
  end.

Definition run (w : PlusPageApp.World) (inputs : list Input) : PlusPageApp.World :=
  fold_left step inputs w.

(** An input that the pointer or the keyboard can deliver after the renders
    [renders] (their states, the latest first): a click or a double click on
    a shape carries [hitShapeId], and the [handleEntityClick] that a click
    runs was created by one of the renders so far ([EntityComponent] is
    memoized without regard to its handlers). *)
Definition deliverable (renders : list PlusPage.State) (i : Input) : Prop :=
  match i with
  | FromApp (PlusPageApp.EvEntityClick seen entityId _) =>
    In seen renders /\ entityId = hitShapeId
  | FromApp (PlusPageApp.EvEntityDblClick id) => id = hitShapeId
  | _ => True
  end.

(** Every input of the sequence is deliverable when it arrives. *)
Fixpoint deliverableRun (renders : list PlusPage.State) (w : PlusPageApp.World)
    (inputs : list Input) : Prop :=
  match inputs with
  | [] => True
  | i :: rest =>
    deliverable (PlusPageApp.state w :: renders) i
    /\ deliverableRun (PlusPageApp.state w :: renders) (step w i) rest
  end.

(** No connection, connection mode off and no shape selected. *)
Definition noConnection (s : PlusPage.State) : Prop :=
  PlusPage.relationships s = []
  /\ active (PlusPage.relationshipCreation s) = false
  /\ truthy (PlusPage.selectedEntityId s) = false.

End PlusPagePointer.
(** ** History: facts about [updateState], [handleUndo], [handleRedo] *)

Lemma currentSnapshot_lt (st : AppState) (cur : Snapshot) :
  currentSnapshot st = Some cur -> historyIndex st < length (history st).
Proof.
  unfold currentSnapshot. intros H.
  apply nth_error_Some. congruence.
Qed.

Lemma firstn_succ_length (A : Type) (l : list A) (i : nat) :
  i < length l -> length (firstn (i + 1) l) = i + 1.
Proof. intros H. rewrite length_firstn. lia. Qed.

Lemma nth_error_firstn_lt (A : Type) (l : list A) (i n : nat) :
  i < n -> nth_error (firstn n l) i = nth_error l i.
Proof.
  revert i n. induction l as [|a l IH]; intros i n H.
  - destruct n; destruct i; reflexivity.
  - destruct n as [|n]; [lia|]. destruct i as [|i]; simpl; [reflexivity|].
    apply IH. lia.
Qed.

Lemma updateState_history (st : AppState) (cur : Snapshot) eu ru (p : AppState) :
  history (updateState st cur eu ru p)
  = firstn (historyIndex st + 1) (history st)
      ++ [ mkSnapshot (applyUpdater eu (entities cur)) (applyUpdater ru (relationships cur)) ].
Proof. reflexivity. Qed.

Lemma updateState_historyIndex (st : AppState) (cur : Snapshot) eu ru (p : AppState) :
  currentSnapshot st = Some cur ->
  historyIndex (updateState st cur eu ru p) = historyIndex st + 1.
Proof.
  intros H. apply currentSnapshot_lt in H.
  unfold updateState. simpl. apply firstn_succ_length. exact H.
Qed.

Lemma updateState_current (st : AppState) (cur : Snapshot) eu ru (p : AppState) :
  currentSnapshot st = Some cur ->
  currentSnapshot (updateState st cur eu ru p)
  = Some (mkSnapshot (applyUpdater eu (entities cur)) (applyUpdater ru (relationships cur))).
Proof.
  intros H. unfold currentSnapshot.
  rewrite updateState_historyIndex by exact H.
  rewrite updateState_history.
  apply currentSnapshot_lt in H.
  rewrite nth_error_app2; rewrite firstn_succ_length by exact H; [|lia].
  replace (historyIndex st + 1 - (historyIndex st + 1)) with 0 by lia.
  reflexivity.
Qed.

Lemma updateState_previous (st : AppState) (cur : Snapshot) eu ru (p : AppState) :
  currentSnapshot st = Some cur ->
  nth_error (history (updateState st cur eu ru p)) (historyIndex st) = Some cur.
Proof.
  intros H. rewrite updateState_history.
  pose proof (currentSnapshot_lt _ _ H) as Hlt.
  rewrite nth_error_app1 by (rewrite firstn_succ_length by exact Hlt; lia).
  rewrite nth_error_firstn_lt by lia. exact H.
Qed.

Lemma handleUndo_history (st p : AppState) : history (handleUndo st p) = history p.
Proof. unfold handleUndo. destruct (0 <? historyIndex st)%nat; reflexivity. Qed.

Lemma handleRedo_history (st p : AppState) : history (handleRedo st p) = history p.
Proof.
  unfold handleRedo.
  destruct (historyIndex st <? length (history st) - 1)%nat; reflexivity.
Qed.

Lemma handleUndo_pos (s : AppState) :
  0 < historyIndex s -> handleUndo s s = setHistoryIndex (historyIndex s - 1) s.
Proof.
  intros H. unfold handleUndo.
  replace (0 <? historyIndex s)%nat with true by (symmetry; apply Nat.ltb_lt; exact H).
  reflexivity.
Qed.

Lemma handleRedo_lt (s : AppState) :
  historyIndex s < length (history s) - 1 ->
  handleRedo s s = setHistoryIndex (historyIndex s + 1) s.
Proof.
  intros H. unfold handleRedo.
  replace (historyIndex s <? length (history s) - 1)%nat with true
    by (symmetry; apply Nat.ltb_lt; exact H).
  reflexivity.
Qed.

Lemma updateState_committed (st : AppState) (cur : Snapshot) eu ru (p : AppState) :
  currentSnapshot st = Some cur ->
  committed st
    (mkSnapshot (applyUpdater eu (entities cur)) (applyUpdater ru (relationships cur)))
    (updateState st cur eu ru p).
Proof.
  intros H. split; [reflexivity|]. split.
  - apply updateState_historyIndex. exact H.
  - apply updateState_current. exact H.
Qed.

(** C3. After any committed mutation ([updateState] with arbitrary updaters,
    from any state whose cursor is valid) the history is the old history cut
    after the cursor plus the new snapshot, and the cursor points at it; undo
    right after the commit shows the exact prior snapshot; redo right after
    that undo shows the mutated snapshot again.  Undo at cursor 0 and redo at
    the last index change nothing, and neither ever changes the stored
    snapshots. *)
Theorem undo_redo_after_commit (st : AppState) (cur : Snapshot)
    (eu : Updater (list Entity)) (ru : Updater (list Relationship)) :
  currentSnapshot st = Some cur ->
  let mutated :=
    mkSnapshot (applyUpdater eu (entities cur)) (applyUpdater ru (relationships cur)) in
  let committed := updateState st cur eu ru st in
  let undone := handleUndo committed committed in
  let redone := handleRedo undone undone in
  (history committed = firstn (historyIndex st + 1) (history st) ++ [mutated]
   /\ historyIndex committed = historyIndex st + 1
   /\ currentSnapshot committed = Some mutated)
  /\ (currentSnapshot undone = Some cur /\ historyIndex undone = historyIndex st)
  /\ (currentSnapshot redone = Some mutated /\ historyIndex redone = historyIndex st + 1)
  /\ (forall s : AppState, historyIndex s = 0 -> handleUndo s s = s)
  /\ (forall s : AppState, historyIndex s = length (history s) - 1 -> handleRedo s s = s)
  /\ (forall s p : AppState,
        history (handleUndo s p) = history p /\ history (handleRedo s p) = history p).
Proof.
  intros Hcur mutated committed undone redone.
  pose proof (currentSnapshot_lt _ _ Hcur) as Hlt.
  assert (Hidx : historyIndex committed = historyIndex st + 1)
    by (apply updateState_historyIndex; exact Hcur).
  assert (Hhist : history committed
                  = firstn (historyIndex st + 1) (history st) ++ [mutated])
    by reflexivity.
  assert (Hlen : length (history committed) = historyIndex st + 2).
  { rewrite Hhist, length_app, firstn_succ_length by exact Hlt. simpl. lia. }
  assert (Hnew : currentSnapshot committed = Some mutated)
    by (apply updateState_current; exact Hcur).
  assert (Hold : nth_error (history committed) (historyIndex st) = Some cur)
    by (apply updateState_previous; exact Hcur).
  clearbody committed.
  assert (Hundone : undone = setHistoryIndex (historyIndex st) committed).
  { unfold undone. rewrite handleUndo_pos by lia. f_equal. lia. }
  assert (Hredone : redone = setHistoryIndex (historyIndex st + 1) committed).
  { unfold redone. rewrite Hundone. rewrite handleRedo_lt.
    - reflexivity.
    - change (historyIndex st < length (history committed) - 1). lia. }
  clearbody undone redone. subst undone redone.
  repeat split; try assumption.
  - rewrite <- Hidx. exact Hnew.
  - intros s Hs. unfold handleUndo. rewrite Hs. destruct s; reflexivity.
  - intros s Hs. unfold handleRedo. rewrite Hs, Nat.ltb_irrefl. reflexivity.
  - apply handleUndo_history.
  - apply handleRedo_history.
Qed.

Lemma undo_redo_after_commit_witness :
  currentSnapshot initialState = Some (mkSnapshot [] [])
  /\ currentSnapshot
       (let committed :=
          updateState initialState (mkSnapshot [] [])
            (Fn (fun prev => prev ++ [mkEntity "a" 50 50 150 75 "Entity 1" EntityT]))
            (Val []) initialState in
        handleUndo committed committed)
     = Some (mkSnapshot [] []).
Proof.
  split; [reflexivity|].
  apply (undo_redo_after_commit initialState (mkSnapshot [] [])
           (Fn (fun prev => prev ++ [mkEntity "a" 50 50 150 75 "Entity 1" EntityT]))
           (Val [])).
  reflexivity.
Defined.

(** ** Deleting a shape *)

Lemma whenTruthy_Some (o : option string) (s : string) :
  whenTruthy o = Some s -> o = Some s /\ s <> ""%string.
Proof.
  destruct o as [t|]; simpl; [|discriminate].
  destruct (String.eqb_spec t ""); [discriminate|].
  intros H. injection H as ->. split; [reflexivity | assumption].
Qed.

Lemma whenTruthy_truthy (o : option string) (s : string) :
  whenTruthy o = Some s -> truthy o = true.
Proof.
  destruct o as [t|]; simpl; [|discriminate].
  destruct (String.eqb t ""); [discriminate | reflexivity].
Qed.

Lemma eqb_false_neq (a b : string) : negb (String.eqb a b) = true <-> a <> b.
Proof.
  destruct (String.eqb_spec a b); simpl; split; intros; congruence.
Qed.

(** C2. Deleting the selected shape [sel] appends exactly one snapshot; in it
    the shape list is the old one without the shapes whose id is [sel] and
    the connection list is the old one without the connections whose
    [fromId] or [toId] is [sel], so no remaining connection references
    [sel].  In the map-based editor [deleteSelected], made by a render [st]
    in which [sel] is selected, removes the key [sel] and, in the same
    handler run, exactly the connections with [sel] at an end (together with
    the connection selected in [st], when there is one); every other shape
    and connection stays. *)
Theorem deleteSelected_cascades (w : World) (cur : Snapshot) (st ps : PlusPage.State)
    (sel : string) :
  currentSnapshot (app w) = Some cur ->
  whenTruthy (selectedEntityId (app w)) = Some sel ->
  whenTruthy (PlusPage.selectedEntityId st) = Some sel ->
  let w' := handleDeleteSelected w cur w in
  let snap' :=
    mkSnapshot
      (List.filter (fun e => negb (String.eqb (e_id e) sel)) (entities cur))
      (List.filter (fun r => negb (String.eqb (r_fromId r) sel)
                             && negb (String.eqb (r_toId r) sel)) (relationships cur)) in
  let ps' := PlusPage.deleteSelected st ps in
  (committed (app w) snap' (app w')
   /\ (forall e, In e (entities snap') <-> In e (entities cur) /\ e_id e <> sel)
   /\ (forall r, In r (relationships snap')
                 <-> In r (relationships cur) /\ r_fromId r <> sel /\ r_toId r <> sel))
  /\ (PlusPage.entities ps' = delete sel (PlusPage.entities ps)
      /\ PlusPage.entities ps' !! sel = None
      /\ (forall k, k <> sel -> PlusPage.entities ps' !! k = PlusPage.entities ps !! k)
      /\ (forall r, In r (PlusPage.relationships ps')
                    <-> In r (PlusPage.relationships ps)
                        /\ r_fromId r <> sel /\ r_toId r <> sel
                        /\ whenTruthy (PlusPage.selectedRelationshipId st) <> Some (r_id r))).
Proof.
  intros Hcur Hsel Hpsel w' snap' ps'. split; [split; [|split]|].
  - unfold w', handleDeleteSelected. rewrite Hsel.
    exact (updateState_committed (app w) cur
             (Fn (List.filter (fun e => negb (String.eqb (e_id e) sel))))
             (Fn (List.filter (fun r => negb (String.eqb (r_fromId r) sel)
                                        && negb (String.eqb (r_toId r) sel))))
             (app w) Hcur).
  - intros e. simpl. rewrite filter_In, eqb_false_neq. reflexivity.
  - intros r. simpl. rewrite filter_In, andb_true_iff, !eqb_false_neq. reflexivity.
  - assert (Hkeep : forall (rs : list Relationship) r,
              In r (List.filter (fun rel => negb (String.eqb (r_fromId rel) sel)
                                            && negb (String.eqb (r_toId rel) sel)) rs)
              <-> In r rs /\ r_fromId r <> sel /\ r_toId r <> sel).
    { intros rs r. rewrite filter_In, andb_true_iff, !eqb_false_neq. tauto. }
    unfold ps', PlusPage.deleteSelected. rewrite Hpsel.
    destruct (whenTruthy (PlusPage.selectedRelationshipId st)) as [rsel|]; simpl;
      (split; [reflexivity|]);
      (split; [apply lookup_delete_eq|]);
      (split; [intros k Hk; apply lookup_delete_ne; congruence|]);
      intros r.
    + rewrite filter_In, Hkeep, eqb_false_neq.
      split.
      * intros [(Hin & Hf & Ht) Hid]. repeat split; try assumption.
        intros E. injection E as E. apply Hid. symmetry. exact E.
      * intros (Hin & Hf & Ht & Hid). repeat split; try assumption.
        intros E. apply Hid. rewrite E. reflexivity.
    + rewrite Hkeep. split.
      * intros (Hin & Hf & Ht). repeat split; try assumption. discriminate.
      * intros (Hin & Hf & Ht & _). repeat split; assumption.
Qed.

Lemma deleteSelected_cascades_witness :
  let A := mkEntity "A" 50 50 150 75 "Entity 1" EntityT in
  let B := mkEntity "B" 50 50 150 75 "Entity 2" EntityT in
  let C := mkEntity "C" 100 100 150 75 "Entity" EntityT in
  let r := mkRelationship "r" "A" "B" ONE_AND_ONLY_ONE ONE_AND_ONLY_ONE in
  let ab := mkRelationship "rel_1" "A" "B" ONE ONE in
  let bc := mkRelationship "rel_2" "B" "C" ONE MANY in
  let ca := mkRelationship "rel_3" "C" "A" ONE ONE in
  let evs := [EvAddEntity EntityT "A" None; EvAddEntity EntityT "B" None;
              EvRelationshipButton; EvEntityClick "A" "u1"; EvEntityClick "B" "r";
              EvEntityClick "A" "u2"] in
  let st := PlusPage.mkState {[ "A" := A; "B" := B; "C" := C ]} [ab; bc; ca]
              (Some "A") None (mkRelationshipCreation false None) None in
  exists w,
    run approxMath initialWorld evs = Some w
    /\ currentSnapshot (app w) = Some (mkSnapshot [A; B] [r])
    /\ whenTruthy (selectedEntityId (app w)) = Some "A"
    /\ whenTruthy (PlusPage.selectedEntityId st) = Some "A"
    /\ currentSnapshot (app (handleDeleteSelected w (mkSnapshot [A; B] [r]) w))
       = Some (mkSnapshot [B] [])
    /\ PlusPage.entities (PlusPage.deleteSelected st st) !! "A" = None
    /\ PlusPage.entities (PlusPage.deleteSelected st st) !! "B" = Some B
    /\ In bc (PlusPage.relationships (PlusPage.deleteSelected st st))
    /\ ~ In ab (PlusPage.relationships (PlusPage.deleteSelected st st))
    /\ ~ In ca (PlusPage.relationships (PlusPage.deleteSelected st st)).
Proof.
  intros A B C r ab bc ca evs st.
  destruct (run approxMath initialWorld evs) as [w|] eqn:Hrun;
    [|vm_compute in Hrun; discriminate Hrun].
  exists w. split; [reflexivity|].
  assert (Hcur : currentSnapshot (app w) = Some (mkSnapshot [A; B] [r])).
  { vm_compute in Hrun. injection Hrun as <-. vm_compute. reflexivity. }
  assert (Hsel : whenTruthy (selectedEntityId (app w)) = Some "A").
  { vm_compute in Hrun. injection Hrun as <-. vm_compute. reflexivity. }
  assert (Hpsel : whenTruthy (PlusPage.selectedEntityId st) = Some "A") by reflexivity.
  split; [exact Hcur|]. split; [exact Hsel|]. split; [exact Hpsel|].
  destruct (deleteSelected_cascades w (mkSnapshot [A; B] [r]) st st "A" Hcur Hsel Hpsel)
    as [(Hcommit & _ & _) (_ & Hgone & Hkept & Hrels)].
  split; [exact (proj2 (proj2 Hcommit))|].
  split; [exact Hgone|].
  split; [rewrite Hkept by discriminate; vm_compute; reflexivity|].
  split; [apply Hrels; split; [right; left; reflexivity|];
          repeat split; discriminate|].
  split; intros Hin; apply Hrels in Hin; destruct Hin as (_ & Hf & Ht & _);
    [apply Hf | apply Ht]; reflexivity.
Defined.

(** ** Cycling a cardinality marker *)

Lemma snapshot_eta (c : Snapshot) : mkSnapshot (entities c) (relationships c) = c.
Proof. destruct c; reflexivity. Qed.

Lemma rerender_app (w : World) : app (rerender w) = app w.
Proof. reflexivity. Qed.

Lemma nextCardinality_wraps (c : Cardinality) :
  exists i : nat,
    nth_error CARDINALITIES i = Some c
    /\ nextCardinality c = nth_error CARDINALITIES ((i + 1) mod 6).
Proof.
  destruct c;
    [exists 0 | exists 1 | exists 2 | exists 3 | exists 4 | exists 5];
    split; reflexivity.
Qed.


Lemma cycleCardinality_iter (rid : string) (targetProp : TargetProp) (n : nat)
    (rel : Relationship) :
  Nat.iter n (cycleCardinality rid targetProp) rel
  = if String.eqb (r_id rel) rid
    then Nat.iter n (fun r => match nextCardinality (getCardinality targetProp r) with
                              | Some c => withCardinality targetProp c r
                              | None => r
                              end) rel
    else rel.
Proof.
  induction n as [|n IH]; simpl.
  - destruct (String.eqb (r_id rel) rid); reflexivity.
  - rewrite IH. destruct (String.eqb (r_id rel) rid) eqn:E.
    + unfold cycleCardinality at 1.
      replace (String.eqb (r_id (Nat.iter n _ rel)) rid) with true; [reflexivity|].
      rewrite <- E. f_equal. clear. induction n as [|n IH]; simpl; [reflexivity|].
      destruct (nextCardinality _); [|exact IH].
      destruct targetProp; simpl; exact IH.
    + unfold cycleCardinality. rewrite E. reflexivity.
Qed.

Lemma cycleCardinality_six (rid : string) (targetProp : TargetProp) (rel : Relationship) :
  Nat.iter 6 (cycleCardinality rid targetProp) rel = rel.
Proof.
  rewrite cycleCardinality_iter.
  destruct (String.eqb (r_id rel) rid); [|reflexivity].
  destruct rel as [id f t sc ec].
  destruct targetProp, sc, ec; vm_compute; reflexivity.
Qed.

Lemma iter_map (A : Type) (f : A -> A) (n : nat) (l : list A) :
  Nat.iter n (List.map f) l = List.map (Nat.iter n f) l.
Proof.
  induction n as [|n IH]; simpl.
  - symmetry. apply map_id.
  - rewrite IH, map_map. reflexivity.
Qed.

Lemma step_cardinalityClick (M : MathObject) (w : World) (cur : Snapshot)
    (rid name : string) :
  currentSnapshot (app w) = Some cur -> rid <> ""%string ->
  exists w1,
    step M w (EvCardinalityClick (Some rid) name) = Some w1
    /\ committed (app w)
         (mkSnapshot (entities cur)
            (List.map (cycleCardinality rid
                         (if String.prefix "start" name
                          then startCardinality else endCardinality))
               (relationships cur)))
         (app w1).
Proof.
  intros Hcur Hrid. unfold step. rewrite Hcur. eexists. split; [reflexivity|].
  rewrite rerender_app. simpl. unfold handleCardinalityChange. simpl.
  destruct (String.eqb_spec rid ""); [contradiction|].
  exact (updateState_committed (app w) cur (Fn (fun prevEnts => prevEnts))
           (Fn (List.map (cycleCardinality rid
                            (if String.prefix "start" name
                             then startCardinality else endCardinality))))
           (app w) Hcur).
Qed.

Lemma run_cardinalityClicks (M : MathObject) (rid name : string) (n : nat) :
  rid <> ""%string ->
  forall (w : World) (cur : Snapshot),
    currentSnapshot (app w) = Some cur ->
    exists wn,
      run M w (repeat (EvCardinalityClick (Some rid) name) n) = Some wn
      /\ currentSnapshot (app wn)
         = Some (mkSnapshot (entities cur)
                   (Nat.iter n
                      (List.map (cycleCardinality rid
                                   (if String.prefix "start" name
                                    then startCardinality else endCardinality)))
                      (relationships cur))).
Proof.
  intros Hrid. induction n as [|n IH]; intros w cur Hcur.
  - exists w. split; [reflexivity|]. simpl. rewrite snapshot_eta. exact Hcur.
  - destruct (step_cardinalityClick M w cur rid name Hcur Hrid) as (w1 & Hstep & Hc).
    destruct Hc as (_ & _ & Hcur1).
    destruct (IH w1 _ Hcur1) as (wn & Hrun & Hn).
    exists wn. split.
    + simpl. rewrite Hstep. exact Hrun.
    + rewrite Hn. simpl. rewrite <- Nat.iter_succ_r. reflexivity.
Qed.

Lemma cycleCardinality_pointwise (rid name : string) (rels : list Relationship) :
  let targetProp :=
    if String.prefix "start" name then startCardinality else endCardinality in
  let otherProp :=
    if String.prefix "start" name then endCardinality else startCardinality in
  Forall2 (fun rel rel1 =>
             if String.eqb (r_id rel) rid then
               r_id rel1 = r_id rel /\ r_fromId rel1 = r_fromId rel
               /\ r_toId rel1 = r_toId rel
               /\ getCardinality otherProp rel1 = getCardinality otherProp rel
               /\ Some (getCardinality targetProp rel1)
                  = nextCardinality (getCardinality targetProp rel)
             else rel1 = rel)
    rels (List.map (cycleCardinality rid targetProp) rels).
Proof.
  intros targetProp otherProp.
  induction rels as [|rel rels IH]; simpl; constructor; [|exact IH].
  unfold cycleCardinality. destruct (String.eqb (r_id rel) rid); [|reflexivity].
  destruct (nextCardinality_wraps (getCardinality targetProp rel)) as (i & _ & Hnext).
  destruct (nextCardinality (getCardinality targetProp rel)) as [c|] eqn:E.
  - unfold targetProp, otherProp.
    destruct (String.prefix "start" name); simpl; repeat split; reflexivity.
  - exfalso. symmetry in Hnext. apply nth_error_None in Hnext.
    pose proof (Nat.mod_upper_bound (i + 1) 6). simpl in Hnext. lia.
Qed.

(** C5. A click on the cardinality symbol [name] of connection [rid]
    advances the marker at that end to the next entry of [CARDINALITIES],
    wrapping from the last to the first; every connection with another id,
    the other fields of the clicked connection and all shapes are as before;
    six clicks in a row bring the whole graph back to the original. *)
Theorem cycleCardinality_cycles (M : MathObject) (w : World) (cur : Snapshot)
    (rid name : string) :
  currentSnapshot (app w) = Some cur -> rid <> ""%string ->
  let targetProp :=
    if String.prefix "start" name then startCardinality else endCardinality in
  let otherProp :=
    if String.prefix "start" name then endCardinality else startCardinality in
  let click := EvCardinalityClick (Some rid) name in
  (forall c : Cardinality,
      exists i : nat,
        nth_error CARDINALITIES i = Some c
        /\ nextCardinality c = nth_error CARDINALITIES ((i + 1) mod 6))
  /\ (exists w1 snap1,
        step M w click = Some w1
        /\ committed (app w) snap1 (app w1)
        /\ entities snap1 = entities cur
        /\ Forall2 (fun rel rel1 =>
                      if String.eqb (r_id rel) rid then
                        r_id rel1 = r_id rel /\ r_fromId rel1 = r_fromId rel
                        /\ r_toId rel1 = r_toId rel
                        /\ getCardinality otherProp rel1 = getCardinality otherProp rel
                        /\ Some (getCardinality targetProp rel1)
                           = nextCardinality (getCardinality targetProp rel)
                      else rel1 = rel)
             (relationships cur) (relationships snap1))
  /\ (exists w6,
        run M w (repeat click 6) = Some w6 /\ currentSnapshot (app w6) = Some cur).
Proof.
  intros Hcur Hrid targetProp otherProp click. split; [exact nextCardinality_wraps|]. split.
  - destruct (step_cardinalityClick M w cur rid name Hcur Hrid) as (w1 & Hstep & Hc).
    exists w1. eexists. split; [exact Hstep|]. split; [exact Hc|]. split; [reflexivity|].
    apply cycleCardinality_pointwise.
  - destruct (run_cardinalityClicks M rid name 6 Hrid w cur Hcur) as (w6 & Hrun & H6).
    exists w6. split; [exact Hrun|]. rewrite H6, iter_map.
    rewrite (map_ext _ (fun r => r)) by (intros r; apply cycleCardinality_six).
    rewrite map_id. apply f_equal, snapshot_eta.
Qed.

Lemma cycleCardinality_cycles_witness :
  let w := onApp (setHistory [mkSnapshot [] [mkRelationship "r" "a" "b" MANY ONE]]) initialWorld in
  currentSnapshot (app w) = Some (mkSnapshot [] [mkRelationship "r" "a" "b" MANY ONE])
  /\ "r"%string <> ""%string
  /\ exists w6,
       run (mkMath (fun _ _ => 0%float) (fun _ _ => 0%float) (fun _ => 0%float) (fun _ => 0%float))
           w (repeat (EvCardinalityClick (Some "r"%string) "start-cardinality") 6) = Some w6
       /\ currentSnapshot (app w6) = Some (mkSnapshot [] [mkRelationship "r" "a" "b" MANY ONE]).
Proof.
  intros w. split; [reflexivity|]. split; [discriminate|].
  apply (cycleCardinality_cycles _ w (mkSnapshot [] [mkRelationship "r" "a" "b" MANY ONE])
           "r" "start-cardinality"); [reflexivity | discriminate].
Defined.

(** ** Creating a connection *)


(** In the map-based editor the click that completes a connection appends it
    with both markers [ONE]. *)
Lemma plusPage_handleEntityClick_connects (ps : PlusPage.State) (source id : string) (now : N) :
  active (PlusPage.relationshipCreation ps) = true ->
  whenTruthy (fromId (PlusPage.relationshipCreation ps)) = Some source ->
  source <> id ->
  PlusPage.relationships (PlusPage.handleEntityClick ps id now ps)
  = PlusPage.relationships ps
    ++ [mkRelationship ("rel_" ++ numberToString now)%string source id ONE ONE].
Proof.
  intros Hact Hfrom Hne. unfold PlusPage.handleEntityClick. rewrite Hact, Hfrom.
  destruct (String.eqb_spec source id) as [|_]; [contradiction|]. reflexivity.
Qed.

(** The connect branch of the map-based handler writes the marker [ONE] at
    both ends.  It needs a render in connection mode, which pointer input
    never produces ([PlusPagePointer]). *)
Lemma plusPage_new_connection_is_ONE :
  let ps := PlusPage.mkState ∅ [] (Some "a"%string) None
              (mkRelationshipCreation true (Some "a"%string)) None in
  exists r,
    PlusPage.relationships (PlusPage.handleEntityClick ps "b" 1700000000000 ps) = [r]
    /\ r_fromId r = "a"%string /\ r_toId r = "b"%string
    /\ r_startCardinality r <> ONE_AND_ONLY_ONE
    /\ r_endCardinality r <> ONE_AND_ONLY_ONE.
Proof.
  eexists. split; [reflexivity|]. simpl. repeat split; discriminate.
Qed.

(** The connect branch of the map-based handler has no test for an
    existing connection: run by a render in connection mode, which pointer
    input never produces ([PlusPagePointer]), it appends a second connection
    between ["a"] and ["b"]. *)
Example plusPage_duplicate_connection_added :
  let ab := mkRelationship "r1" "a" "b" ONE ONE in
  let from_a := PlusPage.mkState ∅ [ab] None None
                  (mkRelationshipCreation true (Some "a"%string)) None in
  let from_b := PlusPage.mkState ∅ [ab] None None
                  (mkRelationshipCreation true (Some "b"%string)) None in
  PlusPage.relationships (PlusPage.handleEntityClick from_a "b" 1700000000000 from_a)
  = [ab; mkRelationship "rel_1700000000000" "a" "b" ONE ONE]
  /\ PlusPage.relationships (PlusPage.handleEntityClick from_b "a" 1700000000000 from_b)
     = [ab; mkRelationship "rel_1700000000000" "b" "a" ONE ONE].
Proof. split; reflexivity. Qed.

Lemma alreadyExists_true (a b : string) (rels : list Relationship) :
  alreadyExists a b rels = true
  <-> exists rel, In rel rels
                  /\ ((r_fromId rel = a /\ r_toId rel = b)
                      \/ (r_fromId rel = b /\ r_toId rel = a)).
Proof.
  unfold alreadyExists. rewrite existsb_exists.
  split; intros (rel & Hin & H); exists rel; (split; [exact Hin|]).
  - apply orb_prop in H. destruct H as [H|H]; apply andb_prop in H;
      destruct H as [H1 H2]; apply String.eqb_eq in H1, H2; tauto.
  - destruct H as [[H1 H2]|[H1 H2]]; subst; rewrite !String.eqb_refl;
      [reflexivity | apply orb_true_r].
Qed.

(** The history-based editor rejects the duplicate: with a connection
    between [a] and [b] present in either orientation, the connect click
    [a]-[b] only shows the alert and leaves connection mode. *)
Lemma handleEntityClick_rejects_duplicate (w : World) (cur : Snapshot) (a b newId : string) :
  truthy (editingEntityId (app w)) = false ->
  active (relationshipCreation (app w)) = true ->
  whenTruthy (fromId (relationshipCreation (app w))) = Some a ->
  a <> b ->
  (exists rel, In rel (relationships cur)
               /\ ((r_fromId rel = a /\ r_toId rel = b)
                   \/ (r_fromId rel = b /\ r_toId rel = a))) ->
  handleEntityClick w cur b newId w
  = onApp (setRelationshipCreation (mkRelationshipCreation false None))
      (alert RelationshipAlreadyExists w).
Proof.
  intros Hed Hact Hfrom Hne Hex. apply alreadyExists_true in Hex.
  unfold handleEntityClick. rewrite Hed, Hact, Hfrom. simpl negb. cbv iota.
  destruct (String.eqb_spec a b) as [|_]; [contradiction|].
  rewrite Hex. reflexivity.
Qed.

(** ** Adding a shape *)

(** C9, as the code has it.  In the history-based editor the shape added by
    [handleAddEntity] is appended to the current shapes with extent 120 x 120
    for an Action and 150 x 75 otherwise, and with the name
    ["<Kind> <n>"], [n] being the number of shapes of that kind in the
    current snapshot plus 1.  In the map-based editor [addEntity] stores,
    under the new id, a shape of extent 150 x 75 named by the bare kind. *)
Theorem addEntity_defaults (w : World) (cur : Snapshot) (type : EntityType)
    (newId : string) (container : option Container) (ps : PlusPage.State) (now : N) :
  currentSnapshot (app w) = Some cur ->
  let n := length (List.filter (fun e => EntityType_eqb (e_type e) type) (entities cur)) + 1 in
  let spawnX := match container with
                | Some c => (scrollLeft c + clientWidth c / 2 - 75)%float
                | None => 50%float
                end in
  let spawnY := match container with
                | Some c => (scrollTop c + clientHeight c / 2 - 40)%float
                | None => 50%float
                end in
  let newEntity :=
    mkEntity newId spawnX spawnY
      (match type with ActionT => 120%float | _ => 150%float end)
      (match type with ActionT => 120%float | _ => 75%float end)
      (EntityType_string type ++ " " ++ numberToString (N.of_nat n))%string
      type in
  let plusId := (toLowerCase (EntityType_string type) ++ "_" ++ numberToString now)%string in
  committed (app w) (mkSnapshot (entities cur ++ [newEntity]) (relationships cur))
    (app (handleAddEntity w cur type newId container w))
  /\ PlusPage.entities (PlusPage.addEntity type now ps) !! plusId
     = Some (mkEntity plusId 100 100 150 75 (EntityType_string type) type).
Proof.
  intros Hcur n spawnX spawnY newEntity plusId. split.
  - unfold handleAddEntity.
    exact (updateState_committed (app w) cur (Fn (fun prev => prev ++ [newEntity]))
             (Val (relationships cur)) (app w) Hcur).
  - unfold PlusPage.addEntity. simpl. apply lookup_insert_eq.
Qed.

Lemma addEntity_defaults_witness :
  currentSnapshot (app initialWorld) = Some (mkSnapshot [] [])
  /\ currentSnapshot (app (handleAddEntity initialWorld (mkSnapshot [] []) ActionT "A" None
                             initialWorld))
     = Some (mkSnapshot [mkEntity "A" 50 50 120 120 "Action 1" ActionT] []).
Proof.
  split; [reflexivity|].
  destruct (addEntity_defaults initialWorld (mkSnapshot [] []) ActionT "A" None
              PlusPage.initialState 0 eq_refl) as [(_ & _ & H) _].
  exact H.
Defined.

(** C9 as stated fails on the map-based editor: an Action added to the empty
    graph is named ["Action"], not ["Action 1"], and gets the same 150 x 75
    extent as an Entity. *)
Lemma plusPage_addEntity_bare_name :
  let added (type : EntityType) (id : string) :=
    PlusPage.entities (PlusPage.addEntity type 1700000000000 PlusPage.initialState) !! id in
  added ActionT "action_1700000000000"%string
  = Some (mkEntity "action_1700000000000" 100 100 150 75 "Action" ActionT)
  /\ added EntityT "entity_1700000000000"%string
     = Some (mkEntity "entity_1700000000000" 100 100 150 75 "Entity" EntityT)
  /\ "Action"%string <> "Action 1"%string.
Proof. split; [|split]; [vm_compute; reflexivity | vm_compute; reflexivity | discriminate]. Qed.

(** ** Mutations that name an absent id *)

Lemma map_unchanged (A : Type) (f : A -> A) (l : list A) :
  (forall a, In a l -> f a = a) -> List.map f l = l.
Proof.
  intros H. induction l as [|a l IH]; simpl; [reflexivity|].
  rewrite H by (left; reflexivity). rewrite IH; [reflexivity|].
  intros b Hb. apply H. right. exact Hb.
Qed.

Lemma moveEntity_other (id : string) (x y : float) (en : Entity) :
  e_id en <> id -> moveEntity id x y en = en.
Proof.
  intros H. unfold moveEntity. destruct (String.eqb_spec (e_id en) id); [contradiction|].
  reflexivity.
Qed.

Lemma renameEntity_other (id newName : string) (e : Entity) :
  e_id e <> id -> renameEntity id newName e = e.
Proof.
  intros H. unfold renameEntity. destruct (String.eqb_spec (e_id e) id); [contradiction|].
  reflexivity.
Qed.

Lemma cycleCardinality_other (rid : string) (targetProp : TargetProp) (rel : Relationship) :
  r_id rel <> rid -> cycleCardinality rid targetProp rel = rel.
Proof.
  intros H. unfold cycleCardinality.
  destruct (String.eqb_spec (r_id rel) rid); [contradiction|]. reflexivity.
Qed.

(** C10. When no shape has id [id] and no connection has id [rid], the
    drag-end of [id], the commit of a rename of [id] and the cardinality
    click on [rid] each append a snapshot equal to the current one and
    advance the cursor. *)
Theorem stale_id_consumes_undo_step (w : World) (cur : Snapshot) (id rid : string) :
  currentSnapshot (app w) = Some cur ->
  (forall e, In e (entities cur) -> e_id e <> id) ->
  (forall rel, In rel (relationships cur) -> r_id rel <> rid) ->
  (forall x y : float, committed (app w) cur (app (handleDragEnd w cur id x y w)))
  /\ (forall newName : string,
        whenTruthy (editingEntityId (app w)) = Some id ->
        textarea w = Some newName ->
        committed (app w) cur (app (handleFinishEditing w cur w)))
  /\ (forall name : string,
        rid <> ""%string ->
        committed (app w) cur (app (handleCardinalityChange w cur (Some rid) name w))).
Proof.
  intros Hcur Hes Hrs. split; [|split].
  - intros x y.
    pose proof (updateState_committed (app w) cur (Fn (List.map (moveEntity id x y)))
                  (Fn (fun prevRels => prevRels)) (app w) Hcur) as H.
    simpl in H. rewrite map_unchanged, snapshot_eta in H; [exact H|].
    intros e He. apply moveEntity_other, Hes, He.
  - intros newName Hed Hta.
    pose proof (updateState_committed (app w) cur (Fn (List.map (renameEntity id newName)))
                  (Fn (fun prevRels => prevRels)) (app w) Hcur) as H.
    simpl in H. rewrite map_unchanged, snapshot_eta in H.
    + unfold handleFinishEditing. rewrite Hed, Hta. exact H.
    + intros e He. apply renameEntity_other, Hes, He.
  - intros name Hrid.
    pose proof (updateState_committed (app w) cur (Fn (fun prevEnts => prevEnts))
                  (Fn (List.map (cycleCardinality rid
                                   (if String.prefix "start" name
                                    then startCardinality else endCardinality))))
                  (app w) Hcur) as H.
    simpl in H. rewrite map_unchanged, snapshot_eta in H.
    + unfold handleCardinalityChange. simpl.
      destruct (String.eqb_spec rid ""); [contradiction|]. exact H.
    + intros rel Hrel. apply cycleCardinality_other, Hrs, Hrel.
Qed.

Lemma stale_id_consumes_undo_step_witness :
  currentSnapshot (app initialWorld) = Some (mkSnapshot [] [])
  /\ history (app (handleDragEnd initialWorld (mkSnapshot [] []) "gone" 10 20 initialWorld))
     = [mkSnapshot [] []; mkSnapshot [] []].
Proof.
  split; [reflexivity|].
  destruct (stale_id_consumes_undo_step initialWorld (mkSnapshot [] []) "gone" "gone"
              eq_refl ltac:(intros e []) ltac:(intros r [])) as [H _].
  destruct (H 10%float 20%float) as [Hh _]. exact Hh.
Defined.

(** ** Reachable worlds are well formed *)

Ltac split_conditions :=
  repeat match goal with
         | |- context [if ?b then _ else _] => destruct b eqn:?
         | |- context [match ?o with Some _ => _ | None => _ end] => destruct o eqn:?
         end.

Ltac ltb_facts :=
  repeat match goal with
         | H : (_ <? _)%nat = true |- _ => apply Nat.ltb_lt in H
         | H : (_ <? _)%nat = false |- _ => apply Nat.ltb_ge in H
         end.

Ltac unfold_handlers :=
  unfold handle, handleDragMove, handleDragEnd, handleEntityClick,
    handleEntityDblClick, handleTextareaKeyDown, handleRelationshipSelect,
    handleCardinalityChange, handleStageClick, handleKeyDown, handleDeleteSelected,
    handleAddEntity, handleRelationshipButton, handleCardinalityButton,
    handleExportImage, handleFinishEditing, setEntities, setRelationships,
    handleUndo, handleRedo, skip.

Lemma handle_history_lt (M : MathObject) (w : World) (cur : Snapshot) (ev : Event) :
  historyIndex (app w) < length (history (app w)) ->
  historyIndex (app (handle M w cur ev w)) < length (history (app (handle M w cur ev w))).
Proof.
  intros Hlt.
  destruct ev; unfold_handlers; split_conditions; ltb_facts; simpl;
    rewrite ?length_app, ?length_firstn; simpl; lia.
Qed.

Lemma handle_editing_inactive (M : MathObject) (w : World) (cur : Snapshot) (ev : Event) :
  (truthy (editingEntityId (app w)) = true -> active (relationshipCreation (app w)) = false) ->
  truthy (editingEntityId (app (handle M w cur ev w))) = true ->
  active (relationshipCreation (app (handle M w cur ev w))) = false.
Proof.
  intros Hinv.
  destruct ev; unfold_handlers; split_conditions; simpl; intros Ht;
    try reflexivity; try discriminate; try (apply Hinv; assumption);
    try (apply Hinv; reflexivity);
    try (rewrite Hinv in * by assumption; discriminate); congruence.
Qed.

Lemma step_wellFormed (M : MathObject) (w w' : World) (ev : Event) :
  wellFormed w -> step M w ev = Some w' -> wellFormed w'.
Proof.
  intros (Hlt & Hact & _) Hstep. unfold step in Hstep.
  destruct (currentSnapshot (app w)) as [cur|]; [|discriminate].
  injection Hstep as <-. split; [|split].
  - rewrite rerender_app. apply handle_history_lt. exact Hlt.
  - rewrite rerender_app. apply handle_editing_inactive. exact Hact.
  - rewrite rerender_app. unfold rerender. intros H. simpl. rewrite H. reflexivity.
Qed.

Lemma run_wellFormed (M : MathObject) (evs : list Event) :
  forall w w', wellFormed w -> run M w evs = Some w' -> wellFormed w'.
Proof.
  induction evs as [|ev evs IH]; simpl; intros w w' Hw Hrun.
  - injection Hrun as <-. exact Hw.
  - destruct (step M w ev) as [w1|] eqn:E; [|discriminate].
    apply (IH w1 w'); [|exact Hrun]. apply (step_wellFormed M w w1 ev Hw E).
Qed.

Lemma initialWorld_wellFormed : wellFormed initialWorld.
Proof. split; [simpl; lia|]. split; intros; reflexivity. Qed.

(** The render never throws in a reachable world. *)
Lemma wellFormed_renders (w : World) :
  wellFormed w -> exists cur, currentSnapshot (app w) = Some cur.
Proof.
  intros (Hlt & _). unfold currentSnapshot.
  destruct (nth_error (history (app w)) (historyIndex (app w))) as [c|] eqn:E.
  - exists c. reflexivity.
  - apply nth_error_None in E. lia.
Qed.

(** ** Clicking the pending source again *)

Lemma handleEntityClick_same_source (w : World) (cur : Snapshot) (a newId : string) :
  truthy (editingEntityId (app w)) = false ->
  active (relationshipCreation (app w)) = true ->
  whenTruthy (fromId (relationshipCreation (app w))) = Some a ->
  handleEntityClick w cur a newId w = w.
Proof.
  intros Hed Hact Hfrom. unfold handleEntityClick.
  rewrite Hed, Hact, Hfrom. simpl negb. cbv iota.
  rewrite String.eqb_refl. reflexivity.
Qed.

Lemma rerender_fixed (w : World) :
  truthy (editingEntityId (app w)) = false -> textarea w = None -> rerender w = w.
Proof.
  intros Hed Hta. unfold rerender. rewrite Hed, <- Hta. destruct w; reflexivity.
Qed.

(** ** Dragging a shape *)

Lemma run_app (M : MathObject) (evs1 evs2 : list Event) :
  forall w, run M w (evs1 ++ evs2)
            = match run M w evs1 with
              | Some w1 => run M w1 evs2
              | None => None
              end.
Proof.
  induction evs1 as [|ev evs1 IH]; intros w; simpl; [reflexivity|].
  destruct (step M w ev); [apply IH | reflexivity].
Qed.

Lemma step_dragMove (M : MathObject) (w : World) (cur : Snapshot) (id : string) (x y : float) :
  currentSnapshot (app w) = Some cur ->
  exists w1,
    step M w (EvDragMove id x y) = Some w1
    /\ app w1 = app w /\ alerts w1 = alerts w
    /\ stage w1 = stage (handleDragMove M cur id x y w).
Proof.
  intros Hcur. unfold step. rewrite Hcur. eexists. split; [reflexivity|].
  simpl. unfold handleDragMove.
  destruct (findEntity id (entities cur)); repeat split.
Qed.

Lemma run_dragMoves (M : MathObject) (id : string) (moves : list (float * float)) :
  forall w cur,
    currentSnapshot (app w) = Some cur ->
    exists wn,
      run M w (List.map (fun p => EvDragMove id (fst p) (snd p)) moves) = Some wn
      /\ app wn = app w /\ alerts wn = alerts w.
Proof.
  induction moves as [|[x y] moves IH]; intros w cur Hcur; simpl.
  - exists w. repeat split.
  - destruct (step_dragMove M w cur id x y Hcur) as (w1 & Hstep & Happ & Hal & _).
    rewrite Hstep. rewrite <- Happ in Hcur.
    destruct (IH w1 cur Hcur) as (wn & Hrun & Happn & Haln).
    exists wn. split; [exact Hrun|]. split; congruence.
Qed.

Lemma moveEntity_pointwise (id : string) (x y : float) (es : list Entity) :
  Forall2 (fun e e' =>
             if String.eqb (e_id e) id
             then e' = mkEntity (e_id e) x y (e_width e) (e_height e) (e_name e) (e_type e)
             else e' = e)
    es (List.map (moveEntity id x y) es).
Proof.
  induction es as [|e es IH]; simpl; constructor; [|exact IH].
  unfold moveEntity. destruct (String.eqb (e_id e) id); reflexivity.
Qed.

(** One pointer-move of that drag: the line of the connector is redrawn from
    the dragged position, the React state stays as it was. *)
Example dragMove_redraws_connector :
  let M := mkMath hypot_ieee (fun _ _ => 0%float) (fun _ => 1%float) (fun _ => 0%float) in
  let A := mkEntity "A" 0 0 150 75 "Entity 1" EntityT in
  let B := mkEntity "B" 400 0 120 120 "Action 1" ActionT in
  let r := mkRelationship "r" "A" "B" ONE_AND_ONLY_ONE ONE_AND_ONLY_ONE in
  let cur := mkSnapshot [A; B] [r] in
  let w := mkWorld (setHistory [cur] initialState)
             {[ "r"%string := mkLineGroup (Some [150; 37.5; 400; 60]%float) None None ]}
             None [] in
  exists w1,
    step M w (EvDragMove "A" 60 60) = Some w1
    /\ app w1 = app w
    /\ stage w1 !! "r"%string
       = Some (mkLineGroup (Some [210; 97.5; 400; 60]%float) None None).
Proof.
  eexists. split; [reflexivity|]. split; [reflexivity|]. vm_compute. reflexivity.
Qed.

(** ** Connector routing *)

Lemma SFcompare_Lt_swap (a b : spec_float) :
  SFcompare a b = Some Lt -> SFcompare b a = Some Gt.
Proof.
  destruct a as [sa|sa| |sa ma ea], b as [sb|sb| |sb mb eb]; simpl;
    try discriminate;
    try (destruct sa; try destruct sb; simpl; congruence).
  rewrite (Z.compare_antisym ea eb).
  change (PosDef.Pos.compare_cont Eq mb ma) with (mb ?= ma)%positive.
  change (PosDef.Pos.compare_cont Eq ma mb) with (ma ?= mb)%positive.
  rewrite (Pos.compare_antisym ma mb).
  destruct sa, sb; try congruence;
    destruct (ea ?= eb)%Z; simpl; try congruence;
    destruct (ma ?= mb)%positive; simpl; congruence.
Qed.

(** [<] on binary64 values is asymmetric and irreflexive. *)
Lemma float_ltb_asym (a b : float) : (a <? b)%float = true -> (b <? a)%float = false.
Proof.
  rewrite !ltb_spec. unfold SFltb.
  destruct (SFcompare (Prim2SF a) (Prim2SF b)) as [[| |]|] eqn:E; try discriminate.
  intros _. rewrite (SFcompare_Lt_swap _ _ E). reflexivity.
Qed.

Lemma float_ltb_irrefl (a : float) : (a <? a)%float = false.
Proof.
  destruct (a <? a)%float eqn:E; [|reflexivity].
  pose proof (float_ltb_asym a a E). congruence.
Qed.

Lemma SFcompare_Lt_trans (a b c : spec_float) :
  SFcompare a b = Some Lt -> SFcompare b c = Some Lt -> SFcompare a c = Some Lt.
Proof.
  destruct a as [s1|s1| |s1 m1 e1], b as [s2|s2| |s2 m2 e2], c as [s3|s3| |s3 m3 e3];
    simpl; try discriminate;
    try (destruct s1; try destruct s2; try destruct s3; simpl; congruence).
  change (PosDef.Pos.compare_cont Eq m1 m2) with (m1 ?= m2)%positive.
  change (PosDef.Pos.compare_cont Eq m2 m3) with (m2 ?= m3)%positive.
  change (PosDef.Pos.compare_cont Eq m1 m3) with (m1 ?= m3)%positive.
  destruct s1, s2, s3; try congruence;
    destruct (Z.compare_spec e1 e2), (Z.compare_spec e2 e3), (Z.compare_spec e1 e3);
    subst; try lia; try congruence;
    destruct (Pos.compare_spec m1 m2), (Pos.compare_spec m2 m3), (Pos.compare_spec m1 m3);
    simpl; subst; try lia; congruence.
Qed.

Lemma float_ltb_trans (a b c : float) :
  (a <? b)%float = true -> (b <? c)%float = true -> (a <? c)%float = true.
Proof.
  rewrite !ltb_spec. unfold SFltb.
  destruct (SFcompare (Prim2SF a) (Prim2SF b)) as [[| |]|] eqn:E1; try discriminate.
  destruct (SFcompare (Prim2SF b) (Prim2SF c)) as [[| |]|] eqn:E2; try discriminate.
  intros _ _. rewrite (SFcompare_Lt_trans _ _ _ E1 E2). reflexivity.
Qed.

(** Whatever is below some value is below [Infinity]. *)
Lemma float_ltb_infinity (a b : float) :
  (a <? b)%float = true -> (a <? infinity)%float = true.
Proof.
  rewrite !ltb_spec. unfold SFltb.
  replace (Prim2SF infinity) with (S754_infinity false) by (vm_compute; reflexivity).
  destruct (Prim2SF a) as [s1|s1| |s1 m1 e1], (Prim2SF b) as [s2|s2| |s2 m2 e2];
    simpl; try discriminate; try reflexivity;
    destruct s1; try destruct s2; simpl; congruence.
Qed.

Lemma SFcompare_cotrans (z y x : spec_float) :
  SFcompare z y = Some Lt ->
  SFcompare x y <> Some Lt ->
  SFcompare z x = Some Lt \/ x = S754_nan.
Proof.
  destruct x as [s3|s3| |s3 m3 e3]; [| |right; reflexivity|];
    destruct z as [s1|s1| |s1 m1 e1], y as [s2|s2| |s2 m2 e2];
    simpl; try discriminate; intros H1 H2; left;
    try (destruct s1; try destruct s2; try destruct s3; simpl in *; congruence).
  revert H1 H2.
  change (PosDef.Pos.compare_cont Eq m1 m2) with (m1 ?= m2)%positive.
  change (PosDef.Pos.compare_cont Eq m3 m2) with (m3 ?= m2)%positive.
  change (PosDef.Pos.compare_cont Eq m1 m3) with (m1 ?= m3)%positive.
  destruct s1, s2, s3; try congruence;
    destruct (Z.compare_spec e1 e2), (Z.compare_spec e3 e2), (Z.compare_spec e1 e3);
    subst; try lia; try congruence;
    destruct (Pos.compare_spec m1 m2), (Pos.compare_spec m3 m2), (Pos.compare_spec m1 m3);
    simpl; subst; try lia; congruence.
Qed.

(** If [z < y] and not [x < y], then [z < x] unless [x] is NaN
    ([x =? x] is false exactly for NaN). *)
Lemma float_ltb_cotrans (z y x : float) :
  (z <? y)%float = true -> (x <? y)%float = false ->
  (z <? x)%float = true \/ (x =? x)%float = false.
Proof.
  rewrite !ltb_spec, FloatAxioms.eqb_spec. unfold SFltb, SFeqb.
  destruct (SFcompare (Prim2SF z) (Prim2SF y)) as [[| |]|] eqn:E1; try discriminate.
  intros _ H2.
  destruct (SFcompare_cotrans _ _ (Prim2SF x) E1) as [->| ->].
  - destruct (SFcompare (Prim2SF x) (Prim2SF y)) as [[| |]|]; congruence.
  - left. reflexivity.
  - right. reflexivity.
Qed.

(** The sign given to a rounding only labels its result. *)
Lemma binary_round_sign (prec emax : Z) (s : bool) (m : positive) (e : Z) :
  binary_round prec emax s m e = withSign s (binary_round prec emax false m e).
Proof.
  unfold binary_round. destruct (shl_align m e _) as [mz ez].
  unfold binary_round_aux.
  destruct (shr_fexp prec emax (Z.pos mz) ez loc_Exact) as [mrs' e'].
  destruct (shr_fexp prec emax _ e' loc_Exact) as [mrs'' e''].
  destruct (shr_m mrs''); [reflexivity| |reflexivity].
  destruct (e'' <=? emax - prec)%Z; reflexivity.
Qed.

Lemma SFopp_withSign (s : bool) (r : spec_float) :
  SFopp (withSign s r) = withSign (negb s) r.
Proof. destruct r; reflexivity. Qed.

Lemma withSign_withSign (s t : bool) (r : spec_float) :
  withSign s (withSign t r) = withSign s r.
Proof. destruct r; reflexivity. Qed.

Lemma SFsub_swap (prec emax : Z) (x y : spec_float) :
  SFsub prec emax y x = SFopp (SFsub prec emax x y)
  \/ (SFsub prec emax x y = S754_zero false /\ SFsub prec emax y x = S754_zero false).
Proof.
  destruct x as [sx|sx| |sx mx ex], y as [sy|sy| |sy my ey]; simpl;
    try (left; reflexivity);
    try (destruct sx, sy; simpl; (left; reflexivity) || (right; split; reflexivity));
    try (destruct sx; left; reflexivity);
    try (destruct sy; left; reflexivity).
  all: rewrite (Z.min_comm ey ex);
    set (ez := Z.min ex ey);
    set (a := cond_Zopp _ (Z.pos (shl_align mx ex ez).1));
    set (b := cond_Zopp _ (Z.pos (shl_align my ey ez).1));
    replace (b - a)%Z with (- (a - b))%Z by lia;
    destruct (a - b)%Z as [|p|p]; simpl;
    [ right; split; reflexivity
    | left; rewrite (binary_round_sign prec emax true p ez),
              (binary_round_sign prec emax false p ez), SFopp_withSign,
              withSign_withSign; reflexivity
    | left; rewrite (binary_round_sign prec emax true p ez), SFopp_withSign;
      apply (binary_round_sign prec emax false p ez) ].
Qed.

(** On binary64 values [b - a] is the negation of [a - b], except that both
    are [+0] when the difference is zero. *)
Lemma float_sub_swap (a b : float) :
  (b - a)%float = (- (a - b))%float
  \/ ((a - b)%float = 0%float /\ (b - a)%float = 0%float).
Proof.
  destruct (SFsub_swap prec emax (Prim2SF a) (Prim2SF b)) as [H|[H1 H2]].
  - left. apply Prim2SF_inj. rewrite opp_spec, !sub_spec. exact H.
  - right. split; apply Prim2SF_inj; rewrite sub_spec; assumption.
Qed.

Lemma float_square_opp (x : float) : (- x * - x)%float = (x * x)%float.
Proof.
  apply Prim2SF_inj. rewrite !mul_spec, !opp_spec.
  destruct (Prim2SF x) as [s|s| |s m e]; simpl; try reflexivity; destruct s; reflexivity.
Qed.

Lemma binary_round_aux_sign (prec emax : Z) (s : bool) (m e : Z) (l : location) :
  binary_round_aux prec emax s m e l
  = withSign s (binary_round_aux prec emax false m e l).
Proof.
  unfold binary_round_aux.
  destruct (shr_fexp prec emax m e l) as [mrs' e'].
  destruct (shr_fexp prec emax _ e' loc_Exact) as [mrs'' e''].
  destruct (shr_m mrs''); [reflexivity| |reflexivity].
  destruct (e'' <=? emax - prec)%Z; reflexivity.
Qed.

Lemma SFmul_opp_r (prec emax : Z) (x y : spec_float) :
  SFmul prec emax x (SFopp y) = SFopp (SFmul prec emax x y).
Proof.
  destruct x as [sx|sx| |sx mx ex], y as [sy|sy| |sy my ey]; simpl;
    try reflexivity; try (destruct sx, sy; reflexivity).
  rewrite (binary_round_aux_sign prec emax (xorb sx (negb sy))),
    (binary_round_aux_sign prec emax (xorb sx sy)), SFopp_withSign.
  destruct sx, sy; reflexivity.
Qed.

Lemma SFadd_opp (prec emax : Z) (x y : spec_float) :
  SFadd prec emax x (SFopp y) = SFsub prec emax x y.
Proof.
  destruct x as [sx|sx| |sx mx ex], y as [sy|sy| |sy my ey]; simpl;
    try reflexivity; try (destruct sx, sy; reflexivity).
Qed.

Lemma SFsub_opp (prec emax : Z) (x y : spec_float) :
  SFsub prec emax x (SFopp y) = SFadd prec emax x y.
Proof.
  destruct x as [sx|sx| |sx mx ex], y as [sy|sy| |sy my ey]; simpl;
    try reflexivity; try (destruct sx, sy; reflexivity).
Qed.

(** On binary64 values a product changes sign with a factor, adding a
    negation is subtracting and subtracting a negation is adding, all
    without a change of rounding. *)
Lemma float_mul_opp_r (k c : float) : (k * - c)%float = (- (k * c))%float.
Proof.
  apply Prim2SF_inj. rewrite opp_spec, !mul_spec, opp_spec. apply SFmul_opp_r.
Qed.

Lemma float_add_opp (x z : float) : (x + - z)%float = (x - z)%float.
Proof.
  apply Prim2SF_inj. rewrite add_spec, sub_spec, opp_spec. apply SFadd_opp.
Qed.

Lemma float_sub_opp (x z : float) : (x - - z)%float = (x + z)%float.
Proof.
  apply Prim2SF_inj. rewrite add_spec, sub_spec, opp_spec. apply SFsub_opp.
Qed.

(** [hypot_ieee] ignores the signs of its arguments. *)
Lemma hypot_ieee_even (x y : float) :
  hypot_ieee (- x) y = hypot_ieee x y /\ hypot_ieee x (- y) = hypot_ieee x y.
Proof. unfold hypot_ieee. rewrite !float_square_opp. split; reflexivity. Qed.

(** For a [hypot] that ignores the signs of its arguments the distance of
    two points does not depend on their order. *)
Lemma distance_sym (hypot : float -> float -> float) (p q : Point) :
  (forall x y : float, hypot (- x)%float y = hypot x y /\ hypot x (- y)%float = hypot x y) ->
  distance hypot q p = distance hypot p q.
Proof.
  intros Heven. unfold distance.
  destruct (float_sub_swap (p_x p) (p_x q)) as [Hx|[Hx1 Hx2]];
    destruct (float_sub_swap (p_y p) (p_y q)) as [Hy|[Hy1 Hy2]].
  - rewrite Hx, Hy.
    rewrite (proj1 (Heven _ _)), (proj2 (Heven _ _)). reflexivity.
  - rewrite Hx, Hy1, Hy2. apply (proj1 (Heven _ _)).
  - rewrite Hx1, Hx2, Hy. apply (proj2 (Heven _ _)).
  - rewrite Hx1, Hx2, Hy1, Hy2. reflexivity.
Qed.

(** The nested loops visit [list_prod fromAnchors toAnchors] in order. *)
Lemma scanAnchors_flat (hypot : float -> float -> float) (fa ta : list Point) :
  forall init,
    scanAnchors hypot fa ta init
    = fold_left (fun acc pq => scanStep hypot (fst pq) acc (snd pq)) (list_prod fa ta) init.
Proof.
  unfold scanAnchors. induction fa as [|f fa IH]; intros init; simpl; [reflexivity|].
  rewrite fold_left_app, IH. f_equal.
  generalize init. clear. induction ta as [|t ta IH]; intros init; simpl; [reflexivity|].
  apply IH.
Qed.

Section Scan.
Variable hypot : float -> float -> float.
Variable best : Point * Point.

Let d (pq : Point * Point) : float := distance hypot (fst pq) (snd pq).
Let body (acc : float * (Point * Point)) (pq : Point * Point) :=
  scanStep hypot (fst pq) acc (snd pq).

(** Once [best] is held, the rest of the scan keeps it. *)
Lemma scan_keeps (l : list (Point * Point)) :
  strictlyClosest hypot best l ->
  fold_left body l (d best, best) = (d best, best).
Proof.
  induction l as [|pq l IH]; intros H; simpl; [reflexivity|].
  assert (Hstep : body (d best, best) pq = (d best, best)).
  { unfold body, scanStep. simpl. fold (d pq).
    destruct (H pq (or_introl eq_refl)) as [->|Hlt].
    - rewrite float_ltb_irrefl. reflexivity.
    - change ((d best <? d pq)%float = true) in Hlt.
      rewrite (float_ltb_asym _ _ Hlt). reflexivity. }
  rewrite Hstep. apply IH. intros r Hr. apply H. right. exact Hr.
Qed.

(** Until [best] is met, the running minimum stays strictly above it. *)
Lemma scan_finds (l : list (Point * Point)) :
  strictlyClosest hypot best l -> In best l ->
  forall acc, (d best <? fst acc)%float = true ->
              fold_left body l acc = (d best, best).
Proof.
  induction l as [|pq l IH]; intros H Hin acc Hacc; [destruct Hin|].
  simpl.
  assert (Hrest : strictlyClosest hypot best l) by (intros r Hr; apply H; right; exact Hr).
  destruct (H pq (or_introl eq_refl)) as [->|Hlt].
  - replace (body acc best) with (d best, best).
    + apply scan_keeps. exact Hrest.
    + unfold body, scanStep. fold (d best). rewrite Hacc. destruct best; reflexivity.
  - destruct Hin as [->|Hin].
    + replace (body acc best) with (d best, best).
      * apply scan_keeps. exact Hrest.
      * unfold body, scanStep. fold (d best). rewrite Hacc. destruct best; reflexivity.
    + apply IH; [exact Hrest | exact Hin |].
      unfold body, scanStep. fold (d pq).
      destruct (d pq <? fst acc)%float; [exact Hlt | exact Hacc].
Qed.
End Scan.

(** The scan invariant: no pair met so far is strictly below the running
    minimum, and the running minimum is [Infinity] with the initial pair
    or the distance of the held pair, which was met. *)
Lemma scan_invariant (hypot : float -> float -> float) (init : Point * Point)
    (l : list (Point * Point)) :
  forall (seen : list (Point * Point)) (acc : float * (Point * Point)),
    (forall r, In r seen -> (distance hypot (fst r) (snd r) <? fst acc)%float = false) ->
    (acc = (infinity, init)
     \/ (In (snd acc) seen /\ fst acc = distance hypot (fst (snd acc)) (snd (snd acc)))) ->
    let acc' := fold_left (fun a pq => scanStep hypot (fst pq) a (snd pq)) l acc in
    (forall r, In r (seen ++ l) ->
               (distance hypot (fst r) (snd r) <? fst acc')%float = false)
    /\ (acc' = (infinity, init)
        \/ (In (snd acc') (seen ++ l)
            /\ fst acc' = distance hypot (fst (snd acc')) (snd (snd acc')))).
Proof.
  induction l as [|pq l IH]; intros seen acc Hseen Hacc; simpl.
  - rewrite app_nil_r. split; assumption.
  - replace (seen ++ pq :: l) with ((seen ++ [pq]) ++ l)
      by (rewrite <- app_assoc; reflexivity).
    apply IH.
    + intros r Hr. apply in_app_or in Hr. unfold scanStep.
      destruct (distance hypot (fst pq) (snd pq) <? fst acc)%float eqn:E; simpl.
      * destruct Hr as [Hr|[<-|[]]].
        -- destruct (distance hypot (fst r) (snd r)
                     <? distance hypot (fst pq) (snd pq))%float eqn:E'; [|reflexivity].
           rewrite <- (Hseen r Hr). symmetry.
           apply (float_ltb_trans _ _ _ E' E).
        -- apply float_ltb_irrefl.
      * destruct Hr as [Hr|[<-|[]]]; [apply Hseen; exact Hr | exact E].
    + unfold scanStep.
      destruct (distance hypot (fst pq) (snd pq) <? fst acc)%float; simpl.
      * right. split; [|destruct pq; reflexivity].
        destruct pq. apply in_or_app. right. left. reflexivity.
      * destruct Hacc as [Hacc|[Hin Heq]]; [left; exact Hacc|].
        right. split; [|exact Heq]. apply in_or_app. left. exact Hin.
Qed.

(** For every [Math.hypot] and all shapes: the route is one of the 16 anchor
    pairs, and no anchor pair is strictly closer than it. *)
Theorem bestPoints_minimal (hypot : float -> float -> float) (A B : Entity) :
  let b := bestPoints hypot A B in
  In b (anchorPairs A B)
  /\ forall r, In r (anchorPairs A B) ->
       (distance hypot (fst r) (snd r) <? distance hypot (fst b) (snd b))%float = false.
Proof.
  unfold bestPoints. rewrite scanAnchors_flat. fold (anchorPairs A B).
  pose proof (scan_invariant hypot (topAnchor A, topAnchor B) (anchorPairs A B) []
                (infinity, (topAnchor A, topAnchor B))
                ltac:(intros r []) (or_introl eq_refl)) as [Hmin Hacc].
  simpl app in Hmin, Hacc.
  destruct Hacc as [Hacc|[Hin Heq]].
  - rewrite Hacc in *. simpl in *. split.
    + left. reflexivity.
    + intros r Hr.
      destruct (distance hypot (fst r) (snd r)
                <? distance hypot (topAnchor A) (topAnchor B))%float eqn:E; [|reflexivity].
      rewrite <- (Hmin r Hr). symmetry. apply (float_ltb_infinity _ _ E).
  - split; [exact Hin|]. intros r Hr. rewrite <- Heq. apply Hmin. exact Hr.
Qed.

(** The scan with positions: the pairs met before the held pair are all
    strictly farther than it (or at a NaN distance), the pairs met after it
    are not strictly closer. *)
Lemma scan_positions (hypot : float -> float -> float) (l : list (Point * Point)) :
  forall (before after : list (Point * Point)) (acc : float * (Point * Point)),
    let d := fun r : Point * Point => distance hypot (fst r) (snd r) in
    (fst acc = d (snd acc)
     \/ (before = [] /\ fst acc = infinity /\ (d (snd acc) <? infinity)%float = false)) ->
    (forall r, In r before -> (fst acc <? d r)%float = true \/ (d r =? d r)%float = false) ->
    (forall r, In r after -> (d r <? fst acc)%float = false) ->
    let acc' := fold_left (fun a pq => scanStep hypot (fst pq) a (snd pq)) l acc in
    exists before' after',
      before ++ snd acc :: after ++ l = before' ++ snd acc' :: after'
      /\ (forall r, In r before' ->
                    (d (snd acc') <? d r)%float = true \/ (d r =? d r)%float = false)
      /\ (forall r, In r after' -> (d r <? d (snd acc'))%float = false).
Proof.
  induction l as [|pq l IH]; intros before after acc d Hm Hb Ha; simpl.
  - exists before, after. rewrite app_nil_r. split; [reflexivity|].
    destruct Hm as [Hm|(-> & Hinf & Hnot)].
    + rewrite <- Hm. split; assumption.
    + split; [intros r []|]. intros r Hr.
      destruct (d r <? d (snd acc))%float eqn:E; [|reflexivity].
      rewrite <- (Ha r Hr), Hinf. symmetry. apply (float_ltb_infinity _ _ E).
  - destruct (d pq <? fst acc)%float eqn:E.
    + replace (scanStep hypot (fst pq) acc (snd pq)) with (d pq, (fst pq, snd pq))
        by (unfold scanStep; fold (d pq); rewrite E; reflexivity).
      destruct (IH (before ++ snd acc :: after) [] (d pq, (fst pq, snd pq)))
        as (before' & after' & Heq & Hb' & Ha').
      * left. reflexivity.
      * intros r Hr. simpl. apply in_app_or in Hr. destruct Hr as [Hr|[<-|Hr]].
        -- destruct (Hb r Hr) as [Hlt|Hnan]; [left | right; exact Hnan].
           apply (float_ltb_trans _ _ _ E Hlt).
        -- destruct Hm as [Hm|(_ & Hinf & Hnot)].
           ++ left. fold (d (snd acc)). rewrite <- Hm. exact E.
           ++ apply (float_ltb_cotrans _ _ _ E). rewrite Hinf. exact Hnot.
        -- apply (float_ltb_cotrans _ _ _ E). apply Ha. exact Hr.
      * intros r [].
      * exists before', after'. split; [|split; [exact Hb' | exact Ha']].
        rewrite <- Heq. simpl. rewrite <- !app_assoc. destruct pq; reflexivity.
    + replace (scanStep hypot (fst pq) acc (snd pq)) with acc
        by (unfold scanStep; fold (d pq); rewrite E; reflexivity).
      destruct (IH before (after ++ [pq]) acc) as (before' & after' & Heq & Hb' & Ha').
      * exact Hm.
      * exact Hb.
      * intros r Hr. apply in_app_or in Hr. destruct Hr as [Hr|[<-|[]]];
          [apply Ha; exact Hr | exact E].
      * exists before', after'. split; [|split; [exact Hb' | exact Ha']].
        rewrite <- Heq. rewrite <- !app_assoc. reflexivity.
Qed.

(** For every [Math.hypot] and all shapes: the route is the first pair, in
    evaluation order, of minimal distance.  Every pair met before it is
    strictly farther (or its distance is NaN), no pair met after it is
    strictly closer. *)
Theorem bestPoints_first_minimal (hypot : float -> float -> float) (A B : Entity) :
  let d := fun r : Point * Point => distance hypot (fst r) (snd r) in
  let b := bestPoints hypot A B in
  exists before after,
    anchorPairs A B = before ++ b :: after
    /\ length (anchorPairs A B) = 16
    /\ (forall r, In r before -> (d b <? d r)%float = true \/ (d r =? d r)%float = false)
    /\ (forall r, In r after -> (d r <? d b)%float = false).
Proof.
  intros d b. unfold b, bestPoints. rewrite scanAnchors_flat.
  change (list_prod (getAnchors A) (getAnchors B))
    with ((topAnchor A, topAnchor B) :: tl (anchorPairs A B)).
  change (anchorPairs A B) with ((topAnchor A, topAnchor B) :: tl (anchorPairs A B)) at 1.
  cbn [fold_left fst snd].
  destruct (d (topAnchor A, topAnchor B) <? infinity)%float eqn:E.
  - replace (scanStep hypot (topAnchor A) (infinity, (topAnchor A, topAnchor B)) (topAnchor B))
      with (d (topAnchor A, topAnchor B), (topAnchor A, topAnchor B))
      by (unfold scanStep; cbn [fst snd];
          change (distance hypot (topAnchor A) (topAnchor B))
            with (d (topAnchor A, topAnchor B));
          rewrite E; reflexivity).
    destruct (scan_positions hypot (tl (anchorPairs A B)) [] []
                (d (topAnchor A, topAnchor B), (topAnchor A, topAnchor B)))
      as (before & after & Heq & Hb & Ha).
    + left. reflexivity.
    + intros r [].
    + intros r [].
    + exists before, after. split; [exact Heq|]. split; [reflexivity|].
      split; [exact Hb | exact Ha].
  - replace (scanStep hypot (topAnchor A) (infinity, (topAnchor A, topAnchor B)) (topAnchor B))
      with (infinity, (topAnchor A, topAnchor B))
      by (unfold scanStep; cbn [fst snd];
          change (distance hypot (topAnchor A) (topAnchor B))
            with (d (topAnchor A, topAnchor B));
          rewrite E; reflexivity).
    destruct (scan_positions hypot (tl (anchorPairs A B)) [] []
                (infinity, (topAnchor A, topAnchor B)))
      as (before & after & Heq & Hb & Ha).
    + right. repeat split. exact E.
    + intros r [].
    + intros r [].
    + exists before, after. split; [exact Heq|]. split; [reflexivity|].
      split; [exact Hb | exact Ha].
Qed.

Lemma bestPoints_unique_minimum (hypot : float -> float -> float) (A B : Entity)
    (p q : Point) :
  In p (getAnchors A) -> In q (getAnchors B) ->
  (distance hypot p q <? infinity)%float = true ->
  strictlyClosest hypot (p, q) (anchorPairs A B) ->
  bestPoints hypot A B = (p, q).
Proof.
  intros Hp Hq Hinf Hmin. unfold bestPoints. rewrite scanAnchors_flat.
  rewrite (scan_finds hypot (p, q) (anchorPairs A B) Hmin).
  - reflexivity.
  - apply in_prod; assumption.
  - exact Hinf.
Qed.

Lemma points_calculateRelationshipRenderProps (M : MathObject) (A B : Entity) :
  points (calculateRelationshipRenderProps M A B)
  = linePoints (bestPoints (Math_hypot M) A B).
Proof. reflexivity. Qed.

(** C8, as the code has it.  All 16 pairs of edge midpoints are compared.
    For a [Math.hypot] that ignores the signs of its arguments (it is the
    root of a sum of squares): when one pair [(p, q)] is strictly closer
    than every other pair, route(A,B) runs from [p] to [q] and route(B,A)
    from [q] to [p], i.e. its line is the line of route(A,B) reversed.  The
    markers change ends with it: the start marker of route(B,A) sits at [q],
    where route(A,B) has its end marker, and its end marker at [p], each 20
    units inside the line along the angle [atan2] gives for the direction
    of travel, which for route(B,A) is the negated direction of route(A,B)
    (a zero component is [+0] both ways); the rotations are that angle in
    degrees, plus 180 for the start marker.  So the [x] coordinates of the
    two markers are exactly the swapped ones of route(A,B) whenever the
    cosines that the engine returns for the two angles are exact opposites
    (as they are for a horizontal line), and the [y] coordinates whenever
    the sines are (as for a vertical line). *)
Theorem route_symmetric_when_unique (M : MathObject) (A B : Entity) (p q : Point) :
  (forall x y : float,
      Math_hypot M (- x)%float y = Math_hypot M x y
      /\ Math_hypot M x (- y)%float = Math_hypot M x y) ->
  In p (getAnchors A) -> In q (getAnchors B) ->
  (distance (Math_hypot M) p q <? infinity)%float = true ->
  strictlyClosest (Math_hypot M) (p, q) (anchorPairs A B) ->
  let ab := calculateRelationshipRenderProps M A B in
  let ba := calculateRelationshipRenderProps M B A in
  let dx := (p_x q - p_x p)%float in
  let dy := (p_y q - p_y p)%float in
  let dx' := (p_x p - p_x q)%float in
  let dy' := (p_y p - p_y q)%float in
  let a := Math_atan2 M dy dx in
  let a' := Math_atan2 M dy' dx' in
  length (anchorPairs A B) = 16
  /\ points ab = [p_x p; p_y p; p_x q; p_y q]
  /\ points ba = reverseLine (points ab)
  /\ (dx' = (- dx)%float \/ (dx = 0%float /\ dx' = 0%float))
  /\ (dy' = (- dy)%float \/ (dy = 0%float /\ dy' = 0%float))
  /\ startSymbolProps ab
     = mkSymbolProps (p_x p + 20 * Math_cos M a)%float (p_y p + 20 * Math_sin M a)%float
         (a * (180 / Math_PI) + 180)%float
  /\ endSymbolProps ab
     = mkSymbolProps (p_x q - 20 * Math_cos M a)%float (p_y q - 20 * Math_sin M a)%float
         (a * (180 / Math_PI))%float
  /\ startSymbolProps ba
     = mkSymbolProps (p_x q + 20 * Math_cos M a')%float (p_y q + 20 * Math_sin M a')%float
         (a' * (180 / Math_PI) + 180)%float
  /\ endSymbolProps ba
     = mkSymbolProps (p_x p - 20 * Math_cos M a')%float (p_y p - 20 * Math_sin M a')%float
         (a' * (180 / Math_PI))%float
  /\ (Math_cos M a' = (- Math_cos M a)%float ->
      s_x (startSymbolProps ba) = s_x (endSymbolProps ab)
      /\ s_x (endSymbolProps ba) = s_x (startSymbolProps ab))
  /\ (Math_sin M a' = (- Math_sin M a)%float ->
      s_y (startSymbolProps ba) = s_y (endSymbolProps ab)
      /\ s_y (endSymbolProps ba) = s_y (startSymbolProps ab)).
Proof.
  intros Heven Hp Hq Hinf Hmin ab ba dx dy dx' dy' a a'.
  assert (Hab : bestPoints (Math_hypot M) A B = (p, q))
    by (apply bestPoints_unique_minimum; assumption).
  assert (Hba : bestPoints (Math_hypot M) B A = (q, p)).
  { apply bestPoints_unique_minimum; try assumption.
    - rewrite (distance_sym _ p q Heven). exact Hinf.
    - intros [t f] Hin. apply in_prod_iff in Hin. destruct Hin as [Ht Hf].
      destruct (Hmin (f, t) (in_prod _ _ _ _ Hf Ht)) as [Heq|Hlt].
      + left. congruence.
      + right. simpl in *.
        rewrite (distance_sym _ p q Heven), (distance_sym _ f t Heven). exact Hlt. }
  split; [reflexivity|].
  unfold ab, ba, calculateRelationshipRenderProps. rewrite Hab, Hba.
  split; [reflexivity|]. split; [reflexivity|].
  split; [exact (float_sub_swap (p_x q) (p_x p))|].
  split; [exact (float_sub_swap (p_y q) (p_y p))|].
  do 4 (split; [reflexivity|]).
  unfold startSymbolOf, endSymbolOf, angleRadOf, offset.
  cbn [s_x s_y fst snd]. fold dx dy dx' dy' a a'.
  split; intros ->; rewrite float_mul_opp_r, float_add_opp, float_sub_opp;
    split; reflexivity.
Qed.

(** Ties.  Two default-sized entities, [B] below and to
    the left of [A]: the pairs (bottom of A, right of B) and (left of A, top
    of B) are at the same, minimal, distance 397.5 (every other pair is at
    more than 398.5); route(A,B) keeps the first and route(B,A) the second,
    so the two lines differ. *)
Lemma route_not_symmetric_on_tie :
  let A := mkEntity "A" 285 0 150 75 "Entity 1" EntityT in
  let B := mkEntity "B" 0 375 150 75 "Entity 2" EntityT in
  linePoints (bestPoints hypot_ieee A B) = [360; 75; 150; 412.5]%float
  /\ linePoints (bestPoints hypot_ieee B A) = [75; 375; 285; 37.5]%float
  /\ linePoints (bestPoints hypot_ieee B A)
     <> reverseLine (linePoints (bestPoints hypot_ieee A B)).
Proof.
  intros A B.
  assert (HAB : linePoints (bestPoints hypot_ieee A B) = [360; 75; 150; 412.5]%float)
    by (vm_compute; reflexivity).
  assert (HBA : linePoints (bestPoints hypot_ieee B A) = [75; 375; 285; 37.5]%float)
    by (vm_compute; reflexivity).
  split; [exact HAB|]. split; [exact HBA|].
  rewrite HAB, HBA. simpl. intros H.
  apply (f_equal (fun l => match l with x :: _ => PrimFloat.eqb x 75 | [] => false end)) in H.
  vm_compute in H. discriminate.
Qed.

(** The tie of the previous lemma does not depend on how [Math.hypot]
    rounds: both distances are [hypot] of the same two numbers. *)
Lemma tie_has_equal_operands (hypot : float -> float -> float) :
  let A := mkEntity "A" 285 0 150 75 "Entity 1" EntityT in
  let B := mkEntity "B" 0 375 150 75 "Entity 2" EntityT in
  distance hypot (bottomAnchor A) (rightAnchor B) = hypot 210%float (-337.5)%float
  /\ distance hypot (leftAnchor A) (topAnchor B) = hypot 210%float (-337.5)%float.
Proof. split; unfold distance; f_equal; vm_compute; reflexivity. Qed.

(** The swapped markers are not the same numbers.  For two shapes side by
    side, with the connector along [y = 0] from [x = 150] to [x = 400]:
    [atan2] of the direction is [+0] one way and [Math.PI] the other, so the
    start marker of route(B,A) has rotation 360 where the end marker of
    route(A,B) has rotation 0, whatever the engine's cosine and sine are. *)
Lemma full_turn_on_horizontal_route (M : MathObject) :
  Math_atan2 M 0%float 250%float = 0%float ->
  Math_atan2 M 0%float (-250)%float = Math_PI ->
  let p := mkPoint 150 0 in
  let q := mkPoint 400 0 in
  s_rotation (endSymbolOf M (p, q)) = 0%float
  /\ s_rotation (startSymbolOf M (q, p)) = 360%float.
Proof.
  intros H0 Hpi p q. unfold endSymbolOf, startSymbolOf, angleRadOf. cbn [s_rotation].
  replace (p_y (snd (p, q)) - p_y (fst (p, q)))%float with 0%float by reflexivity.
  replace (p_x (snd (p, q)) - p_x (fst (p, q)))%float with 250%float by reflexivity.
  replace (p_y (snd (q, p)) - p_y (fst (q, p)))%float with 0%float by reflexivity.
  replace (p_x (snd (q, p)) - p_x (fst (q, p)))%float with (-250)%float by reflexivity.
  rewrite H0, Hpi. split; reflexivity.
Qed.

(** C8 as stated fails in two ways: on ties the two directions use
    different anchor pairs (first part), and where the line does reverse the
    swapped markers are not the same poses as numbers (second part): with
    the values ECMAScript and correct rounding give at [+0] and [Math.PI],
    the start marker of route(B,A) is [(380, 20 * sin(Math.PI), 360)] while
    the end marker of route(A,B) is [(380, 0, 0)]. *)
Lemma route_not_symmetric :
  (let A := mkEntity "A" 285 0 150 75 "Entity 1" EntityT in
   let B := mkEntity "B" 0 375 150 75 "Entity 2" EntityT in
   linePoints (bestPoints hypot_ieee A B) = [360; 75; 150; 412.5]%float
   /\ linePoints (bestPoints hypot_ieee B A) = [75; 375; 285; 37.5]%float
   /\ linePoints (bestPoints hypot_ieee B A)
      <> reverseLine (linePoints (bestPoints hypot_ieee A B)))
  /\ (let A := mkEntity "A" 0 (-37.5) 150 75 "Entity 1" EntityT in
      let B := mkEntity "B" 400 (-37.5) 150 75 "Entity 2" EntityT in
      let ab := calculateRelationshipRenderProps approxMath A B in
      let ba := calculateRelationshipRenderProps approxMath B A in
      points ab = [150; 0; 400; 0]%float
      /\ points ba = reverseLine (points ab)
      /\ endSymbolProps ab = mkSymbolProps 380 0 0
      /\ startSymbolProps ba = mkSymbolProps 380 (20 * 0x1.1a62633145c07p-53) 360
      /\ (s_rotation (startSymbolProps ba) =? s_rotation (endSymbolProps ab))%float = false
      /\ (s_y (startSymbolProps ba) =? s_y (endSymbolProps ab))%float = false).
Proof.
  split; [exact route_not_symmetric_on_tie|].
  intros A B ab ba. repeat split; vm_compute; reflexivity.
Qed.

Lemma route_symmetric_when_unique_witness :
  let A := mkEntity "A" 0 0 150 75 "Entity 1" EntityT in
  let B := mkEntity "B" 400 0 120 120 "Action 1" ActionT in
  let ab := calculateRelationshipRenderProps approxMath A B in
  let ba := calculateRelationshipRenderProps approxMath B A in
  let C := mkEntity "C" 0 (-37.5) 150 75 "Entity 2" EntityT in
  let D := mkEntity "D" 400 (-37.5) 150 75 "Entity 3" EntityT in
  let cd := calculateRelationshipRenderProps approxMath C D in
  let dc := calculateRelationshipRenderProps approxMath D C in
  (points ab = [150; 37.5; 400; 60]%float
   /\ points ba = [400; 60; 150; 37.5]%float
   /\ startSymbolProps ba
      = mkSymbolProps (400 + 20 * approxCos (approxAtan2 (-22.5) (-250)))
          (60 + 20 * approxSin (approxAtan2 (-22.5) (-250)))
          (approxAtan2 (-22.5) (-250) * (180 / Math_PI) + 180)
   /\ endSymbolProps ab
      = mkSymbolProps (400 - 20 * approxCos (approxAtan2 22.5 250))
          (60 - 20 * approxSin (approxAtan2 22.5 250))
          (approxAtan2 22.5 250 * (180 / Math_PI))
   /\ (s_x (startSymbolProps ba) <? 400)%float = true
   /\ (150 <? s_x (endSymbolProps ba))%float = true)
  /\ (points dc = reverseLine (points cd)
      /\ s_x (startSymbolProps dc) = s_x (endSymbolProps cd)
      /\ s_x (endSymbolProps dc) = s_x (startSymbolProps cd)).
Proof.
  intros A B ab ba C D cd dc. split.
  - assert (H : strictlyClosest (Math_hypot approxMath) (rightAnchor A, leftAnchor B)
                  (anchorPairs A B)).
    { intros pq Hin. simpl in Hin.
      repeat (destruct Hin as [<-|Hin];
              [first [left; reflexivity | right; vm_compute; reflexivity]|]).
      destruct Hin. }
    destruct (route_symmetric_when_unique approxMath A B (rightAnchor A) (leftAnchor B))
      as (_ & H1 & H2 & _ & _ & _ & H3 & H4 & H5 & _).
    + exact hypot_ieee_even.
    + right; left; reflexivity.
    + right; right; right; left; reflexivity.
    + vm_compute. reflexivity.
    + exact H.
    + split; [exact H1|].
      split; [etransitivity; [exact H2|]; rewrite H1; reflexivity|].
      split; [exact H4|]. split; [exact H3|].
      split; [etransitivity; [exact (f_equal (fun s => (s_x s <? 400)%float) H4)|]
             |etransitivity; [exact (f_equal (fun s => (150 <? s_x s)%float) H5)|]];
        vm_compute; reflexivity.
  - assert (H : strictlyClosest (Math_hypot approxMath) (rightAnchor C, leftAnchor D)
                  (anchorPairs C D)).
    { intros pq Hin. simpl in Hin.
      repeat (destruct Hin as [<-|Hin];
              [first [left; reflexivity | right; vm_compute; reflexivity]|]).
      destruct Hin. }
    destruct (route_symmetric_when_unique approxMath C D (rightAnchor C) (leftAnchor D))
      as (_ & _ & H2 & _ & _ & _ & _ & _ & _ & Hx & _).
    + exact hypot_ieee_even.
    + right; left; reflexivity.
    + right; right; right; left; reflexivity.
    + vm_compute. reflexivity.
    + exact H.
    + split; [exact H2|]. apply Hx. vm_compute. reflexivity.
Defined.

(** ** The history-based editor never stores a duplicate connection *)

Lemma handleEntityClick_rejects_duplicate_witness :
  let ab := mkRelationship "r1" "a" "b" ONE_AND_ONLY_ONE ONE_AND_ONLY_ONE in
  let cur := mkSnapshot [] [ab] in
  let w := onApp (setRelationshipCreation (mkRelationshipCreation true (Some "b")))
             (onApp (setHistory [cur]) initialWorld) in
  currentSnapshot (app w) = Some cur
  /\ history (app (handleEntityClick w cur "a" "r2" w)) = [cur]
  /\ alerts (handleEntityClick w cur "a" "r2" w) = [RelationshipAlreadyExists].
Proof.
  intros ab cur w. split; [reflexivity|].
  rewrite (handleEntityClick_rejects_duplicate w cur "b" "a" "r2");
    [split; reflexivity | reflexivity | reflexivity | reflexivity | discriminate |].
  exists ab. split; [left; reflexivity|]. right. split; reflexivity.
Defined.

Lemma distinctPairs_map (g : Relationship -> Relationship) (rels : list Relationship) :
  (forall r, r_fromId (g r) = r_fromId r /\ r_toId (g r) = r_toId r) ->
  distinctPairs rels -> distinctPairs (List.map g rels).
Proof.
  intros Hg. induction rels as [|r rs IH]; simpl; [trivial|].
  intros (Hloop & Hothers & Hrest). split; [|split].
  - destruct (Hg r) as [-> ->]. exact Hloop.
  - intros r' Hin. apply in_map_iff in Hin. destruct Hin as (r0 & <- & Hin).
    unfold samePair. destruct (Hg r) as [-> ->]. destruct (Hg r0) as [-> ->].
    apply Hothers. exact Hin.
  - apply IH. exact Hrest.
Qed.

Lemma distinctPairs_filter (f : Relationship -> bool) (rels : list Relationship) :
  distinctPairs rels -> distinctPairs (List.filter f rels).
Proof.
  induction rels as [|r rs IH]; simpl; [trivial|].
  intros (Hloop & Hothers & Hrest). destruct (f r); simpl; [|apply IH; exact Hrest].
  split; [exact Hloop|]. split; [|apply IH; exact Hrest].
  intros r' Hin. apply filter_In in Hin. apply Hothers. tauto.
Qed.

Lemma distinctPairs_append (rels : list Relationship) (id a b : string) (c1 c2 : Cardinality) :
  distinctPairs rels -> a <> b -> alreadyExists a b rels = false ->
  distinctPairs (rels ++ [mkRelationship id a b c1 c2]).
Proof.
  intros H Hne Hex. induction rels as [|r rs IH]; simpl.
  - repeat split; [exact Hne | intros r' []].
  - destruct H as (Hloop & Hothers & Hrest).
    simpl in Hex. apply orb_false_elim in Hex. destruct Hex as [Hr Hex].
    split; [exact Hloop|]. split; [|apply IH; assumption].
    intros r' Hin. apply in_app_or in Hin. destruct Hin as [Hin|[<-|[]]].
    + apply Hothers. exact Hin.
    + unfold samePair. simpl. intros [[H1 H2]|[H1 H2]];
        rewrite H1, H2, !String.eqb_refl in Hr; simpl in Hr;
        try discriminate. rewrite orb_true_r in Hr. discriminate.
Qed.

Lemma cycleCardinality_ends (rid : string) (tp : TargetProp) (r : Relationship) :
  r_fromId (cycleCardinality rid tp r) = r_fromId r
  /\ r_toId (cycleCardinality rid tp r) = r_toId r.
Proof.
  unfold cycleCardinality. destruct (String.eqb (r_id r) rid); [|split; reflexivity].
  destruct (nextCardinality (getCardinality tp r)); [|split; reflexivity].
  destruct tp; split; reflexivity.
Qed.

(** A handler either leaves the history alone or replaces the snapshots
    after the cursor by one new snapshot, whose connections are again
    pairwise distinct. *)
Lemma handle_history_cases (M : MathObject) (w : World) (cur : Snapshot) (ev : Event) :
  distinctPairs (relationships cur) ->
  history (app (handle M w cur ev w)) = history (app w)
  \/ exists new,
       history (app (handle M w cur ev w))
       = firstn (historyIndex (app w) + 1) (history (app w)) ++ [new]
       /\ distinctPairs (relationships new).
Proof.
  intros Hcur.
  destruct ev; unfold_handlers; split_conditions; simpl;
    try (left; reflexivity);
    right; eexists; (split; [reflexivity|]); simpl;
    first [ exact Hcur
          | apply distinctPairs_filter; exact Hcur
          | apply distinctPairs_map; [apply cycleCardinality_ends | exact Hcur]
          | apply distinctPairs_append;
            [exact Hcur | apply String.eqb_neq; assumption | assumption] ].
Qed.

Lemma step_distinctPairs (M : MathObject) (w w' : World) (ev : Event) :
  Forall (fun s => distinctPairs (relationships s)) (history (app w)) ->
  step M w ev = Some w' ->
  Forall (fun s => distinctPairs (relationships s)) (history (app w')).
Proof.
  intros Hall Hstep. unfold step in Hstep.
  destruct (currentSnapshot (app w)) as [cur|] eqn:Hcur; [|discriminate].
  injection Hstep as <-. rewrite rerender_app.
  assert (Hgood : distinctPairs (relationships cur)).
  { unfold currentSnapshot in Hcur. apply nth_error_In in Hcur.
    rewrite List.Forall_forall in Hall. apply Hall. exact Hcur. }
  destruct (handle_history_cases M w cur ev Hgood) as [->|(new & -> & Hnew)];
    [exact Hall|].
  apply Forall_app. split.
  - apply Forall_take. exact Hall.
  - constructor; [exact Hnew | constructor].
Qed.

(** In every world the history-based editor reaches from its initial state,
    no snapshot of the history holds a self-loop or two connections on the
    same unordered pair of shapes. *)
Theorem reachable_distinctPairs (M : MathObject) (evs : list Event) (w : World) :
  run M initialWorld evs = Some w ->
  Forall (fun s => distinctPairs (relationships s)) (history (app w)).
Proof.
  assert (Hgen : forall w0,
             Forall (fun s => distinctPairs (relationships s)) (history (app w0)) ->
             run M w0 evs = Some w ->
             Forall (fun s => distinctPairs (relationships s)) (history (app w))).
  { induction evs as [|ev evs IH]; simpl; intros w0 H0 Hrun.
    - injection Hrun as <-. exact H0.
    - destruct (step M w0 ev) as [w1|] eqn:E; [|discriminate].
      apply (IH w1); [|exact Hrun]. apply (step_distinctPairs M w0 w1 ev H0 E). }
  apply Hgen. repeat constructor.
Qed.

Lemma reachable_distinctPairs_witness :
  let M := mkMath hypot_ieee (fun _ _ => 0%float) (fun _ => 1%float) (fun _ => 0%float) in
  let evs := [EvAddEntity EntityT "A" None; EvAddEntity ActionT "B" None;
              EvRelationshipButton; EvEntityClick "A" "r0"; EvEntityClick "B" "r1";
              EvRelationshipButton; EvEntityClick "B" "r2"; EvEntityClick "A" "r3"] in
  exists w,
    run M initialWorld evs = Some w
    /\ alerts w = [RelationshipAlreadyExists]
    /\ Forall (fun s => distinctPairs (relationships s)) (history (app w)).
Proof.
  intros M evs. eexists. split; [vm_compute; reflexivity|].
  split; [reflexivity|].
  apply (reachable_distinctPairs M evs). vm_compute. reflexivity.
Defined.

(** ** Selection and rename state of reachable worlds *)

Lemma handle_selection_exclusive (M : MathObject) (w : World) (cur : Snapshot) (ev : Event) :
  (truthy (selectedEntityId (app w)) = true ->
   truthy (selectedRelationshipId (app w)) = false) ->
  truthy (selectedEntityId (app (handle M w cur ev w))) = true ->
  truthy (selectedRelationshipId (app (handle M w cur ev w))) = false.
Proof.
  intros Hinv.
  destruct ev; unfold_handlers; split_conditions; simpl; intros Ht;
    try reflexivity; try discriminate; try (apply Hinv; assumption);
    try (apply Hinv; reflexivity); congruence.
Qed.

(** In every world the history-based editor reaches from its initial state
    the render finds [history[historyIndex]], a rename in progress excludes
    connection mode, the textarea is mounted only during a rename, and a
    shape and a connection are never selected together. *)
Theorem reachable_wellFormed (M : MathObject) (evs : list Event) (w : World) :
  run M initialWorld evs = Some w ->
  wellFormed w
  /\ (exists cur, currentSnapshot (app w) = Some cur)
  /\ (truthy (selectedEntityId (app w)) = true ->
      truthy (selectedRelationshipId (app w)) = false).
Proof.
  intros Hrun.
  pose proof (run_wellFormed M evs _ _ initialWorld_wellFormed Hrun) as Hwf.
  split; [exact Hwf|]. split; [apply wellFormed_renders; exact Hwf|].
  revert Hrun.
  assert (Hgen : forall w0,
             (truthy (selectedEntityId (app w0)) = true ->
              truthy (selectedRelationshipId (app w0)) = false) ->
             run M w0 evs = Some w ->
             truthy (selectedEntityId (app w)) = true ->
             truthy (selectedRelationshipId (app w)) = false).
  { clear Hwf. induction evs as [|ev evs IH]; simpl; intros w0 H0 Hrun.
    - injection Hrun as <-. exact H0.
    - destruct (step M w0 ev) as [w1|] eqn:E; [|discriminate].
      apply (IH w1); [|exact Hrun].
      unfold step in E. destruct (currentSnapshot (app w0)) as [cur|]; [|discriminate].
      injection E as <-. rewrite rerender_app.
      apply handle_selection_exclusive. exact H0. }
  apply Hgen. intros; reflexivity.
Qed.

Lemma reachable_wellFormed_witness :
  let M := mkMath hypot_ieee (fun _ _ => 0%float) (fun _ => 1%float) (fun _ => 0%float) in
  let evs := [EvAddEntity EntityT "A" None; EvEntityClick "A" "r0"; EvEntityDblClick "A";
              EvTextareaInput "Customer"; EvTextareaKeyDown "Enter" false; EvUndoButton] in
  exists w,
    run M initialWorld evs = Some w
    /\ historyIndex (app w) = 1 /\ length (history (app w)) = 3
    /\ wellFormed w.
Proof.
  intros M evs. eexists. split; [vm_compute; reflexivity|].
  split; [reflexivity|]. split; [reflexivity|].
  apply (reachable_wellFormed M evs). vm_compute. reflexivity.
Defined.

(** ** The SQL forms: quoting, patterns and the two generators *)

Lemma doubleQuotes_paired (s : string) : quotesPaired (doubleQuotes s) = true.
Proof.
  induction s as [|c s IH]; simpl; [reflexivity|].
  destruct (Ascii.eqb c "'"%char) eqn:E; simpl.
  - exact IH.
  - rewrite E. exact IH.
Qed.

Lemma doubleQuotes_injective (s t : string) : doubleQuotes s = doubleQuotes t -> s = t.
Proof.
  revert t. induction s as [|c s IH]; intros [|d t]; simpl.
  - reflexivity.
  - destruct (Ascii.eqb d "'"%char); discriminate.
  - destruct (Ascii.eqb c "'"%char); discriminate.
  - destruct (Ascii.eqb c "'"%char) eqn:Ec; destruct (Ascii.eqb d "'"%char) eqn:Ed; intros H.
    + apply Ascii.eqb_eq in Ec, Ed. subst. injection H as H. f_equal. apply IH. exact H.
    + injection H as H1 H2. subst d. rewrite Ascii.eqb_refl in Ed. discriminate.
    + injection H as H1 H2. subst c. rewrite Ascii.eqb_refl in Ec. discriminate.
    + injection H as H1 H2. subst. f_equal. apply IH. exact H2.
Qed.

Lemma nullable_not_void (r : RegExp) : nullable r = true -> void r = false.
Proof.
  induction r; simpl; intros H; try discriminate; try reflexivity.
  - apply andb_prop in H as [H1 H2]. rewrite IHr1, IHr2; auto.
  - apply orb_prop in H as [H|H]; [rewrite IHr1|rewrite IHr2]; auto using andb_false_r.
Qed.

Lemma void_deriv (r : RegExp) (c : ascii) : void r = true -> void (deriv r c) = true.
Proof.
  induction r; simpl; intros H; try discriminate; try reflexivity.
  - apply orb_prop in H as [H|H].
    + rewrite (IHr1 H). simpl. destruct (nullable r1) eqn:N; [|reflexivity].
      rewrite (nullable_not_void _ N) in H. discriminate.
    + rewrite H, orb_true_r. simpl. destruct (nullable r1); [auto|reflexivity].
  - apply andb_prop in H as [H1 H2]. rewrite IHr1, IHr2; auto.
Qed.

Lemma test_not_void (s : string) : forall r, RegExp_test r s = true -> void r = false.
Proof.
  induction s as [|c s IH]; simpl; intros r H.
  - apply nullable_not_void. exact H.
  - specialize (IH _ H). destruct (void r) eqn:V; [|reflexivity].
    rewrite (void_deriv _ c V) in IH. discriminate.
Qed.

Lemma accepts_deriv (r : RegExp) (c a : ascii) :
  accepts (deriv r c) a = true -> accepts r a = true.
Proof.
  induction r; simpl; intros H; try discriminate.
  - destruct (Ascii.eqb c0 c); discriminate.
  - destruct (isDigit c); discriminate.
  - apply orb_prop in H as [H|H].
    + apply orb_prop in H as [H|H]; [rewrite IHr1|rewrite H, orb_true_r]; auto.
    + destruct (nullable r1); [|discriminate]. rewrite (IHr2 H), orb_true_r. reflexivity.
  - apply orb_prop in H as [H|H]; [rewrite IHr1|rewrite IHr2, orb_true_r]; auto.
  - apply orb_prop in H as [H|H]; auto.
Qed.

Lemma deriv_void (r : RegExp) (c : ascii) : accepts r c = false -> void (deriv r c) = true.
Proof.
  induction r; simpl; intros H; try reflexivity.
  - rewrite H. reflexivity.
  - rewrite H. reflexivity.
  - apply orb_false_elim in H as [H1 H2]. rewrite (IHr1 H1). simpl.
    destruct (nullable r1); [auto|reflexivity].
  - apply orb_false_elim in H as [H1 H2]. rewrite IHr1, IHr2; auto.
  - rewrite (IHr H). reflexivity.
Qed.

Lemma test_accepts (s : string) :
  forall r, RegExp_test r s = true ->
  forall c, In c (list_ascii_of_string s) -> accepts r c = true.
Proof.
  induction s as [|a s IH]; simpl; intros r H c Hc; [destruct Hc|].
  destruct Hc as [<-|Hc].
  - destruct (accepts r a) eqn:A; [reflexivity|].
    pose proof (deriv_void _ _ A) as V.
    rewrite (test_not_void _ _ H) in V. discriminate.
  - apply (accepts_deriv r a). apply (IH _ H). exact Hc.
Qed.

Lemma isNumeric_chars (v : string) (c : ascii) :
  SqlCreateTable.isNumeric v = true -> In c (list_ascii_of_string v) ->
  isDigit c || Ascii.eqb c "-"%char || Ascii.eqb c "."%char = true.
Proof.
  intros H Hc. pose proof (test_accepts _ _ H c Hc) as A.
  unfold numericPattern, Opt, Plus in A. cbn [accepts] in A.
  rewrite (Ascii.eqb_sym c "-"%char), (Ascii.eqb_sym c "."%char).
  destruct (isDigit c), (Ascii.eqb "-"%char c), (Ascii.eqb "."%char c);
    try reflexivity; discriminate A.
Qed.

Lemma upperAscii_not_lower (c : ascii) : isLowerAscii (upperAscii c) = false.
Proof. destruct c as [[] [] [] [] [] [] [] []]; vm_compute; reflexivity. Qed.

Lemma toUpperCase_no_lower (s : string) (c : ascii) :
  In c (list_ascii_of_string (toUpperCase s)) -> isLowerAscii c = false.
Proof.
  induction s as [|a s IH]; simpl; [intros []|].
  intros [<-|H]; [apply upperAscii_not_lower|exact (IH H)].
Qed.

Lemma isKeyword_upper (Str : StringObject) (v : string) :
  (forall s c, In c (list_ascii_of_string (String_toUpperCase Str s)) -> isLowerAscii c = false) ->
  SqlCreateTable.isKeyword Str v = String.eqb (String_toUpperCase Str v) "CURRENT_TIMESTAMP".
Proof.
  intros Hupper. unfold SqlCreateTable.isKeyword. simpl.
  assert (Hno : forall k c, In c (list_ascii_of_string k) -> isLowerAscii c = true ->
                String.eqb (String_toUpperCase Str v) k = false).
  { intros k c Hin Hlow. destruct (String.eqb_spec (String_toUpperCase Str v) k) as [E|]; [|reflexivity].
    rewrite <- E in Hin. rewrite (Hupper _ _ Hin) in Hlow. discriminate. }
  rewrite (Hno "true" "t"%char), (Hno "false" "f"%char), (Hno "null" "n"%char);
    try (simpl; tauto); try reflexivity.
  rewrite !orb_false_r. reflexivity.
Qed.

(** Doubling the quotes of a default value leaves no unpaired quote in
    the literal, and loses nothing: two values with the same doubled form are
    the same value. *)
Theorem doubleQuotes_lossless (s t : string) :
  quotesPaired (doubleQuotes s) = true
  /\ (doubleQuotes s = doubleQuotes t -> s = t).
Proof.
  split; [apply doubleQuotes_paired|apply doubleQuotes_injective].
Qed.

(** Whatever the default value of a column, its [DEFAULT] clause is
    empty (blank value), or the value itself when it is a numeral (then it
    holds only digits, [-] and [.]) or a keyword, or a quoted literal whose
    body is the value with every quote doubled, so that no quote of the value
    ends the literal. *)
Theorem defaultClause_shapes (Str : StringObject) (v : string) :
  let clause := SqlCreateTable.defaultClause Str v in
  (String_trim Str v = "" /\ clause = "")
  \/ (SqlCreateTable.isNumeric v = true /\ clause = (" DEFAULT " ++ v)%string
      /\ forall c, In c (list_ascii_of_string v) ->
           isDigit c || Ascii.eqb c "-"%char || Ascii.eqb c "."%char = true)
  \/ (SqlCreateTable.isKeyword Str v = true /\ clause = (" DEFAULT " ++ v)%string)
  \/ (exists body, clause = (" DEFAULT '" ++ body ++ "'")%string
      /\ body = doubleQuotes v /\ quotesPaired body = true).
Proof.
  unfold SqlCreateTable.defaultClause, nonEmpty.
  destruct (String.eqb_spec (String_trim Str v) "") as [E|E]; simpl.
  - left. split; [exact E|reflexivity].
  - right. destruct (SqlCreateTable.isNumeric v) eqn:N; simpl.
    + left. split; [reflexivity|]. split; [reflexivity|].
      intros c Hc. exact (isNumeric_chars v c N Hc).
    + right. destruct (SqlCreateTable.isKeyword Str v) eqn:K.
      * left. split; reflexivity.
      * right. exists (doubleQuotes v). split; [reflexivity|]. split; [reflexivity|].
        apply doubleQuotes_paired.
Qed.

(** On an engine whose [toUpperCase] yields no lower-case ASCII letter,
    the entries ['true'], ['false'] and ['null'] of the keyword list never
    match: a default value that is not blank and not a numeral is written
    bare exactly when its upper-casing is [CURRENT_TIMESTAMP], and as a
    quoted literal otherwise. *)
Theorem defaultClause_keyword (Str : StringObject) (v : string) :
  (forall s c, In c (list_ascii_of_string (String_toUpperCase Str s)) -> isLowerAscii c = false) ->
  String_trim Str v <> "" ->
  SqlCreateTable.isNumeric v = false ->
  SqlCreateTable.defaultClause Str v
  = if String.eqb (String_toUpperCase Str v) "CURRENT_TIMESTAMP"
    then (" DEFAULT " ++ v)%string
    else (" DEFAULT '" ++ doubleQuotes v ++ "'")%string.
Proof.
  intros Hupper Hne Hnum. unfold SqlCreateTable.defaultClause, nonEmpty.
  destruct (String.eqb_spec (String_trim Str v) "") as [E|E]; [contradiction|].
  simpl. rewrite Hnum, (isKeyword_upper Str v Hupper). reflexivity.
Qed.

Lemma defaultClause_keyword_witness :
  String_trim asciiStrings "true" <> ""
  /\ SqlCreateTable.isNumeric "true" = false
  /\ SqlCreateTable.defaultClause asciiStrings "true" = " DEFAULT 'true'".
Proof.
  split; [discriminate|]. split; [reflexivity|].
  rewrite (defaultClause_keyword asciiStrings "true");
    [reflexivity|exact toUpperCase_no_lower|discriminate|reflexivity].
Defined.

Lemma concat_cons_nonempty (sep : string) (c : ascii) (x : string) (l : list string) :
  String.concat sep (String c x :: l) <> "".
Proof. destruct l; simpl; discriminate. Qed.

Lemma existsb_negb_forallb (A : Type) (f : A -> bool) (l : list A) :
  existsb (fun a => negb (f a)) l = negb (forallb f l).
Proof.
  induction l as [|a l IH]; simpl; [reflexivity|].
  rewrite IH. destruct (f a); reflexivity.
Qed.

Lemma createTable_generate_valid (Str : StringObject) (st0 : SqlCreateTable.TableState)
    (w : SqlCreateTable.World) :
  SqlCreateTable.valid Str st0 = true ->
  SqlCreateTable.handleGenerateSql Str st0 w
  = SqlCreateTable.setGeneratedSql
      (SqlCreateTable.createTableSql Str (SqlCreateTable.tableName st0)
         (SqlCreateTable.columns st0)) w.
Proof.
  unfold SqlCreateTable.valid, SqlCreateTable.handleGenerateSql. intros H.
  apply andb_prop in H as [H H3]. apply andb_prop in H as [H1 H2].
  rewrite H1, existsb_negb_forallb, H2, H3. reflexivity.
Qed.

Lemma createTable_generate_invalid (Str : StringObject) (st0 : SqlCreateTable.TableState)
    (w : SqlCreateTable.World) :
  SqlCreateTable.valid Str st0 = false ->
  exists a, SqlCreateTable.handleGenerateSql Str st0 w = SqlCreateTable.alert a w.
Proof.
  unfold SqlCreateTable.valid, SqlCreateTable.handleGenerateSql. intros H.
  rewrite existsb_negb_forallb.
  destruct (nonEmpty (String_trim Str (SqlCreateTable.tableName st0))); simpl in *;
    [|eexists; reflexivity].
  destruct (forallb _ (SqlCreateTable.columns st0)); simpl in *; [|eexists; reflexivity].
  rewrite H. eexists; reflexivity.
Qed.

(** A press on the generate button of the create-table form either
    passes the three checks, and then stores the statement, shows no alert,
    and the statement has at least one column and a non-empty primary-key
    list; or it fails one of them, and then shows exactly one alert and
    leaves the form, the old statement included, as it was. *)
Theorem createTable_generate_outcome (Str : StringObject) (w : SqlCreateTable.World) :
  let st := SqlCreateTable.tableState w in
  let w' := SqlCreateTable.step Str w SqlCreateTable.EvGenerateSql in
  if SqlCreateTable.valid Str st then
    w' = SqlCreateTable.mkWorld
           (SqlCreateTable.mkTableState (SqlCreateTable.tableName st) (SqlCreateTable.columns st)
              (SqlCreateTable.createTableSql Str (SqlCreateTable.tableName st)
                 (SqlCreateTable.columns st)))
           (SqlCreateTable.alerts w)
    /\ SqlCreateTable.columns st <> []
    /\ SqlCreateTable.pkColumns (SqlCreateTable.columns st) <> ""
  else
    SqlCreateTable.tableState w' = st
    /\ exists a, SqlCreateTable.alerts w' = SqlCreateTable.alerts w ++ [a].
Proof.
  intros st w'. unfold w', SqlCreateTable.step. cbn [SqlCreateTable.handle]. fold st.
  destruct (SqlCreateTable.valid Str st) eqn:V.
  - rewrite (createTable_generate_valid Str st w V). split; [reflexivity|].
    unfold SqlCreateTable.valid in V. apply andb_prop in V as [_ Hpk].
    assert (Hf : List.filter SqlCreateTable.c_isPk (SqlCreateTable.columns st) <> []).
    { intros E. apply existsb_exists in Hpk as (c & Hc & Hp).
      assert (Hin : In c (List.filter SqlCreateTable.c_isPk (SqlCreateTable.columns st)))
        by (apply filter_In; split; assumption).
      rewrite E in Hin. destruct Hin. }
    split.
    + intros E. rewrite E in Hf. apply Hf. reflexivity.
    + unfold SqlCreateTable.pkColumns.
      destruct (List.filter SqlCreateTable.c_isPk (SqlCreateTable.columns st)) as [|c l];
        [contradiction|].
      cbn [List.map]. apply (concat_cons_nonempty _ "`"%char).
  - destruct (createTable_generate_invalid Str st w V) as [a Ha]. rewrite Ha.
    split; [reflexivity|]. exists a. reflexivity.
Qed.

Lemma createTable_step_in_sync (Str : StringObject) (w : SqlCreateTable.World)
    (ev : SqlCreateTable.Event) :
  (let st := SqlCreateTable.tableState w in
   SqlCreateTable.generatedSql st = ""
   \/ (SqlCreateTable.valid Str st = true
       /\ SqlCreateTable.generatedSql st
          = SqlCreateTable.createTableSql Str (SqlCreateTable.tableName st)
              (SqlCreateTable.columns st))) ->
  let st := SqlCreateTable.tableState (SqlCreateTable.step Str w ev) in
  SqlCreateTable.generatedSql st = ""
  \/ (SqlCreateTable.valid Str st = true
      /\ SqlCreateTable.generatedSql st
         = SqlCreateTable.createTableSql Str (SqlCreateTable.tableName st)
             (SqlCreateTable.columns st)).
Proof.
  intros H. unfold SqlCreateTable.step.
  destruct ev; cbn [SqlCreateTable.handle]; try (left; reflexivity).
  destruct (SqlCreateTable.valid Str (SqlCreateTable.tableState w)) eqn:V.
  - rewrite (createTable_generate_valid Str _ w V). right. simpl. split; [exact V|reflexivity].
  - destruct (createTable_generate_invalid Str _ w V) as [a Ha]. rewrite Ha. exact H.
Qed.

(** After any sequence of actions on the create-table form, the
    statement on display is either none or the statement generated from
    exactly what the form now holds, which then passes the three checks:
    an edit never leaves a statement of an older form on display. *)
Theorem createTable_sql_in_sync (Str : StringObject) (uuid : string)
    (evs : list SqlCreateTable.Event) :
  let st := SqlCreateTable.tableState
              (SqlCreateTable.run Str (SqlCreateTable.initialWorld uuid) evs) in
  SqlCreateTable.generatedSql st = ""
  \/ (SqlCreateTable.valid Str st = true
      /\ SqlCreateTable.generatedSql st
         = SqlCreateTable.createTableSql Str (SqlCreateTable.tableName st)
             (SqlCreateTable.columns st)).
Proof.
  unfold SqlCreateTable.run.
  assert (H0 : let st := SqlCreateTable.tableState (SqlCreateTable.initialWorld uuid) in
               SqlCreateTable.generatedSql st = ""
               \/ (SqlCreateTable.valid Str st = true
                   /\ SqlCreateTable.generatedSql st
                      = SqlCreateTable.createTableSql Str (SqlCreateTable.tableName st)
                          (SqlCreateTable.columns st))) by (left; reflexivity).
  revert H0. generalize (SqlCreateTable.initialWorld uuid).
  induction evs as [|ev evs IH]; intros w H; [exact H|].
  cbn [fold_left]. apply IH. apply createTable_step_in_sync. exact H.
Qed.

Lemma filter_fresh_column (uuid : string) (cols : list SqlCreateTable.Column) :
  (forall c, In c cols -> SqlCreateTable.c_id c <> uuid) ->
  List.filter (fun c => negb (String.eqb (SqlCreateTable.c_id c) uuid)) cols = cols.
Proof.
  induction cols as [|c cols IH]; intros H; simpl; [reflexivity|].
  destruct (String.eqb_spec (SqlCreateTable.c_id c) uuid) as [E|E].
  - exfalso. apply (H c); [left; reflexivity|exact E].
  - simpl. f_equal. apply IH. intros c' Hc'. apply H. right. exact Hc'.
Qed.

(** Adding a column under an id that no column of the form has and
    then removing the column with that id gives back the columns the form
    had, in their order; the table name is kept and no statement is on
    display. *)
Theorem addColumn_removeColumn (Str : StringObject) (w : SqlCreateTable.World) (uuid : string) :
  (forall c, In c (SqlCreateTable.columns (SqlCreateTable.tableState w)) ->
             SqlCreateTable.c_id c <> uuid) ->
  SqlCreateTable.run Str w [SqlCreateTable.EvAddColumn uuid; SqlCreateTable.EvRemoveColumn uuid]
  = SqlCreateTable.mkWorld
      (SqlCreateTable.mkTableState (SqlCreateTable.tableName (SqlCreateTable.tableState w))
         (SqlCreateTable.columns (SqlCreateTable.tableState w)) "")
      (SqlCreateTable.alerts w).
Proof.
  intros Hfresh. unfold SqlCreateTable.run. cbn [fold_left].
  unfold SqlCreateTable.step. cbn [SqlCreateTable.handle].
  unfold SqlCreateTable.handleRemoveColumn, SqlCreateTable.handleAddColumn,
    SqlCreateTable.setColumns, SqlCreateTable.setTableState.
  cbn [SqlCreateTable.tableState SqlCreateTable.columns SqlCreateTable.tableName
       SqlCreateTable.alerts].
  rewrite List.filter_app, (filter_fresh_column uuid _ Hfresh). cbn [List.filter].
  unfold SqlCreateTable.newColumn at 1. cbn [SqlCreateTable.c_id].
  rewrite String.eqb_refl. cbn [negb]. rewrite app_nil_r. reflexivity.
Qed.

Lemma addColumn_removeColumn_witness :
  (forall c, In c (SqlCreateTable.columns
                     (SqlCreateTable.tableState (SqlCreateTable.initialWorld "c1"))) ->
             SqlCreateTable.c_id c <> "c2")
  /\ SqlCreateTable.run asciiStrings (SqlCreateTable.initialWorld "c1")
       [SqlCreateTable.EvAddColumn "c2"; SqlCreateTable.EvRemoveColumn "c2"]
     = SqlCreateTable.initialWorld "c1".
Proof.
  assert (H : forall c, In c (SqlCreateTable.columns
                     (SqlCreateTable.tableState (SqlCreateTable.initialWorld "c1"))) ->
             SqlCreateTable.c_id c <> "c2").
  { intros c [<-|[]]. discriminate. }
  split; [exact H|].
  rewrite (addColumn_removeColumn asciiStrings (SqlCreateTable.initialWorld "c1") "c2" H).
  reflexivity.
Defined.

Lemma alterTable_step_in_sync (Str : StringObject) (w : SqlAlterTable.World)
    (ev : SqlAlterTable.Event) :
  (let st := SqlAlterTable.alterState w in
   SqlAlterTable.generatedSql st = ""
   \/ (SqlAlterTable.valid Str st = true
       /\ SqlAlterTable.generatedSql st = SqlAlterTable.alterTableSql st)) ->
  let st := SqlAlterTable.alterState (SqlAlterTable.step Str w ev) in
  SqlAlterTable.generatedSql st = ""
  \/ (SqlAlterTable.valid Str st = true
      /\ SqlAlterTable.generatedSql st = SqlAlterTable.alterTableSql st).
Proof.
  intros H. unfold SqlAlterTable.step. destruct ev as [fv|]; cbn [SqlAlterTable.handle].
  - left. destruct fv; reflexivity.
  - unfold SqlAlterTable.handleGenerateSql.
    destruct (nonEmpty (String_trim Str (SqlAlterTable.tableName (SqlAlterTable.alterState w))))
      eqn:E1; cbn [negb]; [|exact H].
    destruct (nonEmpty (String_trim Str (SqlAlterTable.columnName (SqlAlterTable.alterState w))))
      eqn:E2; cbn [negb]; [|exact H].
    right. unfold SqlAlterTable.valid. cbn. rewrite E1, E2. split; [reflexivity|].
    unfold SqlAlterTable.alterTableSql. cbn.
    destruct (SqlAlterTable.alterType (SqlAlterTable.alterState w)); reflexivity.
Qed.

(** After any sequence of actions on the alter-table form, the
    statement on display is either none or the statement generated from
    exactly what the form now holds, with a table name and a column name
    that are not blank. *)
Theorem alterTable_sql_in_sync (Str : StringObject) (evs : list SqlAlterTable.Event) :
  let st := SqlAlterTable.alterState (SqlAlterTable.run Str SqlAlterTable.initialWorld evs) in
  SqlAlterTable.generatedSql st = ""
  \/ (SqlAlterTable.valid Str st = true
      /\ SqlAlterTable.generatedSql st = SqlAlterTable.alterTableSql st).
Proof.
  unfold SqlAlterTable.run.
  assert (H0 : let st := SqlAlterTable.alterState SqlAlterTable.initialWorld in
               SqlAlterTable.generatedSql st = ""
               \/ (SqlAlterTable.valid Str st = true
                   /\ SqlAlterTable.generatedSql st = SqlAlterTable.alterTableSql st))
    by (left; reflexivity).
  revert H0. generalize SqlAlterTable.initialWorld.
  induction evs as [|ev evs IH]; intros w H; [exact H|].
  cbn [fold_left]. apply IH. apply alterTable_step_in_sync. exact H.
Qed.

(** ** The create-table form of the map-based editor *)

Lemma colDef_isFk (v : bool) (c : CreateTableForm.Column) :
  CreateTableForm.colDef (CreateTableForm.withField (CreateTableForm.isFk v) c)
  = CreateTableForm.colDef c.
Proof. reflexivity. Qed.

Lemma filter_isPk_isFk (f : CreateTableForm.Column -> bool) (cols : list CreateTableForm.Column) :
  List.map CreateTableForm.c_name
    (List.filter CreateTableForm.c_isPk
       (List.map (fun c => CreateTableForm.withField (CreateTableForm.isFk (f c)) c) cols))
  = List.map CreateTableForm.c_name (List.filter CreateTableForm.c_isPk cols).
Proof.
  induction cols as [|c cols IH]; simpl; [reflexivity|].
  destruct c as [n t pk fk nn u d]; simpl in *. destruct pk; simpl; rewrite IH; reflexivity.
Qed.

(** The foreign-key checkbox has no effect on the statement: two
    forms whose columns differ only in [isFk] generate the same text. *)
Theorem createTableSql_ignores_isFk (tableName : string) (f : CreateTableForm.Column -> bool)
    (cols : list CreateTableForm.Column) :
  CreateTableForm.createTableSql tableName
    (List.map (fun c => CreateTableForm.withField (CreateTableForm.isFk (f c)) c) cols)
  = CreateTableForm.createTableSql tableName cols.
Proof.
  unfold CreateTableForm.createTableSql.
  assert (H1 : List.map CreateTableForm.colDef
                 (List.map (fun c => CreateTableForm.withField (CreateTableForm.isFk (f c)) c) cols)
               = List.map CreateTableForm.colDef cols).
  { rewrite List.map_map. apply List.map_ext. intros c. apply colDef_isFk. }
  assert (H2 : forall l : list CreateTableForm.Column,
               List.map (fun c => ("`" ++ CreateTableForm.c_name c ++ "`")%string) l
               = List.map (fun n => ("`" ++ n ++ "`")%string) (List.map CreateTableForm.c_name l)).
  { intros l. rewrite List.map_map. reflexivity. }
  cbv zeta. rewrite H1, !H2, filter_isPk_isFk. reflexivity.
Qed.

Lemma deref_length (h : list CreateTableForm.Column) (refs : list nat)
    (cols : list CreateTableForm.Column) :
  CreateTableForm.deref h refs = Some cols -> length cols = length refs.
Proof.
  revert cols. induction refs as [|r refs IH]; intros cols; simpl.
  - intros [= <-]. reflexivity.
  - destruct (h !! r); [|discriminate].
    destruct (CreateTableForm.deref h refs); [|discriminate].
    intros [= <-]. simpl. f_equal. apply IH. reflexivity.
Qed.

Lemma deref_insert_other (h : list CreateTableForm.Column) (refs : list nat) (r : nat)
    (c : CreateTableForm.Column) :
  ~ In r refs -> CreateTableForm.deref (<[r := c]> h) refs = CreateTableForm.deref h refs.
Proof.
  induction refs as [|r' refs IH]; intros Hn; simpl; [reflexivity|].
  rewrite IH by (intros H; apply Hn; right; exact H).
  rewrite list_lookup_insert_ne by (intros ->; apply Hn; left; reflexivity).
  reflexivity.
Qed.

Lemma deref_insert (h : list CreateTableForm.Column) (refs : list nat) :
  forall (cols : list CreateTableForm.Column) (i r : nat) (c : CreateTableForm.Column),
  NoDup refs ->
  CreateTableForm.deref h refs = Some cols ->
  refs !! i = Some r ->
  CreateTableForm.deref (<[r := c]> h) refs = Some (<[i := c]> cols).
Proof.
  induction refs as [|r' refs IH]; intros cols i r c Hnd Hd Hi; [discriminate|].
  simpl in Hd. destruct (h !! r') as [c'|] eqn:Hr'; [|discriminate].
  destruct (CreateTableForm.deref h refs) as [cs|] eqn:Hcs; [|discriminate].
  injection Hd as <-. inversion Hnd as [|? ? Hnotin Hnd']; subst.
  destruct i as [|i]; simpl in Hi.
  - injection Hi as ->. simpl.
    rewrite list_lookup_insert_eq by (apply lookup_lt_Some in Hr'; exact Hr').
    rewrite deref_insert_other, Hcs; [reflexivity|].
    intros Hin. apply Hnotin, list_elem_of_In, Hin.
  - simpl. assert (r' <> r).
    { intros ->. apply Hnotin. eapply list_elem_of_lookup_2. exact Hi. }
    rewrite list_lookup_insert_ne by congruence. rewrite Hr'.
    rewrite (IH cs i r c Hnd' eq_refl Hi). reflexivity.
Qed.

Lemma removeAt_from (index : nat) (refs : list nat) :
  forall k,
  List.map snd (List.filter (fun ir : nat * nat => negb (fst ir =? index)%nat)
                  (combine (seq k (length refs)) refs))
  = if (index <? k)%nat then refs
    else firstn (index - k) refs ++ skipn (S (index - k)) refs.
Proof.
  induction refs as [|r refs IH]; intros k.
  - simpl. destruct (index <? k)%nat; [reflexivity|]. destruct (index - k); reflexivity.
  - cbn [length seq combine List.filter fst].
    destruct (Nat.eqb_spec k index) as [E|E]; cbn [negb].
    + rewrite IH. subst k.
      replace (index <? S index)%nat with true by (symmetry; apply Nat.ltb_lt; lia).
      rewrite Nat.ltb_irrefl, Nat.sub_diag. reflexivity.
    + cbn [List.map snd]. rewrite IH.
      destruct (Nat.ltb_spec index k) as [L|L].
      * replace (index <? S k)%nat with true by (symmetry; apply Nat.ltb_lt; lia). reflexivity.
      * replace (index <? S k)%nat with false by (symmetry; apply Nat.ltb_ge; lia).
        replace (index - k) with (S (index - S k)) by lia. reflexivity.
Qed.

Lemma removeAt_spec (index : nat) (refs : list nat) :
  CreateTableForm.removeAt index refs = firstn index refs ++ skipn (S index) refs.
Proof.
  unfold CreateTableForm.removeAt. rewrite removeAt_from. simpl.
  rewrite Nat.sub_0_r. reflexivity.
Qed.

(** [removeColumn] takes out exactly the row at the given position
    and keeps the other rows in their order; at a position past the last
    row it removes nothing.  The table name and the column objects are not
    touched. *)
Theorem removeColumn_at (w : CreateTableForm.World) (index : nat) :
  let w' := CreateTableForm.step w (CreateTableForm.EvRemoveColumn index) in
  CreateTableForm.columns w'
  = firstn index (CreateTableForm.columns w) ++ skipn (S index) (CreateTableForm.columns w)
  /\ (length (CreateTableForm.columns w) <= index ->
      CreateTableForm.columns w' = CreateTableForm.columns w)
  /\ CreateTableForm.heap w' = CreateTableForm.heap w
  /\ CreateTableForm.tableName w' = CreateTableForm.tableName w
  /\ CreateTableForm.generatedSql w' = CreateTableForm.generatedSql w.
Proof.
  cbn. rewrite removeAt_spec. split; [reflexivity|].
  split; [|repeat split].
  intros H. rewrite firstn_all2 by exact H. rewrite skipn_all2 by lia. apply app_nil_r.
Qed.

Lemma createTableForm_step_wellFormed (w : CreateTableForm.World) (ev : CreateTableForm.Event) :
  CreateTableForm.wellFormed w -> CreateTableForm.wellFormed (CreateTableForm.step w ev).
Proof.
  intros [Hnd Hb]. unfold CreateTableForm.step.
  destruct ev as [v|i fv|i| |]; cbn [CreateTableForm.handle].
  - split; assumption.
  - unfold CreateTableForm.updateColumn.
    destruct (CreateTableForm.columns w !! i) as [r|]; [|split; assumption].
    destruct (CreateTableForm.heap w !! r) as [c|]; [|split; assumption].
    split; [exact Hnd|]. cbn. rewrite length_insert. exact Hb.
  - cbn. rewrite removeAt_spec, <- delete_take_drop. split.
    + apply (sublist_NoDup _ _ Hnd), sublist_delete.
    + apply Forall_delete. exact Hb.
  - unfold CreateTableForm.addColumn, CreateTableForm.setColumns, CreateTableForm.wellFormed.
    cbn [CreateTableForm.columns CreateTableForm.heap]. split.
    + apply NoDup_app. split; [exact Hnd|]. split; [|apply NoDup_singleton].
      intros x Hx Hx'. apply list_elem_of_singleton in Hx'. subst x.
      rewrite Forall_forall in Hb. specialize (Hb _ Hx). lia.
    + rewrite length_app. apply Forall_app. split.
      * eapply Forall_impl; [exact Hb|]. intros x Hx. cbn in Hx. lia.
      * constructor; [cbn; lia|constructor].
  - unfold CreateTableForm.generateSQL.
    destruct (CreateTableForm.deref (CreateTableForm.heap w) (CreateTableForm.columns w));
      split; assumption.
Qed.

Lemma createTableForm_run_wellFormed (evs : list CreateTableForm.Event) :
  forall w, CreateTableForm.wellFormed w -> CreateTableForm.wellFormed (CreateTableForm.run w evs).
Proof.
  unfold CreateTableForm.run. induction evs as [|ev evs IH]; intros w H; [exact H|].
  cbn [fold_left]. apply IH, createTableForm_step_wellFormed, H.
Qed.

Lemma createTableForm_initial_wellFormed : CreateTableForm.wellFormed CreateTableForm.initialWorld.
Proof.
  split; cbn.
  - apply NoDup_singleton.
  - constructor; [lia|constructor].
Qed.

Lemma deref_total (h : list CreateTableForm.Column) (refs : list nat) :
  Forall (fun r => r < length h) refs -> exists cols, CreateTableForm.deref h refs = Some cols.
Proof.
  induction refs as [|r refs IH]; intros H; [exists []; reflexivity|].
  inversion H as [|? ? Hr Hrs]; subst. destruct (IH Hrs) as [cs Hcs].
  destruct (lookup_lt_is_Some_2 h r Hr) as [c Hc].
  exists (c :: cs). simpl. rewrite Hc, Hcs. reflexivity.
Qed.

Lemma deref_lookup (h : list CreateTableForm.Column) (refs : list nat) :
  forall (cols : list CreateTableForm.Column) (i : nat),
  CreateTableForm.deref h refs = Some cols ->
  cols !! i = match refs !! i with Some r => h !! r | None => None end.
Proof.
  induction refs as [|r refs IH]; intros cols i Hd; simpl in Hd.
  - injection Hd as <-. destruct i; reflexivity.
  - destruct (h !! r) as [c|] eqn:Hr; [|discriminate].
    destruct (CreateTableForm.deref h refs) as [cs|] eqn:Hcs; [|discriminate].
    injection Hd as <-. destruct i as [|i]; simpl; [symmetry; exact Hr|].
    apply IH. reflexivity.
Qed.

(** In every state the create-table form reaches, the column array
    reads through the heap without a dangling reference, and
    [updateColumn(index, field, value)] writes the field into the object at
    that position: the array keeps the same objects, so that the array of
    the previous state shows the new value too, the row at [index] has the
    field set and every other row is as before.  At a position past the
    last row the handler throws and nothing changes. *)
Theorem updateColumn_in_place (evs : list CreateTableForm.Event) (index : nat)
    (fv : CreateTableForm.FieldValue) :
  let w := CreateTableForm.run CreateTableForm.initialWorld evs in
  let w' := CreateTableForm.step w (CreateTableForm.EvUpdateColumn index fv) in
  exists cols,
    CreateTableForm.deref (CreateTableForm.heap w) (CreateTableForm.columns w) = Some cols
    /\ match cols !! index with
       | Some c =>
         CreateTableForm.columns w' = CreateTableForm.columns w
         /\ CreateTableForm.deref (CreateTableForm.heap w') (CreateTableForm.columns w)
            = Some (<[index := CreateTableForm.withField fv c]> cols)
         /\ CreateTableForm.tableName w' = CreateTableForm.tableName w
         /\ CreateTableForm.generatedSql w' = CreateTableForm.generatedSql w
       | None => w' = w
       end.
Proof.
  intros w w'.
  pose proof (createTableForm_run_wellFormed evs _ createTableForm_initial_wellFormed) as [Hnd Hb].
  fold w in Hnd, Hb. destruct (deref_total _ _ Hb) as [cols Hd].
  exists cols. split; [exact Hd|].
  rewrite (deref_lookup _ _ _ index Hd). unfold w', CreateTableForm.step.
  cbn [CreateTableForm.handle]. unfold CreateTableForm.updateColumn.
  destruct (CreateTableForm.columns w !! index) as [r|] eqn:Hi; [|reflexivity].
  destruct (CreateTableForm.heap w !! r) as [c|] eqn:Hr; [|reflexivity].
  cbn. split; [reflexivity|]. split; [|split; reflexivity].
  exact (deref_insert _ _ cols index r _ Hnd Hd Hi).
Qed.

(** ** History-based editor: what one event can do to the history *)

Lemma handle_history_shape (M : MathObject) (w : World) (cur : Snapshot) (ev : Event) :
  historyIndex (app w) < length (history (app w)) ->
  let i := historyIndex (app w) in
  let a' := app (handle M w cur ev w) in
  (history a' = history (app w)
   /\ (historyIndex a' = i \/ historyIndex a' + 1 = i \/ historyIndex a' = i + 1)
   /\ historyIndex a' < length (history (app w)))
  \/ (exists new,
        history a' = firstn (i + 1) (history (app w)) ++ [new]
        /\ historyIndex a' = i + 1).
Proof.
  intros Hlt i a'. unfold a', i.
  destruct ev; unfold_handlers; split_conditions; ltb_facts; simpl;
    first [ left; split; [reflexivity|]; split; [|lia]; lia
          | right; eexists; split; [reflexivity|];
            rewrite firstn_succ_length by exact Hlt; reflexivity ].
Qed.

(** No event rewrites the past.  From a state whose cursor is inside
    the history, an event either leaves the list of snapshots as it is and
    moves the cursor by at most one position inside it, or it keeps the
    snapshots up to the cursor, drops the ones after it, appends one new
    snapshot and puts the cursor on it. *)
Theorem event_history_shape (M : MathObject) (w w' : World) (ev : Event) :
  historyIndex (app w) < length (history (app w)) ->
  step M w ev = Some w' ->
  let i := historyIndex (app w) in
  (history (app w') = history (app w)
   /\ (historyIndex (app w') = i \/ historyIndex (app w') + 1 = i
       \/ historyIndex (app w') = i + 1)
   /\ historyIndex (app w') < length (history (app w)))
  \/ (exists new,
        history (app w') = firstn (i + 1) (history (app w)) ++ [new]
        /\ historyIndex (app w') = i + 1
        /\ currentSnapshot (app w') = Some new).
Proof.
  intros Hlt Hstep i. unfold step in Hstep.
  destruct (currentSnapshot (app w)) as [cur|]; [|discriminate].
  injection Hstep as <-. rewrite rerender_app.
  destruct (handle_history_shape M w cur ev Hlt) as [H|(new & Hh & Hi)].
  - left. exact H.
  - right. exists new. split; [exact Hh|]. split; [exact Hi|].
    unfold currentSnapshot. rewrite Hh, Hi.
    rewrite nth_error_app2 by (rewrite firstn_succ_length by exact Hlt; lia).
    rewrite firstn_succ_length by exact Hlt. rewrite Nat.sub_diag. reflexivity.
Qed.

Lemma event_history_shape_witness :
  let M := mkMath hypot_ieee (fun _ _ => 0%float) (fun _ => 1%float) (fun _ => 0%float) in
  let w := initialWorld in
  let ev := EvAddEntity EntityT "A" None in
  historyIndex (app w) < length (history (app w))
  /\ exists w', step M w ev = Some w' /\ historyIndex (app w') = 1.
Proof.
  intros M w ev. split; [simpl; lia|].
  eexists. split; [reflexivity|].
  assert (Hlt : historyIndex (app w) < length (history (app w))) by (simpl; lia).
  destruct (event_history_shape M w _ ev Hlt eq_refl) as [(_ & _ & H)|(new & _ & Hi & _)].
  - simpl in H. lia.
  - exact Hi.
Defined.

(** After a commit nothing can be redone: in the state a commit
    leaves, the cursor is on the last snapshot and the handler of Redo
    writes nothing. *)
Theorem redo_disabled_after_commit (st st' : AppState) (new : Snapshot) :
  historyIndex st < length (history st) ->
  committed st new st' ->
  historyIndex st' + 1 = length (history st')
  /\ forall p, handleRedo st' p = p.
Proof.
  intros Hlt (Hh & Hi & _).
  assert (Hlen : historyIndex st' + 1 = length (history st')).
  { rewrite Hh, Hi, length_app, firstn_succ_length by exact Hlt. simpl. lia. }
  split; [exact Hlen|]. intros p. unfold handleRedo.
  replace (historyIndex st' <? length (history st') - 1)%nat with false; [reflexivity|].
  symmetry. apply Nat.ltb_ge. lia.
Qed.

Lemma redo_disabled_after_commit_witness :
  let st := initialState in
  let cur := mkSnapshot [] [] in
  let e := mkEntity "A" 0%float 0%float 150%float 75%float "Entity 1" EntityT in
  let st' := updateState st cur (Fn (fun prev => prev ++ [e])) (Val []) st in
  historyIndex st < length (history st)
  /\ committed st (mkSnapshot [e] []) st'
  /\ handleRedo st' st' = st'.
Proof.
  intros st cur e st'.
  assert (Hlt : historyIndex st < length (history st)) by (simpl; lia).
  assert (Hc : committed st (mkSnapshot [e] []) st') by (repeat split).
  split; [exact Hlt|]. split; [exact Hc|].
  exact (proj2 (redo_disabled_after_commit st st' _ Hlt Hc) st').
Defined.

Lemma setHistoryIndex_same (st : AppState) : setHistoryIndex (historyIndex st) st = st.
Proof. destruct st; reflexivity. Qed.

Lemma step_undo (M : MathObject) (w : World) :
  historyIndex (app w) < length (history (app w)) ->
  exists w1, step M w EvUndoButton = Some w1
             /\ app w1 = setHistoryIndex (historyIndex (app w) - 1) (app w).
Proof.
  intros Hlt. unfold step, currentSnapshot.
  destruct (nth_error (history (app w)) (historyIndex (app w))) eqn:E;
    [|apply nth_error_None in E; lia].
  eexists. split; [reflexivity|]. rewrite rerender_app. cbn [handle onApp app].
  unfold handleUndo. destruct (Nat.ltb_spec 0 (historyIndex (app w))); [reflexivity|].
  replace (historyIndex (app w) - 1) with (historyIndex (app w)) by lia.
  symmetry. apply setHistoryIndex_same.
Qed.

Lemma step_redo (M : MathObject) (w : World) :
  historyIndex (app w) < length (history (app w)) ->
  exists w1, step M w EvRedoButton = Some w1
             /\ app w1 = setHistoryIndex
                           (Nat.min (historyIndex (app w) + 1) (length (history (app w)) - 1))
                           (app w).
Proof.
  intros Hlt. unfold step, currentSnapshot.
  destruct (nth_error (history (app w)) (historyIndex (app w))) eqn:E;
    [|apply nth_error_None in E; lia].
  eexists. split; [reflexivity|]. rewrite rerender_app. cbn [handle onApp app].
  unfold handleRedo.
  destruct (Nat.ltb_spec (historyIndex (app w)) (length (history (app w)) - 1)).
  - f_equal. lia.
  - replace (Nat.min _ _) with (historyIndex (app w)) by lia.
    symmetry. apply setHistoryIndex_same.
Qed.

Lemma run_undos (M : MathObject) (n : nat) :
  forall w, historyIndex (app w) < length (history (app w)) ->
  exists w1, run M w (repeat EvUndoButton n) = Some w1
             /\ app w1 = setHistoryIndex (historyIndex (app w) - n) (app w).
Proof.
  induction n as [|n IH]; intros w Hlt; cbn [repeat run].
  - exists w. split; [reflexivity|]. rewrite Nat.sub_0_r. symmetry. apply setHistoryIndex_same.
  - destruct (step_undo M w Hlt) as (w1 & -> & Ha).
    assert (Hlt1 : historyIndex (app w1) < length (history (app w1)))
      by (rewrite Ha; simpl; lia).
    destruct (IH w1 Hlt1) as (w2 & Hrun & Ha2).
    exists w2. split; [exact Hrun|]. rewrite Ha2, Ha. unfold setHistoryIndex. cbn. f_equal. lia.
Qed.

Lemma run_redos (M : MathObject) (n : nat) :
  forall w, historyIndex (app w) < length (history (app w)) ->
  exists w1, run M w (repeat EvRedoButton n) = Some w1
             /\ app w1 = setHistoryIndex
                           (Nat.min (historyIndex (app w) + n) (length (history (app w)) - 1))
                           (app w).
Proof.
  induction n as [|n IH]; intros w Hlt; cbn [repeat run].
  - exists w. split; [reflexivity|].
    replace (Nat.min _ _) with (historyIndex (app w)) by lia.
    symmetry. apply setHistoryIndex_same.
  - destruct (step_redo M w Hlt) as (w1 & -> & Ha).
    assert (Hlt1 : historyIndex (app w1) < length (history (app w1)))
      by (rewrite Ha; simpl; lia).
    destruct (IH w1 Hlt1) as (w2 & Hrun & Ha2).
    exists w2. split; [exact Hrun|]. rewrite Ha2, Ha. unfold setHistoryIndex. cbn. f_equal. lia.
Qed.

(** [n] presses of Undo move the cursor back by [n], stopping at the
    first snapshot, and change nothing else; while the cursor was at least
    [n] steps from the first snapshot, [n] presses of Redo afterwards bring
    the editor state back to exactly what it was. *)
Theorem undo_redo_round_trip (M : MathObject) (w : World) (n : nat) :
  historyIndex (app w) < length (history (app w)) ->
  exists w1,
    run M w (repeat EvUndoButton n) = Some w1
    /\ app w1 = setHistoryIndex (historyIndex (app w) - n) (app w)
    /\ (n <= historyIndex (app w) ->
        exists w2, run M w1 (repeat EvRedoButton n) = Some w2 /\ app w2 = app w).
Proof.
  intros Hlt. destruct (run_undos M n w Hlt) as (w1 & Hrun & Ha).
  exists w1. split; [exact Hrun|]. split; [exact Ha|]. intros Hn.
  assert (Hlt1 : historyIndex (app w1) < length (history (app w1)))
    by (rewrite Ha; simpl; lia).
  destruct (run_redos M n w1 Hlt1) as (w2 & Hrun2 & Ha2).
  exists w2. split; [exact Hrun2|]. rewrite Ha2, Ha. unfold setHistoryIndex. cbn.
  replace (Nat.min _ _) with (historyIndex (app w)) by lia.
  destruct (app w); reflexivity.
Qed.

Lemma undo_redo_round_trip_witness :
  let M := mkMath hypot_ieee (fun _ _ => 0%float) (fun _ => 1%float) (fun _ => 0%float) in
  exists w, run M initialWorld [EvAddEntity EntityT "A" None; EvAddEntity ActionT "B" None]
            = Some w
    /\ historyIndex (app w) < length (history (app w))
    /\ exists w1, run M w (repeat EvUndoButton 5) = Some w1
         /\ historyIndex (app w1) = 0
         /\ exists w0, run M w (repeat EvUndoButton 2) = Some w0
              /\ exists w2, run M w0 (repeat EvRedoButton 2) = Some w2 /\ app w2 = app w.
Proof.
  intros M. eexists. split; [reflexivity|].
  match goal with |- ?h < _ /\ _ => assert (Hlt : h < 3) by (simpl; lia) end.
  split; [exact Hlt|].
  destruct (undo_redo_round_trip M _ 5 Hlt) as (w1 & Hrun & Ha & _).
  exists w1. split; [exact Hrun|]. split; [rewrite Ha; reflexivity|].
  destruct (undo_redo_round_trip M _ 2 Hlt) as (w0 & Hrun0 & _ & Hback).
  exists w0. split; [exact Hrun0|]. apply Hback. simpl. lia.
Defined.

(** The keydown listener, with Ctrl (or Meta) and Shift held, no rename in
    progress and the key [z].  In ERD mode it runs both the undo and the
    redo handler of the same render, and the later write wins: the cursor
    moves forward when there is a snapshot to redo, and otherwise moves back
    by one (an undo); the snapshots are not changed.  In SQL mode it does
    nothing. *)
Theorem ctrl_shift_z (mode : Mode) (w : World) (cur : Snapshot) (ctrlKey metaKey : bool) :
  historyIndex (app w) < length (history (app w)) ->
  truthy (editingEntityId (app w)) = false ->
  ctrlKey || metaKey = true ->
  let w' := windowKeyDown mode w cur ctrlKey metaKey true "z" w in
  match mode with
  | ERD =>
    history (app w') = history (app w)
    /\ historyIndex (app w')
       = (if (historyIndex (app w) + 1 <? length (history (app w)))%nat
          then historyIndex (app w) + 1
          else historyIndex (app w) - 1)
    /\ stage w' = stage w /\ textarea w' = textarea w /\ alerts w' = alerts w
  | SQL => w' = w
  end.
Proof.
  intros Hlt Hed Hmod w'. destruct mode; [|reflexivity].
  unfold w', windowKeyDown, handleKeyDown. rewrite Hed, Hmod. cbn -[Nat.ltb].
  unfold handleUndo, handleRedo.
  destruct (Nat.ltb_spec (historyIndex (app w) + 1) (length (history (app w))));
    destruct (Nat.ltb_spec (historyIndex (app w)) (length (history (app w)) - 1)); try lia;
    destruct (Nat.ltb_spec 0 (historyIndex (app w))); cbn;
    (split; [reflexivity|]); (split; [try reflexivity; lia|]); repeat split.
Qed.

Lemma ctrl_shift_z_witness :
  exists w cur,
    run approxMath initialWorld [EvAddEntity EntityT "A" None] = Some w
    /\ currentSnapshot (app w) = Some cur
    /\ historyIndex (app w) = 1
    /\ historyIndex (app (windowKeyDown ERD w cur true false true "z" w)) = 0
    /\ windowKeyDown SQL w cur true false true "z" w = w.
Proof.
  destruct (run approxMath initialWorld [EvAddEntity EntityT "A" None]) as [w|] eqn:Hrun;
    [|vm_compute in Hrun; discriminate Hrun].
  destruct (currentSnapshot (app w)) as [cur|] eqn:Hcur;
    [|vm_compute in Hrun; injection Hrun as <-; vm_compute in Hcur; discriminate Hcur].
  assert (Hidx : historyIndex (app w) = 1).
  { vm_compute in Hrun. injection Hrun as <-. reflexivity. }
  assert (Hlen : length (history (app w)) = 2).
  { vm_compute in Hrun. injection Hrun as <-. reflexivity. }
  assert (Hed : truthy (editingEntityId (app w)) = false).
  { vm_compute in Hrun. injection Hrun as <-. reflexivity. }
  exists w, cur. split; [reflexivity|]. split; [exact Hcur|]. split; [exact Hidx|].
  split.
  - destruct (ctrl_shift_z ERD w cur true false ltac:(lia) Hed eq_refl) as (_ & H & _).
    rewrite H, Hidx, Hlen. reflexivity.
  - exact (ctrl_shift_z SQL w cur true false ltac:(lia) Hed eq_refl).
Defined.

(** ** History-based editor: what a drag move touches on the stage *)

Lemma sameChildren_refl (lg : LineGroup) : sameChildren lg lg.
Proof. repeat split; auto. Qed.

Lemma sameChildren_redrawGroup (props : RenderProps) (lg : LineGroup) :
  sameChildren lg (redrawGroup props lg).
Proof.
  unfold sameChildren, redrawGroup. simpl.
  destruct (lg_line lg), (lg_start lg), (lg_end lg); repeat split;
    intros [? H]; try discriminate H; eexists; reflexivity.
Qed.

Lemma sameNodes_refl (sc : gmap string LineGroup) : sameNodes sc sc.
Proof. intros k. destruct (sc !! k); [apply sameChildren_refl|exact I]. Qed.

Lemma sameNodes_trans (a b c : gmap string LineGroup) :
  sameNodes a b -> sameNodes b c -> sameNodes a c.
Proof.
  intros Hab Hbc k. specialize (Hab k). specialize (Hbc k).
  destruct (a !! k), (b !! k), (c !! k); try contradiction; try exact I.
  destruct Hab as (A1 & A2 & A3), Hbc as (B1 & B2 & B3).
  repeat split; intros H; tauto.
Qed.

Lemma fold_left_rel (A B : Type) (f : A -> B -> A) (R : A -> A -> Prop) (Q : B -> Prop) :
  (forall a, R a a) -> (forall a b c, R a b -> R b c -> R a c) ->
  (forall a b, Q b -> R a (f a b)) ->
  forall l a, (forall b, In b l -> Q b) -> R a (fold_left f l a).
Proof.
  intros Hrefl Htrans Hstep. induction l as [|b l IH]; intros a HQ; simpl; [apply Hrefl|].
  apply (Htrans _ (f a b)).
  - apply Hstep, HQ. left. reflexivity.
  - apply IH. intros b' Hb'. apply HQ. right. exact Hb'.
Qed.

(** [handleDragMove] writes to Konva nodes only: the React state, the
    textarea and the alerts are untouched; the stage keeps the same nodes
    and every relationship group keeps the children it has (no line or
    symbol is created or removed); and a group whose relationship does not
    touch the dragged shape is left exactly as it was. *)
Theorem handleDragMove_frame (M : MathObject) (cur : Snapshot) (entityId : string)
    (x y : float) (w : World) :
  let w' := handleDragMove M cur entityId x y w in
  app w' = app w /\ textarea w' = textarea w /\ alerts w' = alerts w
  /\ sameNodes (stage w) (stage w')
  /\ forall k,
       (forall rel, In rel (relationships cur) -> r_id rel = k ->
                    r_fromId rel <> entityId /\ r_toId rel <> entityId) ->
       stage w' !! k = stage w !! k.
Proof.
  unfold handleDragMove.
  destruct (findEntity entityId (entities cur)) as [d|].
  2:{ cbn. repeat split; try reflexivity. apply sameNodes_refl. }
  cbn [onStage app textarea alerts stage].
  split; [reflexivity|]. split; [reflexivity|]. split; [reflexivity|]. split.
  - apply (fold_left_rel _ _ _ sameNodes (fun _ => True));
      [apply sameNodes_refl | apply sameNodes_trans | | intros; exact I].
    intros sc rel _. cbv beta.
    destruct (String.eqb (r_fromId rel) entityId || String.eqb (r_toId rel) entityId);
      [|apply sameNodes_refl].
    destruct (if String.eqb (r_fromId rel) entityId then _ else _) as [f|];
      [|apply sameNodes_refl].
    destruct (if String.eqb (r_toId rel) entityId then _ else _) as [t|];
      [|apply sameNodes_refl].
    destruct (sc !! r_id rel) as [lineGroup|] eqn:E; [|apply sameNodes_refl].
    intros k. destruct (decide (r_id rel = k)) as [<-|Hne].
    + rewrite E, lookup_insert_eq. apply sameChildren_redrawGroup.
    + rewrite lookup_insert_ne by exact Hne.
      destruct (sc !! k); [apply sameChildren_refl|exact I].
  - intros k Hk.
    apply (fold_left_rel _ _ _ (fun a b : gmap string LineGroup => b !! k = a !! k)
             (fun rel => r_id rel = k -> r_fromId rel <> entityId /\ r_toId rel <> entityId));
      [reflexivity | intros a b c H1 H2; congruence | | exact Hk].
    intros sc rel Hrel. cbv beta.
    destruct (String.eqb_spec (r_fromId rel) entityId) as [Ef|Ef];
      destruct (String.eqb_spec (r_toId rel) entityId) as [Et|Et]; cbn [orb];
      try reflexivity;
      (destruct (decide (r_id rel = k)) as [Hk'|Hne];
       [destruct (Hrel Hk'); contradiction|]);
      repeat match goal with
             | |- context [match ?o with Some _ => _ | None => _ end] => destruct o
             end;
      try reflexivity; apply lookup_insert_ne; exact Hne.
Qed.

(** ** History-based editor: deleting twice *)

Lemma rerender_idem (w : World) : rerender (rerender w) = rerender w.
Proof.
  unfold rerender. cbn [app textarea stage alerts].
  destruct (truthy (editingEntityId (app w))); [|reflexivity].
  destruct (textarea w); [reflexivity|].
  destruct (whenTruthy (editingEntityId (app w))); [|reflexivity].
  destruct (currentSnapshot (app w)); [|reflexivity].
  destruct (findEntity _ _); reflexivity.
Qed.

Lemma run_selection_exclusive (M : MathObject) (evs : list Event) :
  forall w0 w,
    (truthy (selectedEntityId (app w0)) = true ->
     truthy (selectedRelationshipId (app w0)) = false) ->
    run M w0 evs = Some w ->
    truthy (selectedEntityId (app w)) = true ->
    truthy (selectedRelationshipId (app w)) = false.
Proof.
  induction evs as [|ev evs IH]; simpl; intros w0 w H0 Hrun.
  - injection Hrun as <-. exact H0.
  - destruct (step M w0 ev) as [w1|] eqn:E; [|discriminate].
    apply (IH w1); [|exact Hrun].
    unfold step in E. destruct (currentSnapshot (app w0)) as [cur|]; [|discriminate].
    injection E as <-. rewrite rerender_app.
    apply handle_selection_exclusive. exact H0.
Qed.

Lemma truthy_whenTruthy_None (o : option string) : truthy o = false -> whenTruthy o = None.
Proof.
  destruct o as [s|]; simpl; [|reflexivity].
  destruct (String.eqb s ""); [reflexivity|discriminate].
Qed.

Lemma whenTruthy_None_truthy (o : option string) : whenTruthy o = None -> truthy o = false.
Proof.
  destruct o as [s|]; simpl; [|reflexivity].
  destruct (String.eqb s ""); [reflexivity|discriminate].
Qed.

Lemma whenTruthy_Some_truthy (o : option string) (s : string) :
  whenTruthy o = Some s -> truthy o = true.
Proof.
  destruct o as [t|]; simpl; [|discriminate].
  destruct (String.eqb t ""); [discriminate|reflexivity].
Qed.

(** In every world the editor reaches from its initial state, a
    delete leaves nothing selected, so that a second press of the delete
    button right after the first changes nothing: the history does not get
    a second snapshot. *)
Theorem delete_twice (M : MathObject) (evs : list Event) (w : World) :
  run M initialWorld evs = Some w ->
  exists w1,
    run M w [EvDeleteButton] = Some w1
    /\ truthy (selectedEntityId (app w1)) = false
    /\ truthy (selectedRelationshipId (app w1)) = false
    /\ run M w [EvDeleteButton; EvDeleteButton] = Some w1.
Proof.
  intros Hrun.
  pose proof (run_wellFormed M evs _ _ initialWorld_wellFormed Hrun) as Hwf.
  pose proof (run_selection_exclusive M evs initialWorld w (fun _ => eq_refl) Hrun) as Hex.
  destruct (wellFormed_renders w Hwf) as [cur Hcur].
  destruct (step M w EvDeleteButton) as [w1|] eqn:Hstep;
    [|unfold step in Hstep; rewrite Hcur in Hstep; discriminate].
  pose proof (step_wellFormed M w w1 EvDeleteButton Hwf Hstep) as Hwf1.
  destruct (wellFormed_renders w1 Hwf1) as [cur1 Hcur1].
  assert (Hsel : truthy (selectedEntityId (app w1)) = false
                 /\ truthy (selectedRelationshipId (app w1)) = false).
  { unfold step in Hstep. rewrite Hcur in Hstep. injection Hstep as <-.
    rewrite rerender_app. cbn [handle]. unfold handleDeleteSelected.
    destruct (whenTruthy (selectedEntityId (app w))) as [sel|] eqn:E1.
    - cbn. split; [reflexivity|]. apply Hex. exact (whenTruthy_Some_truthy _ _ E1).
    - apply whenTruthy_None_truthy in E1.
      destruct (whenTruthy (selectedRelationshipId (app w))) as [sel|] eqn:E2.
      + cbn. split; [exact E1|reflexivity].
      + apply whenTruthy_None_truthy in E2. unfold skip. split; assumption. }
  destruct Hsel as [Hs1 Hs2].
  exists w1. cbn [run]. rewrite Hstep. split; [reflexivity|].
  split; [exact Hs1|]. split; [exact Hs2|].
  assert (Hfix : rerender w1 = w1).
  { unfold step in Hstep. rewrite Hcur in Hstep. injection Hstep as <-. apply rerender_idem. }
  unfold step. rewrite Hcur1. cbn [handle]. unfold handleDeleteSelected.
  rewrite (truthy_whenTruthy_None _ Hs1), (truthy_whenTruthy_None _ Hs2).
  unfold skip. rewrite Hfix. reflexivity.
Qed.

Lemma delete_twice_witness :
  let M := mkMath hypot_ieee (fun _ _ => 0%float) (fun _ => 1%float) (fun _ => 0%float) in
  exists w, run M initialWorld [EvAddEntity EntityT "A" None; EvEntityClick "A" "r0"] = Some w
    /\ exists w1, run M w [EvDeleteButton; EvDeleteButton] = Some w1
         /\ length (history (app w1)) = 3.
Proof.
  intros M. eexists. split; [reflexivity|].
  match goal with
  | |- exists w1, run M ?w _ = _ /\ _ =>
    destruct (delete_twice M [EvAddEntity EntityT "A" None; EvEntityClick "A" "r0"] w eq_refl)
      as (w1 & H1 & _ & _ & H2)
  end.
  exists w1. split; [exact H2|].
  vm_compute in H1. injection H1 as <-. reflexivity.
Defined.

(** ** Map-based editor: the ids of created shapes *)

Lemma N_to_uint_nonnil (n : N) : N.to_uint n <> Decimal.Nil.
Proof.
  destruct n; simpl; [discriminate|]. apply DecimalPos.Unsigned.to_uint_nonnil.
Qed.

Lemma numberToString_inj (n m : N) : numberToString n = numberToString m -> n = m.
Proof.
  unfold numberToString. intros H.
  apply (f_equal NilZero.uint_of_string) in H.
  rewrite !NilZero.usu in H by apply N_to_uint_nonnil.
  injection H as H. apply DecimalN.Unsigned.to_uint_inj. exact H.
Qed.

Lemma entityId_inj (t1 t2 : EntityType) (n1 n2 : N) :
  (toLowerCase (EntityType_string t1) ++ "_" ++ numberToString n1
   = toLowerCase (EntityType_string t2) ++ "_" ++ numberToString n2)%string ->
  t1 = t2 /\ n1 = n2.
Proof.
  destruct t1, t2; cbn; intros H; try discriminate H;
    (split; [reflexivity|]); apply numberToString_inj;
    repeat (injection H as H); exact H.
Qed.

(** Two shapes created by [addEntity] with different kinds, or at
    different values of [Date.now()], get different ids, and the map holds
    both afterwards, each under its id with the defaults of its kind.  (With
    the same kind in the same millisecond the ids coincide.) *)
Theorem addEntity_distinct_ids (st : PlusPage.State) (t1 t2 : EntityType) (n1 n2 : N) :
  t1 <> t2 \/ n1 <> n2 ->
  let st2 := PlusPage.addEntity t2 n2 (PlusPage.addEntity t1 n1 st) in
  exists id1 id2,
    id1 <> id2
    /\ PlusPage.entities st2 !! id1
       = Some (mkEntity id1 100%float 100%float 150%float 75%float (EntityType_string t1) t1)
    /\ PlusPage.entities st2 !! id2
       = Some (mkEntity id2 100%float 100%float 150%float 75%float (EntityType_string t2) t2).
Proof.
  intros Hne st2.
  exists (toLowerCase (EntityType_string t1) ++ "_" ++ numberToString n1)%string,
         (toLowerCase (EntityType_string t2) ++ "_" ++ numberToString n2)%string.
  assert (Hid : (toLowerCase (EntityType_string t1) ++ "_" ++ numberToString n1)%string
                <> (toLowerCase (EntityType_string t2) ++ "_" ++ numberToString n2)%string).
  { intros E. apply entityId_inj in E as [-> ->]. destruct Hne; congruence. }
  split; [exact Hid|]. unfold st2, PlusPage.addEntity, PlusPage.setEntities.
  cbn [PlusPage.entities]. split.
  - rewrite lookup_insert_ne by congruence. apply lookup_insert_eq.
  - apply lookup_insert_eq.
Qed.

Lemma addEntity_distinct_ids_witness :
  let st2 := PlusPage.addEntity ActionT 1700000000001 (PlusPage.addEntity EntityT 1700000000000
                                                          PlusPage.initialState) in
  (EntityT <> ActionT \/ 1700000000000%N <> 1700000000001%N)
  /\ exists id1 id2, id1 <> id2
       /\ is_Some (PlusPage.entities st2 !! id1) /\ is_Some (PlusPage.entities st2 !! id2).
Proof.
  intros st2.
  assert (H : EntityT <> ActionT \/ 1700000000000%N <> 1700000000001%N)
    by (left; discriminate).
  split; [exact H|].
  destruct (addEntity_distinct_ids PlusPage.initialState EntityT ActionT
              1700000000000 1700000000001 H) as (id1 & id2 & Hne & H1 & H2).
  exists id1, id2. split; [exact Hne|]. split; eexists; [exact H1|exact H2].
Defined.

(** ** History-based editor: the life of a rename *)

Lemma truthy_nonempty (id : string) : id <> "" -> truthy (Some id) = true.
Proof.
  intros H. simpl. destruct (String.eqb_spec id ""); [contradiction|reflexivity].
Qed.

Lemma whenTruthy_nonempty (id : string) : id <> "" -> whenTruthy (Some id) = Some id.
Proof.
  intros H. simpl. destruct (String.eqb_spec id ""); [contradiction|reflexivity].
Qed.

(** A rename from start to end.  After a double click on a shape
    with a non-empty id and typing [v] into the textarea, Enter (without
    Shift) commits one snapshot in which every shape with that id is named
    [v] and nothing else differs, and closes the textarea; Escape instead
    closes the textarea and leaves history and cursor as they were, so the
    typed text is dropped. *)
Theorem rename_enter_escape (M : MathObject) (w : World) (cur : Snapshot) (id v : string) :
  currentSnapshot (app w) = Some cur ->
  id <> "" ->
  (exists w',
     run M w [EvEntityDblClick id; EvTextareaInput v; EvTextareaKeyDown "Enter" false] = Some w'
     /\ committed (app w)
          (mkSnapshot (List.map (renameEntity id v) (entities cur)) (relationships cur)) (app w')
     /\ editingEntityId (app w') = None /\ textarea w' = None)
  /\ (exists w',
        run M w [EvEntityDblClick id; EvTextareaInput v; EvTextareaKeyDown "Escape" false]
        = Some w'
        /\ history (app w') = history (app w)
        /\ historyIndex (app w') = historyIndex (app w)
        /\ editingEntityId (app w') = None /\ textarea w' = None).
Proof.
  intros Hcur Hid.
  assert (Hlt : historyIndex (app w) < length (history (app w)))
    by exact (currentSnapshot_lt _ _ Hcur).
  pose proof (truthy_nonempty id Hid) as Ht.
  pose proof (whenTruthy_nonempty id Hid) as Hw.
  (* after the double click *)
  set (w1 := rerender (handle M w cur (EvEntityDblClick id) w)).
  assert (H1 : step M w (EvEntityDblClick id) = Some w1) by (unfold step; rewrite Hcur; reflexivity).
  assert (Ha1 : app w1 = setEditingEntityId (Some id)
                           (setSelectedEntityId None
                              (setSelectedRelationshipId None
                                 (setRelationshipCreation (mkRelationshipCreation false None)
                                    (app w))))) by reflexivity.
  assert (Hc1 : currentSnapshot (app w1) = Some cur) by (rewrite Ha1; exact Hcur).
  assert (Hta1 : exists v0, textarea w1 = Some v0).
  { unfold w1, rerender. cbn [textarea app handle handleEntityDblClick onApp].
    cbn [editingEntityId setEditingEntityId]. rewrite Ht.
    destruct (textarea w); [eexists; reflexivity|].
    rewrite Hw. destruct (currentSnapshot _); [|eexists; reflexivity].
    destruct (findEntity _ _); eexists; reflexivity. }
  destruct Hta1 as [v0 Hta1].
  (* after typing *)
  set (w2 := rerender (handle M w1 cur (EvTextareaInput v) w1)).
  assert (H2 : step M w1 (EvTextareaInput v) = Some w2)
    by (unfold step; rewrite Hc1; reflexivity).
  assert (Ha2 : app w2 = app w1).
  { unfold w2. rewrite rerender_app. cbn [handle]. rewrite Hta1. reflexivity. }
  assert (Hta2 : textarea w2 = Some v).
  { unfold w2, rerender. cbn [handle]. rewrite Hta1. cbn [app textarea].
    rewrite Ha1. cbn [editingEntityId setEditingEntityId]. rewrite Ht. reflexivity. }
  assert (Hc2 : currentSnapshot (app w2) = Some cur) by (rewrite Ha2; exact Hc1).
  assert (Hed2 : editingEntityId (app w2) = Some id) by (rewrite Ha2, Ha1; reflexivity).
  assert (Hh2 : history (app w2) = history (app w)) by (rewrite Ha2, Ha1; reflexivity).
  assert (Hi2 : historyIndex (app w2) = historyIndex (app w)) by (rewrite Ha2, Ha1; reflexivity).
  clearbody w1 w2.
  split.
  - eexists. split.
    { cbn [run]. rewrite H1, H2. unfold step. rewrite Hc2. reflexivity. }
    rewrite rerender_app. cbn [handle]. unfold handleTextareaKeyDown, handleFinishEditing.
    rewrite Hed2, Hw, Hta2.
    replace (String.eqb "Enter" "Enter" && negb false) with true by reflexivity.
    replace (String.eqb "Enter" "Escape") with false by reflexivity.
    unfold skip, setEntities. cbn [onApp app].
    pose proof (updateState_committed (app w2) cur
                  (Fn (List.map (renameEntity id v))) (Fn (fun prevRels => prevRels))
                  (app w2) Hc2) as Hcm.
    cbn [applyUpdater] in Hcm. unfold committed in *.
    destruct Hcm as (C1 & C2 & C3). rewrite Hh2, Hi2 in C1. rewrite Hi2 in C2.
    split; [|split].
    + split; [exact C1|]. split; [exact C2|]. exact C3.
    + reflexivity.
    + unfold rerender. cbn [app textarea editingEntityId setEditingEntityId truthy].
      reflexivity.
  - eexists. split.
    { cbn [run]. rewrite H1, H2. unfold step. rewrite Hc2. reflexivity. }
    rewrite rerender_app. cbn [handle]. unfold handleTextareaKeyDown.
    replace (String.eqb "Escape" "Enter" && negb false) with false by reflexivity.
    replace (String.eqb "Escape" "Escape") with true by reflexivity.
    unfold skip. cbn [onApp app].
    split; [exact Hh2|]. split; [exact Hi2|]. split; [reflexivity|].
    unfold rerender. cbn [app textarea editingEntityId setEditingEntityId truthy].
    reflexivity.
Qed.

Lemma rename_enter_escape_witness :
  let M := mkMath hypot_ieee (fun _ _ => 0%float) (fun _ => 1%float) (fun _ => 0%float) in
  let e := mkEntity "A" 50%float 50%float 150%float 75%float "Entity 1" EntityT in
  let w := mkWorld (mkAppState [mkSnapshot [] []; mkSnapshot [e] []] 1 None None
                      (mkRelationshipCreation false None) None true) ∅ None [] in
  currentSnapshot (app w) = Some (mkSnapshot [e] [])
  /\ "A" <> ""
  /\ exists w',
       run M w [EvEntityDblClick "A"; EvTextareaInput "Users"; EvTextareaKeyDown "Enter" false]
       = Some w'
       /\ currentSnapshot (app w')
          = Some (mkSnapshot [mkEntity "A" 50%float 50%float 150%float 75%float "Users" EntityT] []).
Proof.
  intros M e w.
  assert (Hcur : currentSnapshot (app w) = Some (mkSnapshot [e] [])) by reflexivity.
  assert (Hid : "A" <> "") by discriminate.
  split; [exact Hcur|]. split; [exact Hid|].
  destruct (rename_enter_escape M w _ "A" "Users" Hcur Hid) as [(w' & Hrun & (_ & _ & Hc) & _) _].
  exists w'. split; [exact Hrun|]. exact Hc.
Defined.

(** ** History-based editor: identifiers stay unique *)

Lemma map_id_moveEntity (id : string) (x y : float) (es : list Entity) :
  List.map e_id (List.map (moveEntity id x y) es) = List.map e_id es.
Proof.
  rewrite List.map_map. apply List.map_ext. intros e. unfold moveEntity.
  destruct (String.eqb (e_id e) id); reflexivity.
Qed.

Lemma map_id_renameEntity (id v : string) (es : list Entity) :
  List.map e_id (List.map (renameEntity id v) es) = List.map e_id es.
Proof.
  rewrite List.map_map. apply List.map_ext. intros e. unfold renameEntity.
  destruct (String.eqb (e_id e) id); reflexivity.
Qed.

Lemma map_id_cycleCardinality (rid : string) (tp : TargetProp) (rs : list Relationship) :
  List.map r_id (List.map (cycleCardinality rid tp) rs) = List.map r_id rs.
Proof.
  rewrite List.map_map. apply List.map_ext. intros r. unfold cycleCardinality.
  destruct (String.eqb (r_id r) rid); [|reflexivity].
  destruct (nextCardinality _); [|reflexivity]. destruct tp; reflexivity.
Qed.

Lemma NoDup_map_filter (A : Type) (g : A -> string) (f : A -> bool) (l : list A) :
  List.NoDup (List.map g l) -> List.NoDup (List.map g (List.filter f l)).
Proof.
  induction l as [|a l IH]; simpl; intros H; [constructor|].
  inversion H as [|? ? Hn Hd]; subst. destruct (f a); simpl; [|apply IH; exact Hd].
  constructor; [|apply IH; exact Hd].
  intros Hin. apply Hn. apply in_map_iff in Hin as (b & Hb & Hin).
  apply filter_In in Hin as [Hin _]. apply in_map_iff. exists b. split; assumption.
Qed.

Lemma incl_map_filter (A : Type) (g : A -> string) (f : A -> bool) (l : list A)
    (ids : list string) :
  incl (List.map g l) ids -> incl (List.map g (List.filter f l)) ids.
Proof.
  intros H x Hin. apply H. apply in_map_iff in Hin as (b & Hb & Hin).
  apply filter_In in Hin as [Hin _]. apply in_map_iff. exists b. split; assumption.
Qed.

Lemma NoDup_map_snoc (A : Type) (g : A -> string) (l : list A) (a : A) (ids : list string) :
  List.NoDup (List.map g l) -> incl (List.map g l) ids -> ~ In (g a) ids ->
  List.NoDup (List.map g (l ++ [a])).
Proof.
  intros Hnd Hincl Hfresh. rewrite List.map_app. simpl.
  apply List.NoDup_app; [exact Hnd | constructor; [intros []|constructor] |].
  intros x Hx [<-|[]]. apply Hfresh, Hincl, Hx.
Qed.

Lemma incl_map_snoc (A : Type) (g : A -> string) (l : list A) (a : A) (ids : list string) :
  incl (List.map g l) ids -> incl (List.map g (l ++ [a])) (ids ++ [g a]).
Proof.
  intros H x Hx. rewrite List.map_app in Hx. apply in_app_or in Hx as [Hx|[<-|[]]].
  - apply in_or_app. left. apply H, Hx.
  - apply in_or_app. right. left. reflexivity.
Qed.

Ltac solve_uniqueIds :=
  match goal with
  | H : uniqueIds _ _ _ |- uniqueIds _ _ _ =>
    destruct H as (?HA & ?HB & ?HC & ?HD); unfold uniqueIds;
    cbn [entities relationships applyUpdater];
    rewrite ?map_id_moveEntity, ?map_id_renameEntity, ?map_id_cycleCardinality;
    repeat split;
    first [ assumption
          | apply incl_appl; assumption
          | apply NoDup_map_filter; assumption
          | apply incl_appl, incl_map_filter; assumption
          | eapply NoDup_map_snoc; [eassumption | eassumption | auto with datatypes]
          | apply incl_map_snoc; assumption ]
  end.

Lemma handle_history_ids (M : MathObject) (w : World) (cur : Snapshot) (ev : Event)
    (eids rids : list string) :
  uniqueIds eids rids cur ->
  (forall id, In id (entityUuids [ev]) -> ~ In id eids) ->
  (forall id, In id (relationshipUuids [ev]) -> ~ In id rids) ->
  history (app (handle M w cur ev w)) = history (app w)
  \/ exists new,
       history (app (handle M w cur ev w))
       = firstn (historyIndex (app w) + 1) (history (app w)) ++ [new]
       /\ uniqueIds (eids ++ entityUuids [ev]) (rids ++ relationshipUuids [ev]) new.
Proof.
  intros Hcur Hfe Hfr.
  destruct ev; unfold_handlers; split_conditions; simpl;
    try (left; reflexivity);
    right; eexists; (split; [reflexivity|]); simpl in Hfe, Hfr; solve_uniqueIds.
Qed.

Lemma uniqueIds_mono (eids eids' rids rids' : list string) (s : Snapshot) :
  incl eids eids' -> incl rids rids' -> uniqueIds eids rids s -> uniqueIds eids' rids' s.
Proof.
  intros He Hr (A & B & C & D). repeat split; try assumption.
  - intros x Hx. apply He, B, Hx.
  - intros x Hx. apply Hr, D, Hx.
Qed.

Lemma step_uniqueIds (M : MathObject) (w w' : World) (ev : Event) (eids rids : list string) :
  Forall (uniqueIds eids rids) (history (app w)) ->
  (forall id, In id (entityUuids [ev]) -> ~ In id eids) ->
  (forall id, In id (relationshipUuids [ev]) -> ~ In id rids) ->
  step M w ev = Some w' ->
  Forall (uniqueIds (eids ++ entityUuids [ev]) (rids ++ relationshipUuids [ev]))
    (history (app w')).
Proof.
  intros Hall Hfe Hfr Hstep. unfold step in Hstep.
  destruct (currentSnapshot (app w)) as [cur|] eqn:Hcur; [|discriminate].
  injection Hstep as <-. rewrite rerender_app.
  assert (Hmono : Forall (uniqueIds (eids ++ entityUuids [ev]) (rids ++ relationshipUuids [ev]))
                    (history (app w))).
  { eapply List.Forall_impl; [|exact Hall]. intros s. apply uniqueIds_mono; apply incl_appl, incl_refl. }
  assert (Hc : uniqueIds eids rids cur).
  { rewrite List.Forall_forall in Hall. apply Hall. unfold currentSnapshot in Hcur.
    eapply nth_error_In. exact Hcur. }
  destruct (handle_history_ids M w cur ev eids rids Hc Hfe Hfr) as [->|(new & -> & Hnew)].
  - exact Hmono.
  - apply Forall_app. split; [apply Forall_take; exact Hmono|].
    constructor; [exact Hnew|constructor].
Qed.

Lemma NoDup_app_disjoint (l l' : list string) (x : string) :
  List.NoDup (l ++ l') -> In x l -> ~ In x l'.
Proof.
  induction l as [|a l IH]; simpl; intros H Hin; [destruct Hin|].
  inversion H as [|? ? Hn Hd]; subst. destruct Hin as [<-|Hin].
  - intros Hx. apply Hn. apply in_or_app. right. exact Hx.
  - apply IH; assumption.
Qed.

Lemma entityUuids_cons (ev : Event) (evs : list Event) :
  entityUuids (ev :: evs) = entityUuids [ev] ++ entityUuids evs.
Proof. unfold entityUuids. cbn [flat_map]. rewrite app_nil_r. reflexivity. Qed.

Lemma relationshipUuids_cons (ev : Event) (evs : list Event) :
  relationshipUuids (ev :: evs) = relationshipUuids [ev] ++ relationshipUuids evs.
Proof. unfold relationshipUuids. cbn [flat_map]. rewrite app_nil_r. reflexivity. Qed.

Lemma run_uniqueIds (M : MathObject) (evs : list Event) :
  forall (w w' : World) (eids rids : list string),
  Forall (uniqueIds eids rids) (history (app w)) ->
  List.NoDup (entityUuids evs) -> (forall id, In id (entityUuids evs) -> ~ In id eids) ->
  List.NoDup (relationshipUuids evs) -> (forall id, In id (relationshipUuids evs) -> ~ In id rids) ->
  run M w evs = Some w' ->
  Forall (uniqueIds (eids ++ entityUuids evs) (rids ++ relationshipUuids evs)) (history (app w')).
Proof.
  induction evs as [|ev evs IH]; intros w w' eids rids Hall Hne Hfe Hnr Hfr Hrun.
  - injection Hrun as <-. cbn. rewrite !app_nil_r. exact Hall.
  - cbn [run] in Hrun. destruct (step M w ev) as [w1|] eqn:Hstep; [|discriminate].
    rewrite (entityUuids_cons ev evs), (relationshipUuids_cons ev evs) in *.
    rewrite !app_assoc.
    apply List.NoDup_app_remove_l in Hne as Hne'.
    apply List.NoDup_app_remove_l in Hnr as Hnr'.
    apply (IH w1 w'); try assumption.
    + apply (step_uniqueIds M w w1 ev); try assumption.
      * intros id Hid. apply Hfe. apply in_or_app. left. exact Hid.
      * intros id Hid. apply Hfr. apply in_or_app. left. exact Hid.
    + intros id Hid Hin. apply in_app_or in Hin as [Hin|Hin].
      * apply (Hfe id); [apply in_or_app; right; exact Hid|exact Hin].
      * exact (NoDup_app_disjoint _ _ _ Hne Hin Hid).
    + intros id Hid Hin. apply in_app_or in Hin as [Hin|Hin].
      * apply (Hfr id); [apply in_or_app; right; exact Hid|exact Hin].
      * exact (NoDup_app_disjoint _ _ _ Hnr Hin Hid).
Qed.

(** While the UUIDs drawn for new shapes are pairwise distinct, and
    so are the UUIDs drawn for new connections, no snapshot of the history
    ever holds two shapes with the same id or two connections with the same
    id, and every id in a snapshot is one of the drawn UUIDs: moves, renames
    and marker changes keep the ids, deletions only remove some. *)
Theorem reachable_unique_ids (M : MathObject) (evs : list Event) (w : World) :
  List.NoDup (entityUuids evs) ->
  List.NoDup (relationshipUuids evs) ->
  run M initialWorld evs = Some w ->
  forall s, In s (history (app w)) ->
    List.NoDup (List.map e_id (entities s))
    /\ incl (List.map e_id (entities s)) (entityUuids evs)
    /\ List.NoDup (List.map r_id (relationships s))
    /\ incl (List.map r_id (relationships s)) (relationshipUuids evs).
Proof.
  intros Hne Hnr Hrun.
  assert (H0 : Forall (uniqueIds [] []) (history (app initialWorld))).
  { constructor; [|constructor]. repeat split; try constructor; intros x []. }
  pose proof (run_uniqueIds M evs initialWorld w [] [] H0 Hne (fun _ _ H => H) Hnr
                (fun _ _ H => H) Hrun) as Hall.
  cbn [app] in Hall. rewrite List.Forall_forall in Hall. exact Hall.
Qed.

Lemma reachable_unique_ids_witness :
  let M := mkMath hypot_ieee (fun _ _ => 0%float) (fun _ => 1%float) (fun _ => 0%float) in
  let evs := [EvAddEntity EntityT "A" None; EvAddEntity ActionT "B" None;
              EvRelationshipButton; EvEntityClick "A" "r0"; EvEntityClick "B" "r1";
              EvUndoButton; EvAddEntity AttributeT "C" None] in
  List.NoDup (entityUuids evs) /\ List.NoDup (relationshipUuids evs)
  /\ exists w, run M initialWorld evs = Some w
       /\ forall s, In s (history (app w)) -> List.NoDup (List.map e_id (entities s)).
Proof.
  intros M evs.
  assert (Hne : List.NoDup (entityUuids evs)).
  { repeat constructor; simpl; intuition discriminate. }
  assert (Hnr : List.NoDup (relationshipUuids evs)).
  { repeat constructor; simpl; intuition discriminate. }
  split; [exact Hne|]. split; [exact Hnr|].
  destruct (run M initialWorld evs) as [w|] eqn:Hrun; [|vm_compute in Hrun; discriminate Hrun].
  exists w. split; [reflexivity|]. intros s Hs.
  exact (proj1 (reachable_unique_ids M evs w Hne Hnr Hrun s Hs)).
Defined.

(** ** Map-based editor: selection and connection mode *)

Lemma plusPageApp_step_invariant (w : PlusPageApp.World) (ev : PlusPageApp.Event) :
  (let st := PlusPageApp.state w in
   (truthy (PlusPage.selectedEntityId st) = true ->
    truthy (PlusPage.selectedRelationshipId st) = false)
   /\ (active (PlusPage.relationshipCreation st) = true ->
       truthy (fromId (PlusPage.relationshipCreation st)) = true)) ->
  let st := PlusPageApp.state (PlusPageApp.step w ev) in
  (truthy (PlusPage.selectedEntityId st) = true ->
   truthy (PlusPage.selectedRelationshipId st) = false)
  /\ (active (PlusPage.relationshipCreation st) = true ->
      truthy (fromId (PlusPage.relationshipCreation st)) = true).
Proof.
  intros [Hex Hsrc]. unfold PlusPageApp.step.
  destruct ev; cbn [PlusPageApp.handle];
    unfold PlusPageApp.handleRelationshipClick, PlusPageApp.handleStageClick,
      PlusPageApp.handleEntityDblClick, PlusPageApp.toggleRelationshipCreation,
      PlusPageApp.handleKeyDown, PlusPageApp.exportToPNG, PlusPage.handleEntityClick,
      PlusPage.deleteSelected, PlusPage.addEntity, skip;
    split_conditions; cbn; split; intros Ht;
    try reflexivity; try discriminate; try (apply Hex; assumption);
    try (apply Hsrc; assumption); try congruence.
  rewrite Ht in *. rewrite andb_true_r in Heqb.
  destruct (truthy (PlusPage.selectedEntityId (PlusPageApp.state w)));
    [reflexivity|discriminate Heqb].
Qed.

(** In the map-based editor, whatever the order of clicks on shapes
    (also through click handlers left over from earlier renders),
    connections and the stage, presses of the connect and delete buttons
    and of Delete, Backspace and Escape: a shape and a connection are never
    selected at the same time, so [deleteSelected] never runs both of its
    branches; and connection mode is never active without a source shape. *)
Theorem plusPage_selection_invariant (evs : list PlusPageApp.Event) :
  let st := PlusPageApp.state (PlusPageApp.run PlusPageApp.initialWorld evs) in
  (truthy (PlusPage.selectedEntityId st) = true ->
   truthy (PlusPage.selectedRelationshipId st) = false)
  /\ (active (PlusPage.relationshipCreation st) = true ->
      truthy (fromId (PlusPage.relationshipCreation st)) = true).
Proof.
  unfold PlusPageApp.run.
  assert (H0 : let st := PlusPageApp.state PlusPageApp.initialWorld in
               (truthy (PlusPage.selectedEntityId st) = true ->
                truthy (PlusPage.selectedRelationshipId st) = false)
               /\ (active (PlusPage.relationshipCreation st) = true ->
                   truthy (fromId (PlusPage.relationshipCreation st)) = true))
    by (split; intros H; [reflexivity|discriminate H]).
  revert H0. generalize PlusPageApp.initialWorld.
  induction evs as [|ev evs IH]; intros w H; [exact H|].
  cbn [fold_left]. apply IH. apply plusPageApp_step_invariant. exact H.
Qed.

(** ** Map-based editor: the memoized shape *)

Lemma SFcompare_Eq_cases (x y : spec_float) :
  SFcompare x y = Some Eq ->
  x = y \/ (exists s1 s2, x = S754_zero s1 /\ y = S754_zero s2).
Proof.
  destruct x as [s1|s1| |s1 m1 e1], y as [s2|s2| |s2 m2 e2]; simpl; intros H;
    try discriminate H;
    try (right; exists s1, s2; split; reflexivity);
    try (destruct s1; discriminate H); try (destruct s2; discriminate H).
  - left. destruct s1, s2; try discriminate H; reflexivity.
  - left. destruct s1, s2; try discriminate H;
      (destruct (Z.compare_spec e1 e2) as [E| |]; try discriminate H); subst e2;
      fold (Pos.compare m1 m2) in H;
      (destruct (Pos.compare_spec m1 m2) as [E| |]; simpl in H; try discriminate H);
      subst; reflexivity.
Qed.

Lemma float_eqb_cases (a b : float) :
  (a =? b)%float = true ->
  a = b \/ (exists s1 s2, Prim2SF a = S754_zero s1 /\ Prim2SF b = S754_zero s2).
Proof.
  rewrite FloatAxioms.eqb_spec. unfold SFeqb. intros H.
  destruct (SFcompare (Prim2SF a) (Prim2SF b)) as [[| |]|] eqn:E; try discriminate H.
  destruct (SFcompare_Eq_cases _ _ E) as [Heq|Hz].
  - left. apply Prim2SF_inj. exact Heq.
  - right. exact Hz.
Qed.

Lemma float_half_same (a b : float) :
  (a =? b)%float = true -> (a / 2 = b / 2)%float \/ (a / 2 =? b / 2)%float = true.
Proof.
  intros H. destruct (float_eqb_cases a b H) as [<-|(s1 & s2 & Ha & Hb)].
  - left. reflexivity.
  - right. rewrite FloatAxioms.eqb_spec, !FloatAxioms.div_spec, Ha, Hb.
    destruct s1, s2; reflexivity.
Qed.

(** The comparison that lets React skip a render of [EntityShape] is
    sound: whenever [areEntityShapesEqual] holds of the previous and the next
    props, the element that the render would return is the same drawing as
    the one on screen (the same Konva node kind, colours, stroke and flags,
    and pairwise identical or [===] numbers). *)
Theorem areEntityShapesEqual_sound (prevProps nextProps : EntityShapeMemo.Props) :
  EntityShapeMemo.areEntityShapesEqual prevProps nextProps = true ->
  EntityShapeMemo.sameElement (EntityShapeMemo.EntityShape prevProps)
    (EntityShapeMemo.EntityShape nextProps).
Proof.
  unfold EntityShapeMemo.areEntityShapesEqual. intros H.
  apply andb_prop in H as [H Hh]. apply andb_prop in H as [H Hw].
  apply andb_prop in H as [Hs Ht]. apply Bool.eqb_prop in Hs.
  destruct prevProps as [e1 s1], nextProps as [e2 s2].
  cbn [EntityShapeMemo.entity EntityShapeMemo.isSelected] in *. subst s2.
  unfold EntityShapeMemo.EntityShape.
  cbn [EntityShapeMemo.entity EntityShapeMemo.isSelected].
  assert (Hc : forall c, EntityShapeMemo.sameCommon c c).
  { intros c. repeat split. repeat constructor. }
  pose proof (float_half_same _ _ Hw) as Hw2. pose proof (float_half_same _ _ Hh) as Hh2.
  destruct (e_type e1), (e_type e2); try discriminate Ht; cbn;
    (split; [apply Hc|]); unfold EntityShapeMemo.sameNumbers;
    repeat match goal with
           | |- _ /\ _ => split
           | |- Forall2 _ (_ :: _) (_ :: _) => apply Forall2_cons
           | |- Forall2 _ [] [] => apply Forall2_nil
           end;
    first [ reflexivity | assumption | right; assumption | left; reflexivity ].
Qed.

Lemma areEntityShapesEqual_sound_witness :
  let e1 := mkEntity "a" 0%float 0%float 0%float 75%float "A" ActionT in
  let e2 := mkEntity "b" 10%float 20%float (-0)%float 75%float "B" ActionT in
  EntityShapeMemo.areEntityShapesEqual (EntityShapeMemo.mkProps e1 true)
    (EntityShapeMemo.mkProps e2 true) = true
  /\ EntityShapeMemo.sameElement (EntityShapeMemo.EntityShape (EntityShapeMemo.mkProps e1 true))
       (EntityShapeMemo.EntityShape (EntityShapeMemo.mkProps e2 true)).
Proof.
  intros e1 e2.
  assert (H : EntityShapeMemo.areEntityShapesEqual (EntityShapeMemo.mkProps e1 true)
                (EntityShapeMemo.mkProps e2 true) = true) by (vm_compute; reflexivity).
  split; [exact H|]. exact (areEntityShapesEqual_sound _ _ H).
Defined.

(** ** The copy script *)

Lemma string_app_assoc (a b c : string) : ((a ++ b) ++ c = a ++ (b ++ c))%string.
Proof.
  induction a as [|x a IH]; [reflexivity|].
  change (String x ((a ++ b) ++ c) = String x (a ++ (b ++ c)))%string. f_equal. exact IH.
Qed.

Lemma string_app_inv_head (s a b : string) : (s ++ a = s ++ b)%string -> a = b.
Proof. apply String.app_inj. Qed.

Lemma string_app_neq_self (s a : string) : a <> "" -> (s ++ a)%string <> s.
Proof.
  intros Ha. induction s as [|x s IH]; [exact Ha|].
  change (String x (s ++ a) <> String x s)%string.
  intros H. injection H as H. apply IH, H.
Qed.

Lemma join_inj (d f f' : string) : CopyScript.join d f = CopyScript.join d f' -> f = f'.
Proof.
  unfold CopyScript.join. intros H. apply string_app_inv_head in H.
  apply (string_app_inv_head "/") in H. exact H.
Qed.

Lemma join_neq_dir (d f : string) : CopyScript.join d f <> d.
Proof. unfold CopyScript.join. apply string_app_neq_self. discriminate. Qed.

Lemma copyOne_fold (dirname distDir : string) (l : list string) :
  forall r : CopyScript.Run,
  List.NoDup l ->
  (forall f f', In f l -> In f' l -> CopyScript.join dirname f <> CopyScript.join distDir f') ->
  CopyScript.threw r = false ->
  CopyScript.fs r !! distDir = Some CopyScript.Directory ->
  (forall f, In f l ->
     CopyScript.fs r !! CopyScript.join dirname f <> Some CopyScript.Directory
     /\ CopyScript.fs r !! CopyScript.join distDir f <> Some CopyScript.Directory) ->
  let r' := fold_left (CopyScript.copyOne dirname distDir) l r in
  CopyScript.threw r' = false
  /\ CopyScript.fs r' !! distDir = Some CopyScript.Directory
  /\ (forall f, In f l ->
        match CopyScript.fs r !! CopyScript.join dirname f with
        | Some (CopyScript.File c) =>
          CopyScript.fs r' !! CopyScript.join distDir f = Some (CopyScript.File c)
        | _ =>
          CopyScript.fs r' !! CopyScript.join distDir f
          = CopyScript.fs r !! CopyScript.join distDir f
        end)
  /\ (forall p, (forall f, In f l -> p <> CopyScript.join distDir f) ->
        CopyScript.fs r' !! p = CopyScript.fs r !! p)
  /\ CopyScript.console r'
     = CopyScript.console r ++ List.map (CopyScript.report dirname (CopyScript.fs r)) l.
Proof.
  induction l as [|f l IH]; intros r Hnd Hdis Hthrew Hdist Hnodes; cbn [fold_left].
  - repeat split; try assumption; [intros f []|]. cbn. rewrite app_nil_r. reflexivity.
  - inversion Hnd as [|? ? Hnotin Hnd']; subst.
    destruct (Hnodes f (or_introl eq_refl)) as [Hsrc Hdst].
    set (r1 := CopyScript.copyOne dirname distDir r f).
    assert (Hr1 : CopyScript.threw r1 = false
                  /\ CopyScript.fs r1 !! distDir = Some CopyScript.Directory
                  /\ (forall p, p <> CopyScript.join distDir f ->
                        CopyScript.fs r1 !! p = CopyScript.fs r !! p)
                  /\ match CopyScript.fs r !! CopyScript.join dirname f with
                     | Some (CopyScript.File c) =>
                       CopyScript.fs r1 !! CopyScript.join distDir f = Some (CopyScript.File c)
                     | _ => CopyScript.fs r1 !! CopyScript.join distDir f
                            = CopyScript.fs r !! CopyScript.join distDir f
                     end
                  /\ CopyScript.console r1
                     = CopyScript.console r ++ [CopyScript.report dirname (CopyScript.fs r) f]).
    { unfold r1, CopyScript.copyOne, CopyScript.report, CopyScript.existsSync,
        CopyScript.copyFileSync.
      rewrite Hthrew, Hdist.
      destruct (CopyScript.fs r !! CopyScript.join dirname f) as [[c|]|] eqn:Es;
        [|contradiction|cbn; repeat split; try reflexivity; exact Hdist].
      destruct (CopyScript.fs r !! CopyScript.join distDir f) as [[c'|]|] eqn:Ed;
        [|contradiction|]; cbn [CopyScript.threw CopyScript.fs CopyScript.console];
        (split; [reflexivity|]);
        (split; [rewrite lookup_insert_ne by apply join_neq_dir; exact Hdist|]);
        (split; [intros p Hp; apply lookup_insert_ne; congruence|]);
        (split; [apply lookup_insert_eq|reflexivity]). }
    destruct Hr1 as (Ht1 & Hd1 & Hframe1 & Hcopy1 & Hcon1).
    assert (Hsrc_same : forall f', In f' (f :: l) ->
              CopyScript.fs r1 !! CopyScript.join dirname f'
              = CopyScript.fs r !! CopyScript.join dirname f').
    { intros f' Hf'. apply Hframe1. apply Hdis; [exact Hf'|left; reflexivity]. }
    assert (Hdst_same : forall f', In f' l ->
              CopyScript.fs r1 !! CopyScript.join distDir f'
              = CopyScript.fs r !! CopyScript.join distDir f').
    { intros f' Hf'. apply Hframe1. intros E. apply join_inj in E. subst f'. contradiction. }
    destruct (IH r1 Hnd') as (Ht & Hd & Hcopy & Hframe & Hcon); try assumption.
    + intros a b Ha Hb. apply Hdis; right; assumption.
    + intros f' Hf'. rewrite (Hsrc_same f' (or_intror Hf')), (Hdst_same f' Hf').
      apply Hnodes. right. exact Hf'.
    + split; [exact Ht|]. split; [exact Hd|]. split; [|split].
      * intros f' [<-|Hf'].
        -- rewrite Hframe by (intros f' Hf' E; apply join_inj in E; subst f'; contradiction).
           exact Hcopy1.
        -- specialize (Hcopy f' Hf'). rewrite (Hsrc_same f' (or_intror Hf')) in Hcopy.
           destruct (CopyScript.fs r !! CopyScript.join dirname f') as [[c|]|];
             try exact Hcopy; rewrite Hcopy; apply Hdst_same; exact Hf'.
      * intros p Hp. rewrite Hframe by (intros f' Hf'; apply Hp; right; exact Hf').
        apply Hframe1. apply Hp. left. reflexivity.
      * rewrite Hcon, Hcon1, <- app_assoc. cbn [List.map app]. f_equal. f_equal.
        apply List.map_ext_in. intros f' Hf'. unfold CopyScript.report, CopyScript.existsSync.
        rewrite (Hsrc_same f' (or_intror Hf')). reflexivity.
Qed.

Lemma filesToCopy_not_under_dist (dirname f f' : string) :
  In f CopyScript.filesToCopy ->
  CopyScript.join dirname f <> CopyScript.join (CopyScript.join dirname "dist") f'.
Proof.
  unfold CopyScript.join. intros Hf E.
  rewrite !string_app_assoc in E. apply string_app_inv_head in E.
  apply (string_app_inv_head "/") in E. simpl in Hf.
  destruct Hf as [<-|[<-|[<-|[<-|[]]]]]; discriminate E.
Qed.

(** Run in a directory where [dist] is absent or a directory, where
    none of the four listed names is a directory and none of them is a
    directory inside [dist], the script ends without an exception; [dist] is
    a directory afterwards; every listed file that exists holds the same
    content in [dist], and for a missing one nothing is written; no other
    path of the file system is changed; and the console shows, in the order
    of the list, one "Copied" line per existing file and one warning per
    missing file. *)
Theorem copyScript_copies (dirname : string) (fs0 : gmap string CopyScript.Node) :
  let distDir := CopyScript.join dirname "dist" in
  fs0 !! dirname = Some CopyScript.Directory ->
  (fs0 !! distDir = None \/ fs0 !! distDir = Some CopyScript.Directory) ->
  (forall f, In f CopyScript.filesToCopy ->
     fs0 !! CopyScript.join dirname f <> Some CopyScript.Directory
     /\ fs0 !! CopyScript.join distDir f <> Some CopyScript.Directory) ->
  let r := CopyScript.main dirname fs0 in
  CopyScript.threw r = false
  /\ CopyScript.fs r !! distDir = Some CopyScript.Directory
  /\ (forall f, In f CopyScript.filesToCopy ->
        match fs0 !! CopyScript.join dirname f with
        | Some (CopyScript.File c) =>
          CopyScript.fs r !! CopyScript.join distDir f = Some (CopyScript.File c)
        | _ => CopyScript.fs r !! CopyScript.join distDir f = fs0 !! CopyScript.join distDir f
        end)
  /\ (forall p, p <> distDir ->
        (forall f, In f CopyScript.filesToCopy -> p <> CopyScript.join distDir f) ->
        CopyScript.fs r !! p = fs0 !! p)
  /\ CopyScript.console r = List.map (CopyScript.report dirname fs0) CopyScript.filesToCopy.
Proof.
  intros distDir Hdir Hdist Hnodes r.
  assert (Hnd : List.NoDup CopyScript.filesToCopy).
  { unfold CopyScript.filesToCopy. repeat constructor; simpl; intuition discriminate. }
  assert (Hdis : forall f f', In f CopyScript.filesToCopy -> In f' CopyScript.filesToCopy ->
                   CopyScript.join dirname f <> CopyScript.join distDir f').
  { intros f f' Hf _. apply filesToCopy_not_under_dist. exact Hf. }
  (* the file system after the directory step *)
  set (r0 := if negb (CopyScript.existsSync fs0 distDir)
             then match CopyScript.mkdirSync dirname "dist" fs0 with
                  | Some fs' => CopyScript.mkRun fs' [] false
                  | None => CopyScript.mkRun fs0 [] true
                  end
             else CopyScript.mkRun fs0 [] false).
  assert (H0 : CopyScript.threw r0 = false
               /\ CopyScript.fs r0 !! distDir = Some CopyScript.Directory
               /\ CopyScript.console r0 = []
               /\ forall p, p <> distDir -> CopyScript.fs r0 !! p = fs0 !! p).
  { unfold r0, CopyScript.existsSync, CopyScript.mkdirSync. fold distDir.
    destruct Hdist as [E|E]; rewrite E; cbn [negb].
    - rewrite Hdir. cbn. split; [reflexivity|]. split; [apply lookup_insert_eq|].
      split; [reflexivity|]. intros p Hp. apply lookup_insert_ne. congruence.
    - cbn. repeat split. exact E. }
  destruct H0 as (Ht0 & Hd0 & Hc0 & Hf0).
  assert (Hsrc0 : forall f, In f CopyScript.filesToCopy ->
            CopyScript.fs r0 !! CopyScript.join dirname f = fs0 !! CopyScript.join dirname f).
  { intros f Hf. apply Hf0. unfold distDir. intros E. apply join_inj in E.
    simpl in Hf. destruct Hf as [<-|[<-|[<-|[<-|[]]]]]; discriminate E. }
  assert (Hdst0 : forall f, CopyScript.fs r0 !! CopyScript.join distDir f
                            = fs0 !! CopyScript.join distDir f).
  { intros f. apply Hf0. apply join_neq_dir. }
  destruct (copyOne_fold dirname distDir CopyScript.filesToCopy r0 Hnd Hdis Ht0 Hd0)
    as (Ht & Hd & Hcopy & Hframe & Hcon).
  { intros f Hf. rewrite (Hsrc0 f Hf), Hdst0. apply Hnodes, Hf. }
  change (fold_left (CopyScript.copyOne dirname distDir) CopyScript.filesToCopy r0) with r in *.
  split; [exact Ht|]. split; [exact Hd|]. split; [|split].
  - intros f Hf. specialize (Hcopy f Hf). rewrite (Hsrc0 f Hf), Hdst0 in Hcopy. exact Hcopy.
  - intros p Hp Hpf. rewrite (Hframe p Hpf). apply Hf0, Hp.
  - rewrite Hcon, Hc0. cbn [app]. apply List.map_ext_in. intros f Hf.
    unfold CopyScript.report, CopyScript.existsSync. rewrite (Hsrc0 f Hf). reflexivity.
Qed.

Lemma copyScript_copies_witness :
  let fs0 : gmap string CopyScript.Node :=
    <["/site" := CopyScript.Directory]>
      (<["/site/robots.txt" := CopyScript.File "User-agent: *"]>
         (<["/site/erd_icon.png" := CopyScript.File "PNG"]>
            (<["/site/build.js" := CopyScript.File "script"]> ∅))) in
  let r := CopyScript.main "/site" fs0 in
  fs0 !! "/site" = Some CopyScript.Directory
  /\ fs0 !! CopyScript.join "/site" "dist" = None
  /\ CopyScript.threw r = false
  /\ CopyScript.fs r !! "/site/dist/robots.txt" = Some (CopyScript.File "User-agent: *")
  /\ CopyScript.fs r !! "/site/dist/ads.txt" = None
  /\ CopyScript.console r
     = [CopyScript.Log "Copied robots.txt to dist/";
        CopyScript.Warn "Warning: Source file not found - /site/ads.txt";
        CopyScript.Warn "Warning: Source file not found - /site/googleef03e757e46e8c03.html";
        CopyScript.Log "Copied erd_icon.png to dist/"].
Proof.
  intros fs0 r.
  assert (H1 : fs0 !! "/site" = Some CopyScript.Directory) by (vm_compute; reflexivity).
  assert (H2 : fs0 !! CopyScript.join "/site" "dist" = None) by (vm_compute; reflexivity).
  assert (H3 : forall f, In f CopyScript.filesToCopy ->
                 fs0 !! CopyScript.join "/site" f <> Some CopyScript.Directory
                 /\ fs0 !! CopyScript.join (CopyScript.join "/site" "dist") f
                    <> Some CopyScript.Directory).
  { intros f Hf. simpl in Hf.
    destruct Hf as [<-|[<-|[<-|[<-|[]]]]]; split; vm_compute; discriminate. }
  destruct (copyScript_copies "/site" fs0 H1 (or_introl H2) H3) as (Ht & _ & Hcopy & _ & Hcon).
  split; [exact H1|]. split; [exact H2|]. split; [exact Ht|].
  pose proof (Hcopy "robots.txt" (or_introl eq_refl)) as Hrobots.
  pose proof (Hcopy "ads.txt" (or_intror (or_introl eq_refl))) as Hads.
  clear Hcopy. split; [|split].
  - vm_compute in Hrobots |- *. exact Hrobots.
  - vm_compute in Hads |- *. exact Hads.
  - etransitivity; [exact Hcon|]. vm_compute. reflexivity.
Defined.

(** ** The map-based editor under pointer input *)

(** One deliverable input keeps the editor without a connection, out of
    connection mode and without a selected shape, when every render so far
    was so. *)
Lemma pointer_step_noConnection (renders : list PlusPage.State) (w : PlusPageApp.World)
    (i : PlusPagePointer.Input) :
  List.Forall PlusPagePointer.noConnection (PlusPageApp.state w :: renders) ->
  PlusPagePointer.deliverable (PlusPageApp.state w :: renders) i ->
  PlusPagePointer.noConnection (PlusPageApp.state (PlusPagePointer.step w i)).
Proof.
  intros Hall Hdel.
  pose proof (List.Forall_inv Hall) as (Hr & Ha & Hs).
  pose proof (truthy_whenTruthy_None _ Hs) as Hw.
  unfold PlusPagePointer.noConnection.
  destruct i as [ev|relId atStart c]; [destruct ev|]; cbn in Hdel |- *.
  - (* click on a shape *)
    destruct Hdel as [Hin ->].
    rewrite List.Forall_forall in Hall. destruct (Hall _ Hin) as (_ & Hact & _).
    unfold PlusPage.handleEntityClick. rewrite Hact. cbn. auto.
  - cbn. auto.
  - unfold PlusPageApp.handleStageClick. destruct targetIsStage; [|cbn; auto].
    rewrite Ha. cbn. auto.
  - cbn. auto.
  - unfold PlusPageApp.toggleRelationshipCreation. rewrite Hs, Ha. cbn. auto.
  - unfold PlusPageApp.handleKeyDown, PlusPage.deleteSelected. rewrite Hw.
    destruct (String.eqb key "Delete" || String.eqb key "Backspace");
      [destruct (String.eqb tagName "INPUT" || String.eqb tagName "TEXTAREA")|];
      destruct (String.eqb key "Escape");
      destruct (whenTruthy (PlusPage.selectedRelationshipId (PlusPageApp.state w)));
      unfold skip; cbn; rewrite ?Hr; cbn; auto.
  - cbn. auto.
  - unfold PlusPage.deleteSelected. rewrite Hw.
    destruct (whenTruthy (PlusPage.selectedRelationshipId (PlusPageApp.state w)));
      unfold skip; cbn; rewrite ?Hr; cbn; auto.
  - cbn. auto.
  - rewrite Hr. cbn. auto.
Qed.

Lemma pointer_run_noConnection (inputs : list PlusPagePointer.Input) :
  forall (renders : list PlusPage.State) (w : PlusPageApp.World),
    List.Forall PlusPagePointer.noConnection (PlusPageApp.state w :: renders) ->
    PlusPagePointer.deliverableRun renders w inputs ->
    PlusPagePointer.noConnection (PlusPageApp.state (PlusPagePointer.run w inputs)).
Proof.
  induction inputs as [|i rest IH]; intros renders w Hall Hdel.
  - exact (List.Forall_inv Hall).
  - destruct Hdel as [Hi Hrest]. cbn [PlusPagePointer.run fold_left].
    apply (IH (PlusPageApp.state w :: renders) (PlusPagePointer.step w i)); [|exact Hrest].
    constructor; [|exact Hall].
    apply (pointer_step_noConnection renders w i Hall Hi).
Qed.

(** From the initial state no sequence of deliverable inputs gets the
    map-based editor to hold a connection or to enter connection mode. *)
Lemma pointer_never_connects (inputs : list PlusPagePointer.Input) :
  PlusPagePointer.deliverableRun [] PlusPageApp.initialWorld inputs ->
  PlusPagePointer.noConnection
    (PlusPageApp.state (PlusPagePointer.run PlusPageApp.initialWorld inputs)).
Proof.
  apply pointer_run_noConnection. constructor; [|constructor].
  repeat split.
Qed.

(** ** No second connection on a pair of shapes *)

Lemma run_distinctPairs (M : MathObject) (evs : list Event) :
  forall w0 w,
    Forall (fun s => distinctPairs (relationships s)) (history (app w0)) ->
    run M w0 evs = Some w ->
    Forall (fun s => distinctPairs (relationships s)) (history (app w)).
Proof.
  induction evs as [|ev evs IH]; simpl; intros w0 w H0 Hrun.
  - injection Hrun as <-. exact H0.
  - destruct (step M w0 ev) as [w1|] eqn:E; [|discriminate].
    apply (IH w1); [|exact Hrun]. apply (step_distinctPairs M w0 w1 ev H0 E).
Qed.

Lemma reachable_not_editing_in_connection_mode (M : MathObject) (evs : list Event)
    (w : World) :
  run M initialWorld evs = Some w ->
  active (relationshipCreation (app w)) = true ->
  truthy (editingEntityId (app w)) = false /\ textarea w = None.
Proof.
  intros Hrun Hact.
  destruct (run_wellFormed M evs _ _ initialWorld_wellFormed Hrun) as (_ & Hed & Hta).
  assert (Hfalse : truthy (editingEntityId (app w)) = false).
  { destruct (truthy (editingEntityId (app w))); [|reflexivity].
    rewrite Hed in Hact by reflexivity. discriminate. }
  split; [exact Hfalse | apply Hta; exact Hfalse].
Qed.



(** ** Clicking the pending source again *)

Lemma distinctPairs_no_loop (rels : list Relationship) :
  distinctPairs rels -> forall r, In r rels -> r_fromId r <> r_toId r.
Proof.
  induction rels as [|r0 rels IH]; intros H r Hin; [destruct Hin|].
  destruct H as (Hloop & _ & Hrest). destruct Hin as [<-|Hin]; [exact Hloop|].
  apply IH; assumption.
Qed.

(** C6. In any world the history-based editor reaches from its initial
    state, while it waits for the target of a connection from [a], a click
    on [a] itself changes nothing at all: no connection, the same graph and
    history, no alert, and connection mode still waiting for a target; and
    no snapshot of its history holds a connection from a shape to itself.
    In the map-based editor a click handler, of whichever render, appends no
    connection from a shape to itself; the handler of the current render,
    clicked on the pending source, leaves shapes, connections and the
    pending connection untouched; and no sequence of deliverable inputs
    brings that editor into connection mode or to a connection. *)
Theorem self_connection_ignored (M : MathObject) (evs : list Event) (w : World)
    (seen ps : PlusPage.State) (a id newId : string) (now : N)
    (inputs : list PlusPagePointer.Input) :
  run M initialWorld evs = Some w ->
  active (relationshipCreation (app w)) = true ->
  whenTruthy (fromId (relationshipCreation (app w))) = Some a ->
  PlusPagePointer.deliverableRun [] PlusPageApp.initialWorld inputs ->
  step M w (EvEntityClick a newId) = Some w
  /\ (forall s r, In s (history (app w)) -> In r (relationships s) ->
                  r_fromId r <> r_toId r)
  /\ (forall r, In r (PlusPage.relationships (PlusPage.handleEntityClick seen id now ps)) ->
                In r (PlusPage.relationships ps)
                \/ (r_toId r = id /\ r_fromId r <> r_toId r))
  /\ (active (PlusPage.relationshipCreation ps) = true ->
      whenTruthy (fromId (PlusPage.relationshipCreation ps)) = Some a ->
      let ps' := PlusPage.handleEntityClick ps a now ps in
      PlusPage.entities ps' = PlusPage.entities ps
      /\ PlusPage.relationships ps' = PlusPage.relationships ps
      /\ PlusPage.relationshipCreation ps' = PlusPage.relationshipCreation ps)
  /\ (let s := PlusPageApp.state (PlusPagePointer.run PlusPageApp.initialWorld inputs) in
      PlusPage.relationships s = []
      /\ active (PlusPage.relationshipCreation s) = false).
Proof.
  intros Hrun Hact Hfrom Hdel. split; [|split; [|split; [|split]]].
  - destruct (reachable_not_editing_in_connection_mode M evs w Hrun Hact) as [Hed Hta].
    pose proof (run_wellFormed M evs _ _ initialWorld_wellFormed Hrun) as Hwf.
    destruct (wellFormed_renders w Hwf) as (cur & Hcur).
    unfold step. rewrite Hcur. f_equal. cbn [handle].
    rewrite handleEntityClick_same_source by assumption.
    apply rerender_fixed; assumption.
  - intros s r Hs Hr.
    assert (Hall : Forall (fun s => distinctPairs (relationships s)) (history (app w))).
    { apply (run_distinctPairs M evs initialWorld w); [|exact Hrun]. repeat constructor. }
    rewrite List.Forall_forall in Hall.
    exact (distinctPairs_no_loop _ (Hall s Hs) r Hr).
  - intros r. unfold PlusPage.handleEntityClick.
    destruct (if active (PlusPage.relationshipCreation seen)
              then whenTruthy (fromId (PlusPage.relationshipCreation seen)) else None)
      as [source|]; [|cbn; auto].
    destruct (String.eqb_spec source id) as [|Hne]; cbn; [auto|].
    rewrite in_app_iff. intros [Hin|[<-|[]]]; [left; exact Hin|right].
    cbn. split; [reflexivity | exact Hne].
  - intros Hpact Hpfrom.
    unfold PlusPage.handleEntityClick. rewrite Hpact, Hpfrom, String.eqb_refl.
    repeat split.
  - destruct (pointer_never_connects inputs Hdel) as (Hr & Ha & _).
    split; assumption.
Qed.

(** A handler of an earlier render: made while the editor waited for the
    target of a connection from ["A"] and run when the pending source is
    ["B"], it connects ["A"] to ["B"], not a shape to itself.  Both states
    are in connection mode, which pointer input never produces. *)
Example plusPage_stale_click_connects :
  let stale := PlusPage.mkState ∅ [] None None (mkRelationshipCreation true (Some "A")) None in
  let ps := PlusPage.mkState ∅ [] None None (mkRelationshipCreation true (Some "B")) None in
  PlusPage.relationships (PlusPage.handleEntityClick stale "B" 7 ps)
  = [mkRelationship "rel_7" "A" "B" ONE ONE].
Proof. reflexivity. Qed.

Lemma self_connection_ignored_witness :
  let evs := [EvAddEntity EntityT "A" None; EvRelationshipButton; EvEntityClick "A" "r0"] in
  let stale := PlusPage.mkState ∅ [] None None (mkRelationshipCreation true (Some "B")) None in
  let ps := PlusPage.mkState ∅ [] None None (mkRelationshipCreation true (Some "A")) None in
  let inputs :=
    [PlusPagePointer.FromApp (PlusPageApp.EvAddEntity EntityT 1);
     PlusPagePointer.FromApp
       (PlusPageApp.EvEntityClick PlusPage.initialState PlusPagePointer.hitShapeId 2);
     PlusPagePointer.FromApp PlusPageApp.EvToggleRelationshipCreation;
     PlusPagePointer.FromApp
       (PlusPageApp.EvEntityClick PlusPage.initialState PlusPagePointer.hitShapeId 3)] in
  exists w,
    run approxMath initialWorld evs = Some w
    /\ active (relationshipCreation (app w)) = true
    /\ whenTruthy (fromId (relationshipCreation (app w))) = Some "A"
    /\ PlusPagePointer.deliverableRun [] PlusPageApp.initialWorld inputs
    /\ step approxMath w (EvEntityClick "A" "r1") = Some w
    /\ (forall r, In r (PlusPage.relationships (PlusPage.handleEntityClick stale "A" 7 ps)) ->
                  r_fromId r <> r_toId r)
    /\ PlusPage.relationships (PlusPage.handleEntityClick ps "A" 7 ps) = []
    /\ active (PlusPage.relationshipCreation
                 (PlusPageApp.state (PlusPagePointer.run PlusPageApp.initialWorld inputs)))
       = false.
Proof.
  intros evs stale ps inputs.
  destruct (run approxMath initialWorld evs) as [w|] eqn:Hrun;
    [|vm_compute in Hrun; discriminate Hrun].
  assert (Hact : active (relationshipCreation (app w)) = true).
  { vm_compute in Hrun. injection Hrun as <-. reflexivity. }
  assert (Hfrom : whenTruthy (fromId (relationshipCreation (app w))) = Some "A").
  { vm_compute in Hrun. injection Hrun as <-. reflexivity. }
  assert (Hdel : PlusPagePointer.deliverableRun [] PlusPageApp.initialWorld inputs).
  { cbn [PlusPagePointer.deliverableRun PlusPagePointer.deliverable inputs].
    repeat split; [right; left; reflexivity | do 3 right; left; reflexivity]. }
  exists w. split; [reflexivity|]. split; [exact Hact|]. split; [exact Hfrom|].
  split; [exact Hdel|].
  destruct (self_connection_ignored approxMath evs w stale ps "A" "A" "r1" 7 inputs
              Hrun Hact Hfrom Hdel) as (Hstep & _ & Hloop & Hfresh & Hlast).
  cbv zeta in Hlast. destruct Hlast as [_ Hoff].
  split; [exact Hstep|].
  split; [intros r Hr; destruct (Hloop r Hr) as [[]|[_ Hne]]; exact Hne|].
  split; [|exact Hoff].
  exact (proj1 (proj2 (Hfresh eq_refl eq_refl))).
Defined.

(** ** Creating a connection *)




(** ** Dragging a shape *)

Lemma firstn_S_nth_error (A : Type) (l : list A) :
  forall (k : nat) (a : A),
    nth_error l k = Some a -> firstn (S k) l = firstn k l ++ [a].
Proof.
  induction l as [|b l IH]; intros [|k] a H; simpl in *; try discriminate.
  - injection H as ->. reflexivity.
  - f_equal. exact (IH k a H).
Qed.

Lemma fold_left_frame (F : gmap string LineGroup -> Relationship -> gmap string LineGroup)
    (k : string) :
  (forall sc r, k <> r_id r -> F sc r !! k = sc !! k) ->
  forall rels sc,
    (forall r, In r rels -> k <> r_id r) ->
    fold_left F rels sc !! k = sc !! k.
Proof.
  intros Hframe. induction rels as [|r rels IH]; intros sc Hk; simpl; [reflexivity|].
  rewrite IH by (intros r' Hr'; apply Hk; right; exact Hr').
  apply Hframe, Hk. left. reflexivity.
Qed.

(** A loop over connections with distinct ids that writes, at the turn of
    a connection, to the group of that connection only, writes the group of
    [rel] once. *)
Lemma fold_left_writes_once
    (F : gmap string LineGroup -> Relationship -> gmap string LineGroup)
    (rel : Relationship) (g : LineGroup -> LineGroup) :
  (forall sc r, r_id rel <> r_id r -> F sc r !! r_id rel = sc !! r_id rel) ->
  (forall sc lg, sc !! r_id rel = Some lg -> F sc rel !! r_id rel = Some (g lg)) ->
  forall rels sc lg,
    List.NoDup (List.map r_id rels) ->
    In rel rels ->
    sc !! r_id rel = Some lg ->
    fold_left F rels sc !! r_id rel = Some (g lg).
Proof.
  intros Hframe Hwrite.
  induction rels as [|r rels IH]; intros sc lg Hnd Hin Hlg; [destruct Hin|].
  simpl in Hnd. apply List.NoDup_cons_iff in Hnd. destruct Hnd as [Hr Hnd].
  simpl. destruct Hin as [->|Hin].
  - rewrite (fold_left_frame F (r_id rel) Hframe).
    + apply Hwrite. exact Hlg.
    + intros r' Hr' E. apply Hr. rewrite E. apply in_map. exact Hr'.
  - apply IH; [exact Hnd | exact Hin |].
    rewrite Hframe; [exact Hlg|].
    intros E. apply Hr. rewrite <- E. apply in_map. exact Hin.
Qed.

(** One pointer-move: the group of a connection that touches the dragged
    shape, with both ends found, is redrawn from the route computed for the
    dragged shape at the pointer position. *)
Lemma handleDragMove_redraws (M : MathObject) (cur : Snapshot) (id : string) (x y : float)
    (w : World) (dragged : Entity) (rel : Relationship) (f t : Entity) (lg : LineGroup) :
  findEntity id (entities cur) = Some dragged ->
  List.NoDup (List.map r_id (relationships cur)) ->
  In rel (relationships cur) ->
  r_fromId rel = id \/ r_toId rel = id ->
  let temp := mkEntity (e_id dragged) x y (e_width dragged) (e_height dragged)
                (e_name dragged) (e_type dragged) in
  (if String.eqb (r_fromId rel) id then Some temp
   else findEntity (r_fromId rel) (entities cur)) = Some f ->
  (if String.eqb (r_toId rel) id then Some temp
   else findEntity (r_toId rel) (entities cur)) = Some t ->
  stage w !! r_id rel = Some lg ->
  stage (handleDragMove M cur id x y w) !! r_id rel
  = Some (redrawGroup (calculateRelationshipRenderProps M f t) lg).
Proof.
  intros Hfind Hnd Hin Htouch temp Hf Ht Hlg.
  unfold handleDragMove. rewrite Hfind. cbn [onStage stage]. fold temp.
  apply (fold_left_writes_once _ rel
           (redrawGroup (calculateRelationshipRenderProps M f t)));
    [| |exact Hnd|exact Hin|exact Hlg].
  - intros sc r Hne. cbv beta.
    destruct (String.eqb (r_fromId r) id || String.eqb (r_toId r) id); [|reflexivity].
    destruct (if String.eqb (r_fromId r) id then _ else _); [|reflexivity].
    destruct (if String.eqb (r_toId r) id then _ else _); [|reflexivity].
    destruct (sc !! r_id r); [|reflexivity].
    apply lookup_insert_ne. congruence.
  - intros sc lg0 Hlg0. cbv beta.
    assert (Hor : String.eqb (r_fromId rel) id || String.eqb (r_toId rel) id = true).
    { destruct Htouch as [<-|<-]; rewrite String.eqb_refl;
        [reflexivity | apply orb_true_r]. }
    rewrite Hor, Hf, Ht, Hlg0. apply lookup_insert_eq.
Qed.

Lemma sameChildren_trans (a b c : LineGroup) :
  sameChildren a b -> sameChildren b c -> sameChildren a c.
Proof. unfold sameChildren. tauto. Qed.

Lemma handleDragMove_sameNodes (M : MathObject) (cur : Snapshot) (id : string)
    (x y : float) (w : World) :
  sameNodes (stage w) (stage (handleDragMove M cur id x y w)).
Proof.
  unfold handleDragMove.
  destruct (findEntity id (entities cur)) as [d|]; [|apply sameNodes_refl].
  cbn [onStage stage].
  apply (fold_left_rel _ _ _ sameNodes (fun _ => True));
    [apply sameNodes_refl | apply sameNodes_trans | | intros; exact I].
  intros sc rel _. cbv beta.
  destruct (String.eqb (r_fromId rel) id || String.eqb (r_toId rel) id);
    [|apply sameNodes_refl].
  destruct (if String.eqb (r_fromId rel) id then _ else _) as [f|];
    [|apply sameNodes_refl].
  destruct (if String.eqb (r_toId rel) id then _ else _) as [t|];
    [|apply sameNodes_refl].
  destruct (sc !! r_id rel) as [lineGroup|] eqn:E; [|apply sameNodes_refl].
  intros k. destruct (decide (r_id rel = k)) as [<-|Hne].
  - rewrite E, lookup_insert_eq. apply sameChildren_redrawGroup.
  - rewrite lookup_insert_ne by exact Hne.
    destruct (sc !! k); [apply sameChildren_refl|exact I].
Qed.

(** Pointer-moves keep the React state and the alerts, and a group that is
    on the stage stays there with the children it has. *)
Lemma run_dragMoves_group (M : MathObject) (id key : string)
    (moves : list (float * float)) :
  forall (w : World) (cur : Snapshot) (lg : LineGroup),
    currentSnapshot (app w) = Some cur ->
    stage w !! key = Some lg ->
    exists wn lgn,
      run M w (List.map (fun p => EvDragMove id (fst p) (snd p)) moves) = Some wn
      /\ app wn = app w /\ alerts wn = alerts w
      /\ stage wn !! key = Some lgn /\ sameChildren lg lgn.
Proof.
  induction moves as [|[x y] moves IH]; intros w cur lg Hcur Hlg; simpl.
  - exists w, lg. repeat split; try assumption; tauto.
  - destruct (step_dragMove M w cur id x y Hcur) as (w1 & Hstep & Happ & Hal & Hst).
    rewrite Hstep.
    pose proof (handleDragMove_sameNodes M cur id x y w key) as Hsame.
    rewrite <- Hst, Hlg in Hsame.
    destruct (stage w1 !! key) as [lg1|] eqn:Hlg1; [|contradiction].
    rewrite <- Happ in Hcur.
    destruct (IH w1 cur lg1 Hcur Hlg1) as (wn & lgn & Hrun & Happn & Haln & Hlgn & Hch).
    exists wn, lgn. split; [exact Hrun|].
    split; [congruence|]. split; [congruence|]. split; [exact Hlgn|].
    exact (sameChildren_trans _ _ _ Hsame Hch).
Qed.

Lemma redrawGroup_children (props : RenderProps) (lg lg' : LineGroup) :
  sameChildren lg lg' ->
  lg_line (redrawGroup props lg')
  = match lg_line lg with Some _ => Some (points props) | None => None end
  /\ lg_start (redrawGroup props lg')
     = match lg_start lg with Some _ => Some (startSymbolProps props) | None => None end
  /\ lg_end (redrawGroup props lg')
     = match lg_end lg with Some _ => Some (endSymbolProps props) | None => None end.
Proof.
  intros (H1 & H2 & H3). unfold redrawGroup. cbn.
  repeat split.
  - destruct (lg_line lg), (lg_line lg'); try reflexivity.
    + destruct (proj2 H1 (ex_intro _ _ eq_refl)) as [? E]; discriminate E.
    + destruct (proj1 H1 (ex_intro _ _ eq_refl)) as [? E]; discriminate E.
  - destruct (lg_start lg), (lg_start lg'); try reflexivity.
    + destruct (proj2 H2 (ex_intro _ _ eq_refl)) as [? E]; discriminate E.
    + destruct (proj1 H2 (ex_intro _ _ eq_refl)) as [? E]; discriminate E.
  - destruct (lg_end lg), (lg_end lg'); try reflexivity.
    + destruct (proj2 H3 (ex_intro _ _ eq_refl)) as [? E]; discriminate E.
    + destruct (proj1 H3 (ex_intro _ _ eq_refl)) as [? E]; discriminate E.
Qed.

(** C4. A drag of shape [id] through any list of intermediate positions
    followed by the release at [(rx, ry)].  After every prefix of the moves
    the React state (history, cursor, selection) and the alerts are exactly
    as before the drag.  The moves write to the stage: after the move to
    [(x, y)], for every connection of the current snapshot that touches the
    dragged shape and has both ends, the Konva group of the connection holds
    the route computed for the dragged shape placed at [(x, y)]: its line
    has the points of that route and its cardinality symbols, where shown,
    the poses of that route.  The release appends exactly one snapshot, in
    which every shape with id [id] sits at [(rx, ry)] and everything else is
    as in the snapshot before the drag. *)
Theorem drag_commits_once (M : MathObject) (w : World) (cur : Snapshot) (id : string)
    (moves : list (float * float)) (rx ry : float) :
  currentSnapshot (app w) = Some cur ->
  let dragMoves := List.map (fun p => EvDragMove id (fst p) (snd p)) moves in
  let released :=
    mkSnapshot (List.map (moveEntity id rx ry) (entities cur)) (relationships cur) in
  (forall k : nat,
      exists wk, run M w (firstn k dragMoves) = Some wk
                 /\ app wk = app w /\ alerts wk = alerts w)
  /\ (forall (k : nat) (x y : float) (dragged : Entity) (rel : Relationship)
             (f t : Entity) (lg : LineGroup),
        nth_error moves k = Some (x, y) ->
        findEntity id (entities cur) = Some dragged ->
        List.NoDup (List.map r_id (relationships cur)) ->
        In rel (relationships cur) ->
        r_fromId rel = id \/ r_toId rel = id ->
        let temp := mkEntity (e_id dragged) x y (e_width dragged) (e_height dragged)
                      (e_name dragged) (e_type dragged) in
        (if String.eqb (r_fromId rel) id then Some temp
         else findEntity (r_fromId rel) (entities cur)) = Some f ->
        (if String.eqb (r_toId rel) id then Some temp
         else findEntity (r_toId rel) (entities cur)) = Some t ->
        stage w !! r_id rel = Some lg ->
        let route := calculateRelationshipRenderProps M f t in
        exists wk lg',
          run M w (firstn (S k) dragMoves) = Some wk
          /\ stage wk !! r_id rel = Some lg'
          /\ lg_line lg'
             = match lg_line lg with Some _ => Some (points route) | None => None end
          /\ lg_start lg'
             = match lg_start lg with
               | Some _ => Some (startSymbolProps route)
               | None => None
               end
          /\ lg_end lg'
             = match lg_end lg with
               | Some _ => Some (endSymbolProps route)
               | None => None
               end)
  /\ (exists w', run M w (dragMoves ++ [EvDragEnd id rx ry]) = Some w'
                 /\ committed (app w) released (app w'))
  /\ Forall2 (fun e e' =>
                if String.eqb (e_id e) id
                then e' = mkEntity (e_id e) rx ry (e_width e) (e_height e) (e_name e) (e_type e)
                else e' = e)
       (entities cur) (entities released)
  /\ (forall e', In e' (entities released) -> e_id e' = id -> e_x e' = rx /\ e_y e' = ry).
Proof.
  intros Hcur dragMoves released. split; [|split; [|split; [|split]]].
  - intros k. unfold dragMoves. rewrite firstn_map.
    apply (run_dragMoves M id (firstn k moves) w cur Hcur).
  - intros k x y dragged rel f t lg Hk Hfind Hnd Hin Htouch temp Hf Ht Hlg route.
    unfold dragMoves. rewrite firstn_map, (firstn_S_nth_error _ moves k (x, y) Hk).
    rewrite map_app, run_app. cbn [List.map fst snd].
    destruct (run_dragMoves_group M id (r_id rel) (firstn k moves) w cur lg Hcur Hlg)
      as (wk & lgk & Hrun & Happ & _ & Hlgk & Hch).
    rewrite Hrun. rewrite <- Happ in Hcur.
    destruct (step_dragMove M wk cur id x y Hcur) as (w1 & Hstep & _ & _ & Hst).
    exists w1, (redrawGroup route lgk).
    split; [simpl; rewrite Hstep; reflexivity|].
    split; [|apply redrawGroup_children; exact Hch].
    rewrite Hst.
    apply (handleDragMove_redraws M cur id x y wk dragged rel f t lgk); assumption.
  - destruct (run_dragMoves M id moves w cur Hcur) as (wn & Hrun & Happ & _).
    fold dragMoves in Hrun. rewrite run_app, Hrun. simpl. unfold step.
    rewrite Happ, Hcur. eexists. split; [reflexivity|].
    rewrite rerender_app. simpl. unfold handleDragEnd, setEntities. simpl.
    rewrite Happ.
    exact (updateState_committed (app w) cur (Fn (List.map (moveEntity id rx ry)))
             (Fn (fun prevRels => prevRels)) (app w) Hcur).
  - apply moveEntity_pointwise.
  - intros e' Hin Hid. simpl in Hin. apply in_map_iff in Hin.
    destruct Hin as (e & <- & _). unfold moveEntity in *.
    destruct (String.eqb_spec (e_id e) id) as [|Hne]; [split; reflexivity|].
    contradiction.
Qed.

Lemma drag_commits_once_witness :
  let A := mkEntity "A" 0 0 150 75 "Entity 1" EntityT in
  let B := mkEntity "B" 400 0 120 120 "Action 1" ActionT in
  let r := mkRelationship "r" "A" "B" ONE_AND_ONLY_ONE ONE_AND_ONLY_ONE in
  let cur := mkSnapshot [A; B] [r] in
  let lg := mkLineGroup (Some [150; 37.5; 400; 60]%float)
              (Some (mkSymbolProps 170 39 185)) None in
  let w := mkWorld (setHistory [cur] initialState) {[ "r"%string := lg ]} None [] in
  let A' := mkEntity "A" 70 80 150 75 "Entity 1" EntityT in
  currentSnapshot (app w) = Some cur
  /\ (exists wk lg',
        run approxMath w [EvDragMove "A" 60 60; EvDragMove "A" 70 80] = Some wk
        /\ stage wk !! "r"%string = Some lg'
        /\ lg_line lg' = Some [220; 117.5; 400; 60]%float
        /\ lg_start lg'
           = Some (startSymbolProps (calculateRelationshipRenderProps approxMath A' B))
        /\ lg_end lg' = None)
  /\ exists w',
       run approxMath w ([EvDragMove "A" 60 60; EvDragMove "A" 70 80] ++ [EvDragEnd "A" 90 100])
       = Some w'
       /\ committed (app w)
            (mkSnapshot [mkEntity "A" 90 100 150 75 "Entity 1" EntityT; B] [r]) (app w').
Proof.
  intros A B r cur lg w A'. split; [reflexivity|].
  destruct (drag_commits_once approxMath w cur "A" [(60, 60); (70, 80)]%float 90 100 eq_refl)
    as (_ & Hstage & Hend & _).
  split; [|exact Hend].
  assert (Hlg : stage w !! r_id r = Some lg) by (vm_compute; reflexivity).
  destruct (Hstage 1 70%float 80%float A r A' B lg eq_refl eq_refl
              ltac:(constructor; [intros []|constructor])
              ltac:(left; reflexivity) ltac:(left; reflexivity) eq_refl eq_refl Hlg)
    as (wk & lg' & Hrun & Hlg' & Hline & Hstart & Hfin).
  exists wk, lg'. split; [exact Hrun|]. split; [exact Hlg'|].
  split; [rewrite Hline; vm_compute; reflexivity|].
  split; [exact Hstart | exact Hfin].
Defined.
